(** * The supporters of the trainer, [pytorch_lightning/trainer/supporters.py]

    A shallow embedding of [CycleIterator], [CombinedDataset],
    [CombinedLoader] and [CombinedLoaderIterator], followed by the
    properties of their lengths, of their iteration sessions and of their
    failure modes; and of [TensorRunningAccum], [Accumulator],
    [LightningBatchSamplerWrapper] and [PredictionCollection], with the
    properties of the window, of the recreated dataloader, of the cache of
    predictions and of the legacy store. *)

From Stdlib Require Import String List Arith Bool Lia PeanoNat Permutation
  DecimalString.
Import ListNotations.
Local Open Scope string_scope.
Local Open Scope list_scope.

Set Implicit Arguments.
Set Warnings "-register-all".


(** ** Python values *)

(** The exceptions the module can raise or let through.  [StopIteration] is
    the end-of-sequence signal, [MisconfigurationException] reports an
    unsupported mode, [ValueError] is what the builtins [min] and [max]
    raise on an empty argument, [TypeError] is what an ill-typed comparison
    or [next(None)] raises, and [SourceError] stands for any failure of a
    data source itself. *)
Inductive exn : Type :=
| StopIteration
| TypeError
| ValueError
| MisconfigurationException
| SourceError (code : nat).

Inductive result (A : Type) : Type :=
| Ok (a : A)
| Err (e : exn).
Arguments Ok {A} a.
Arguments Err {A} e.

Definition is_ok {A} (r : result A) : bool :=
  match r with Ok _ => true | Err _ => false end.

(** A length is an [int] or [float('inf')]. *)
Inductive Length : Type :=
| Fin (n : nat)
| Inf.

(** Sequences are rebuilt with [type(data)(...)]: a list stays a list and a
    tuple stays a tuple. *)
Inductive seq_kind : Type := PyList | PyTuple.

(** A collection: a leaf, a sequence of collections, or a [dict] from
    string keys to collections, in insertion order. *)
Inductive tree (A : Type) : Type :=
| Leaf (a : A)
| Seq (k : seq_kind) (ts : list (tree A))
| Map (kvs : list (string * tree A)).
Arguments Leaf {A} a.
Arguments Seq {A} k ts.
Arguments Map {A} kvs.

Section tree_induction.
Variable A : Type.
Variable P : tree A -> Prop.
Hypothesis HLeaf : forall a, P (Leaf a).
Hypothesis HSeq : forall k ts, Forall P ts -> P (Seq k ts).
Hypothesis HMap :
  forall kvs, Forall (fun kv => P (snd kv)) kvs -> P (Map kvs).

Fixpoint tree_nested_ind (t : tree A) : P t :=
  match t with
  | Leaf a => HLeaf a
  | Seq k ts =>
      HSeq k
        ((fix all (l : list (tree A)) : Forall P l :=
            match l with
            | [] => Forall_nil P
            | x :: l' => Forall_cons x (tree_nested_ind x) (all l')
            end) ts)
  | Map kvs =>
      HMap
        ((fix all (l : list (string * tree A))
            : Forall (fun kv => P (snd kv)) l :=
            match l with
            | [] => Forall_nil _
            | x :: l' =>
                Forall_cons (P := fun kv => P (snd kv)) x
                  (tree_nested_ind (snd x)) (all l')
            end) kvs)
  end.
End tree_induction.

Fixpoint tmap {A B} (f : A -> B) (t : tree A) : tree B :=
  match t with
  | Leaf a => Leaf (f a)
  | Seq k ts => Seq k (map (tmap f) ts)
  | Map kvs => Map (map (fun kv => (fst kv, tmap f (snd kv))) kvs)
  end.

(** The leaves in the order a traversal meets them. *)
Fixpoint leaves {A} (t : tree A) : list A :=
  match t with
  | Leaf a => [a]
  | Seq _ ts => flat_map leaves ts
  | Map kvs => flat_map (fun kv => leaves (snd kv)) kvs
  end.

(** The structural kind at every position and the keys of every mapping. *)
Definition shape {A} (t : tree A) : tree unit := tmap (fun _ => tt) t.

Definition is_leaf {A} (t : tree A) : bool :=
  match t with Leaf _ => true | _ => false end.

(** A container one level deep: a bare leaf, or a sequence or mapping whose
    children are all leaves. *)
Definition flat {A} (t : tree A) : bool :=
  match t with
  | Leaf _ => true
  | Seq _ ts => forallb is_leaf ts
  | Map kvs => forallb (fun kv => is_leaf (snd kv)) kvs
  end.

(** What a length computation can return: a number, or a collection of
    numbers when [min] or [max] is handed collections. *)
Definition pyval : Type := tree Length.

Definition seq_kind_eqb (a b : seq_kind) : bool :=
  match a, b with
  | PyList, PyList | PyTuple, PyTuple => true
  | _, _ => false
  end.

Definition Length_eqb (a b : Length) : bool :=
  match a, b with
  | Fin x, Fin y => Nat.eqb x y
  | Inf, Inf => true
  | _, _ => false
  end.

Definition Length_ltb (a b : Length) : bool :=
  match a, b with
  | Fin x, Fin y => Nat.ltb x y
  | Fin _, Inf => true
  | Inf, _ => false
  end.

Fixpoint assoc {V} (k : string) (kvs : list (string * V)) : option V :=
  match kvs with
  | [] => None
  | (k', v) :: r => if String.eqb k k' then Some v else assoc k r
  end.

(** Python's [==]: numbers by value, sequences of one type element by
    element, dicts key by key, anything else unequal. *)
Fixpoint py_eq (a b : pyval) : bool :=
  match a, b with
  | Leaf x, Leaf y => Length_eqb x y
  | Seq k xs, Seq k' ys =>
      seq_kind_eqb k k' &&
      (fix go (xs ys : list pyval) : bool :=
         match xs, ys with
         | [], [] => true
         | x :: xs', y :: ys' => py_eq x y && go xs' ys'
         | _, _ => false
         end) xs ys
  | Map kx, Map ky =>
      Nat.eqb (List.length kx) (List.length ky) &&
      forallb (fun kv => match assoc (fst kv) ky with
                         | Some w => py_eq (snd kv) w
                         | None => false
                         end) kx
  | _, _ => false
  end.

(** Python's [<]: numbers by value; two lists or two tuples by their first
    differing element, else by size; everything else is a [TypeError]. *)
Fixpoint py_lt (a b : pyval) : result bool :=
  match a, b with
  | Leaf x, Leaf y => Ok (Length_ltb x y)
  | Seq k xs, Seq k' ys =>
      if seq_kind_eqb k k' then
        (fix go (xs ys : list pyval) : result bool :=
           match xs, ys with
           | [], [] => Ok false
           | [], _ :: _ => Ok true
           | _ :: _, [] => Ok false
           | x :: xs', y :: ys' =>
               if py_eq x y then go xs' ys' else py_lt x y
           end) xs ys
      else Err TypeError
  | _, _ => Err TypeError
  end.

(** [a > b] is answered by the mirrored [b < a]. *)
Definition py_gt (a b : pyval) : result bool := py_lt b a.

(** The builtins [min] and [max] on an iterable: [ValueError] when it is
    empty, otherwise a left-to-right scan that keeps the first extremal
    item and lets a failing comparison through. *)
Fixpoint py_scan (better : pyval -> pyval -> result bool)
    (cur : pyval) (rest : list pyval) : result pyval :=
  match rest with
  | [] => Ok cur
  | item :: rest' =>
      match better item cur with
      | Err e => Err e
      | Ok true => py_scan better item rest'
      | Ok false => py_scan better cur rest'
      end
  end.

Definition py_min (xs : list pyval) : result pyval :=
  match xs with
  | [] => Err ValueError
  | x :: rest => py_scan py_lt x rest
  end.

Definition py_max (xs : list pyval) : result pyval :=
  match xs with
  | [] => Err ValueError
  | x :: rest => py_scan py_gt x rest
  end.

(** ** Sources *)

(** A dataset exposes a count or none ([IterableDataset]). *)
Record Dataset : Type := { ds_len : option nat }.

(** One step of an iteration over a source: a batch, or a failure of the
    source that is not its exhaustion. *)
Inductive item : Type :=
| Item (b : nat)
| Fault (code : nat).

(** A source (a [DataLoader]-like object): iterable, neither a sequence nor
    a mapping.  [dl_len] is its [__len__] when it has one, [dl_batches] is
    what every fresh iterator over it goes through before it signals
    [StopIteration], [dl_dataset] is its [dataset] attribute when present. *)
Record Source : Type :=
  { dl_len : option nat;
    dl_batches : list item;
    dl_dataset : option Dataset }.

(** The operations performed on a source, recorded in the order they are
    made. *)
Inductive touch_op : Type :=
| Getattr (name : string)
| Len
| Iter.

Inductive event : Type := Touch (op : touch_op) (s : Source).

Definition traced (A : Type) : Type := (list event * A)%type.

(** What [next] can return: a batch of a source, or, when a collection
    itself is iterated, one of its members or keys. *)
Inductive Batch : Type :=
| BData (b : nat)
| BKey (k : string)
| BObj (t : tree Source).

(** A live iterator over a source, a sequence or the keys of a dict. *)
Inductive raw_iter : Type :=
| ItSrc (rest : list item)
| ItObjs (rest : list (tree Source))
| ItKeys (rest : list string).

(** [iter(x)] *)
Definition py_iter (x : tree Source) : raw_iter :=
  match x with
  | Leaf s => ItSrc (dl_batches s)
  | Seq _ ts => ItObjs ts
  | Map kvs => ItKeys (map fst kvs)
  end.

(** [next(it)] *)
Definition py_next (it : raw_iter) : raw_iter * result Batch :=
  match it with
  | ItSrc [] => (ItSrc [], Err StopIteration)
  | ItSrc (Item b :: rest) => (ItSrc rest, Ok (BData b))
  | ItSrc (Fault c :: rest) => (ItSrc rest, Err (SourceError c))
  | ItObjs [] => (ItObjs [], Err StopIteration)
  | ItObjs (t :: rest) => (ItObjs rest, Ok (BObj t))
  | ItKeys [] => (ItKeys [], Err StopIteration)
  | ItKeys (k :: rest) => (ItKeys rest, Ok (BKey k))
  end.

(** [n >= v] for an [int] [n]. *)
Definition py_ge (n : nat) (v : pyval) : result bool :=
  match v with
  | Leaf (Fin m) => Ok (Nat.leb m n)
  | Leaf Inf => Ok false
  | _ => Err TypeError
  end.

(** ** Traversals of a collection *)

(** Modelled from the spec: [apply_to_collection], the ShapeMap of the
    specification, is imported from
    [pytorch_lightning.utilities.apply_func] and its code is not in
    [supporters.py].  It rebuilds a collection of
    identical shape with every leaf that satisfies the predicate replaced
    by the function's value, recursing into sequences and mappings of any
    depth.  In this embedding a leaf is by construction a value the call
    sites' predicates accept (a source, an iterator, a dataset or [None])
    and a sequence or mapping is never a leaf, so the pass-through and the
    rejected-shape branches have no inhabitant; what remains is the
    recursion, the rebuild and the order of the calls.  This version serves
    the functions that read their argument and records what they do to the
    sources. *)
Fixpoint apply_to_collection {A B} (function : A -> traced B)
    (data : tree A) : traced (tree B) :=
  match data with
  | Leaf a => let (ev, b) := function a in (ev, Leaf b)
  | Seq k ts =>
      let rs := map (apply_to_collection function) ts in
      (concat (map fst rs), Seq k (map snd rs))
  | Map kvs =>
      let rs :=
        map (fun kv => (fst kv, apply_to_collection function (snd kv))) kvs in
      (concat (map (fun r => fst (snd r)) rs),
       Map (map (fun r => (fst r, snd (snd r))) rs))
  end.

Section Mutating.
Variables X Y : Type.
Variable step : X -> X * result Y.

(** Left to right; after the first failure nothing more is called. *)
Fixpoint each_in_turn (l : list X) : list X * result (list Y) :=
  match l with
  | [] => ([], Ok [])
  | x :: l' =>
      match step x with
      | (x', Err e) => (x' :: l', Err e)
      | (x', Ok y) =>
          match each_in_turn l' with
          | (l'', Err e) => (x' :: l'', Err e)
          | (l'', Ok ys) => (x' :: l'', Ok (y :: ys))
          end
      end
  end.
End Mutating.

Definition with_key {X Y} (step : X -> X * result Y)
    (kv : string * X) : (string * X) * result (string * Y) :=
  match step (snd kv) with
  | (x', Err e) => ((fst kv, x'), Err e)
  | (x', Ok y) => ((fst kv, x'), Ok (fst kv, y))
  end.

(** Modelled from the spec: the same [apply_to_collection], for a function
    such as [next] that changes the leaf it is applied to and may raise.
    The leaves are visited in order; an exception leaves the leaves already
    visited changed, stops the traversal and is the outcome of the whole
    call. *)
Fixpoint apply_to_collection_mut {A B} (function : A -> A * result B)
    (data : tree A) : tree A * result (tree B) :=
  match data with
  | Leaf a =>
      match function a with
      | (a', Err e) => (Leaf a', Err e)
      | (a', Ok b) => (Leaf a', Ok (Leaf b))
      end
  | Seq k ts =>
      match each_in_turn (apply_to_collection_mut function) ts with
      | (ts', Err e) => (Seq k ts', Err e)
      | (ts', Ok bs) => (Seq k ts', Ok (Seq k bs))
      end
  | Map kvs =>
      match each_in_turn (with_key (apply_to_collection_mut function)) kvs with
      | (kvs', Err e) => (Map kvs', Err e)
      | (kvs', Ok bs) => (Map kvs', Ok (Map bs))
      end
  end.

(** ** CycleIterator (lines 442-503 of the source) *)

Module CycleIterator.

Record t : Type :=
  { length : pyval;
    loader : tree Source;
    _loader_iter : option raw_iter;
    counter : nat }.

(** [length] is whatever the caller passes; [None] stands for infinite. *)
Definition __init__ (loader : tree Source) (length : option pyval) : t :=
  let length := match length with None => Leaf Inf | Some l => l end in
  {| length := length; loader := loader;
     _loader_iter := None; counter := 0 |}.

Definition __len__ (self : t) : pyval := length self.

(** Resets the counter, creates the internal iterator and returns
    [self]. *)
Definition __iter__ (self : t) : t :=
  {| length := length self; loader := loader self;
     _loader_iter := Some (py_iter (loader self)); counter := 0 |}.

(** The [try] / [except StopIteration] part of [__next__]: the iterator
    it leaves in [_loader_iter] and what it returns or raises. *)
Definition fetch (self : t) : option raw_iter * result Batch :=
  match _loader_iter self with
  | None => (None, Err TypeError)
  | Some it =>
      match py_next it with
      | (_, Err StopIteration) =>
          let (it', r) := py_next (py_iter (loader self)) in (Some it', r)
      | (it', r) => (Some it', r)
      end
  end.

(** The budget check comes before the [try], so the [finally] clause,
    which counts the call whether it returned or raised, does not run when
    the check raises. *)
Definition __next__ (self : t) : t * result Batch :=
  match py_ge (counter self) (__len__ self) with
  | Err e => (self, Err e)
  | Ok true => (self, Err StopIteration)
  | Ok false =>
      let (it, r) := fetch self in
      ({| length := length self; loader := loader self;
          _loader_iter := it; counter := S (counter self) |}, r)
  end.

End CycleIterator.

(** A leaf of a combined loader: a bare source, or a source wrapped for
    cycling. *)
Inductive loader : Type :=
| Bare (s : Source)
| Cycle (c : CycleIterator.t).

(** What [iter] returns on such a leaf: a fresh iterator over a bare
    source, or the [CycleIterator] itself. *)
Inductive iterator : Type :=
| ItRaw (r : raw_iter)
| ItCycle (c : CycleIterator.t).

Definition iter_loader (l : loader) : traced iterator :=
  match l with
  | Bare s => ([Touch Iter s], ItRaw (py_iter (Leaf s)))
  | Cycle c =>
      (map (Touch Iter)
         (match CycleIterator.loader c with Leaf s => [s] | _ => [] end),
       ItCycle (CycleIterator.__iter__ c))
  end.

Definition next_iterator (it : iterator) : iterator * result Batch :=
  match it with
  | ItRaw r => let (r', b) := py_next r in (ItRaw r', b)
  | ItCycle c => let (c', b) := CycleIterator.__next__ c in (ItCycle c', b)
  end.

(** Modelled from the spec: [get_len], the lengthOf of the specification,
    is imported from [pytorch_lightning.utilities.data] and its code is not
    in [supporters.py].  It returns
    the count a source exposes and [float('inf')] when it exposes none, and
    never raises.  A [CycleIterator] exposes its [length] when that is an
    integer. *)
Definition get_len (l : loader) : traced Length :=
  match l with
  | Bare s =>
      ([Touch Len s], match dl_len s with Some n => Fin n | None => Inf end)
  | Cycle c =>
      ([], match CycleIterator.__len__ c with
           | Leaf (Fin n) => Fin n
           | _ => Inf
           end)
  end.

(** Modelled from the spec: the same [get_len] on a dataset or [None]. *)
Definition get_len_dataset (d : option Dataset) : traced Length :=
  ([], match d with
       | Some {| ds_len := Some n |} => Fin n
       | _ => Inf
       end).

(** [getattr(loader, 'dataset', None)] *)
Definition getattr_dataset (s : Source) : traced (option Dataset) :=
  ([Touch (Getattr "dataset") s], dl_dataset s).

(** ** CombinedDataset (lines 506-575) *)

Module CombinedDataset.

(** The dict [{'min_size': min, 'max_size_cycle': max}]. *)
Definition COMPUTE_FUNCS (mode : string)
    : option (list pyval -> result pyval) :=
  if String.eqb mode "min_size" then Some py_min
  else if String.eqb mode "max_size_cycle" then Some py_max
  else None.

Record t : Type :=
  { datasets : tree (option Dataset);
    mode : string }.

Definition __init__ (datasets : tree (option Dataset)) (mode : string)
    : result t :=
  match COMPUTE_FUNCS mode with
  | None => Err MisconfigurationException
  | Some _ => Ok {| datasets := datasets; mode := mode |}
  end.

(** A number is returned as it is; of a mapping the values, and of a
    sequence the members, are handed to [min] or [max]. *)
Definition _calc_num_data (datasets : tree (option Dataset))
    (mode : string) : result pyval :=
  match COMPUTE_FUNCS mode with
  | None => Err MisconfigurationException
  | Some compute_func =>
      let all_lengths :=
        snd (apply_to_collection get_len_dataset datasets) in
      match all_lengths with
      | Leaf l => Ok (Leaf l)
      | Map kvs => compute_func (map snd kvs)
      | Seq _ ts => compute_func ts
      end
  end.

Definition max_len (self : t) : result pyval :=
  _calc_num_data (datasets self) "max_size_cycle".

Definition min_len (self : t) : result pyval :=
  _calc_num_data (datasets self) "min_size".

Definition __len__ (self : t) : result pyval :=
  _calc_num_data (datasets self) (mode self).

End CombinedDataset.

(** ** CombinedLoaderIterator (lines 707-773) *)

Module CombinedLoaderIterator.

Record t : Type :=
  { loaders : tree loader;
    _loader_iters : option (tree iterator) }.

Definition __init__ (loaders : tree loader) : t :=
  {| loaders := loaders; _loader_iters := None |}.

Definition create_loader_iters (loaders : tree loader)
    : traced (tree iterator) :=
  apply_to_collection iter_loader loaders.

(** The property [loader_iters]: the iterators are created on first use
    and kept. *)
Definition loader_iters (self : t) : t * tree iterator :=
  match _loader_iters self with
  | None =>
      let its := snd (create_loader_iters (loaders self)) in
      ({| loaders := loaders self; _loader_iters := Some its |}, its)
  | Some its => (self, its)
  end.

Definition request_next_batch (loader_iters : tree iterator)
    : tree iterator * result (tree Batch) :=
  apply_to_collection_mut next_iterator loader_iters.

(** The iterators are objects: what [next] did to them stays done,
    whether the call returned or raised. *)
Definition __next__ (self : t) : t * result (tree Batch) :=
  let (self', its) := loader_iters self in
  let (its', r) := request_next_batch its in
  ({| loaders := loaders self'; _loader_iters := Some its' |}, r).

End CombinedLoaderIterator.

(** ** CombinedLoader (lines 578-704) *)

Module CombinedLoader.

Definition SUPPORTED_MODES : list string := ["min_size"; "max_size_cycle"].

Record t : Type :=
  { loaders : tree loader;
    dataset : CombinedDataset.t;
    mode : string }.

(** [self.loaders] still holds the bare sources when this runs.  Only the
    members of the outermost sequence or mapping are wrapped, each with
    the value [max] returned as its [length]. *)
Definition _wrap_loaders_max_size_cycle (loaders : tree Source)
    : traced (result (tree loader)) :=
  let (ev, all_lengths) :=
    apply_to_collection get_len (tmap Bare loaders) in
  let length :=
    match all_lengths with
    | Leaf l => Ok (Leaf l)
    | Map kvs => py_max (map snd kvs)
    | Seq _ ts => py_max ts
    end in
  (ev,
   match length with
   | Err e => Err e
   | Ok length =>
       match loaders with
       | Map kvs =>
           Ok (Map (map (fun kv =>
                           (fst kv,
                            Leaf (Cycle (CycleIterator.__init__ (snd kv)
                                           (Some length))))) kvs))
       | Seq k vs =>
           Ok (Seq k (map (fun v =>
                             Leaf (Cycle (CycleIterator.__init__ v
                                            (Some length)))) vs))
       | Leaf s => Ok (Leaf (Bare s))
       end
   end).

(** The datasets are collected first; the constructor of
    [CombinedDataset] then checks the mode, the constructor's own check
    comes after it, and the loaders are wrapped last. *)
Definition __init__ (loaders : tree Source) (mode : string)
    : traced (result t) :=
  let (ev, datasets) := apply_to_collection getattr_dataset loaders in
  match CombinedDataset.__init__ datasets mode with
  | Err e => (ev, Err e)
  | Ok dataset =>
      if negb (existsb (String.eqb mode) SUPPORTED_MODES) then
        (ev, Err MisconfigurationException)
      else if String.eqb mode "max_size_cycle" then
        let (ev', r) := _wrap_loaders_max_size_cycle loaders in
        (ev ++ ev',
         match r with
         | Err e => Err e
         | Ok wrapped =>
             Ok {| loaders := wrapped; dataset := dataset; mode := mode |}
         end)
      else
        (ev, Ok {| loaders := tmap Bare loaders;
                   dataset := dataset; mode := mode |})
  end.

Definition _calc_num_batches (loaders : tree loader)
    : traced (result pyval) :=
  let (ev, all_lengths) := apply_to_collection get_len loaders in
  (ev,
   match all_lengths with
   | Leaf l => Ok (Leaf l)
   | Map kvs => py_min (map snd kvs)
   | Seq _ ts => py_min ts
   end).

Definition __len__ (self : t) : traced (result pyval) :=
  _calc_num_batches (loaders self).

Definition __iter__ (self : t) : CombinedLoaderIterator.t :=
  CombinedLoaderIterator.__init__ (loaders self).

End CombinedLoader.

(** ** Driving an iterator *)

(** How a [for] loop over an iterator ends. *)
Inductive loop_end : Type :=
| Exhausted
| Raised (e : exn)
| Unfinished.

Section Driving.
Variables St B : Type.
Variable next : St -> St * result B.

(** [n] successive calls of [next] and what each returned or raised. *)
Fixpoint calls (n : nat) (s : St) : St * list (result B) :=
  match n with
  | 0 => (s, [])
  | S n' =>
      let (s', r) := next s in
      let (s'', rs) := calls n' s' in
      (s'', r :: rs)
  end.

(** [for item in it: ...]: the items received until [StopIteration] ends
    the loop or another exception leaves it; [fuel] bounds the number of
    calls of [next]. *)
Fixpoint for_loop (fuel : nat) (s : St) : list B * loop_end :=
  match fuel with
  | 0 => ([], Unfinished)
  | S fuel' =>
      match next s with
      | (_, Err StopIteration) => ([], Exhausted)
      | (_, Err e) => ([], Raised e)
      | (s', Ok b) =>
          let (bs, e) := for_loop fuel' s' in (b :: bs, e)
      end
  end.
End Driving.

Definition successes {B} (rs : list (result B)) : nat :=
  List.length (filter is_ok rs).

(** ** Vocabulary of the statements *)

Definition is_item (i : item) : bool :=
  match i with Item _ => true | Fault _ => false end.

(** A source that yields exactly its declared number of batches and does
    not fail. *)
Definition faithful (s : Source) : bool :=
  forallb is_item (dl_batches s) &&
  match dl_len s with
  | Some n => Nat.eqb n (List.length (dl_batches s))
  | None => false
  end.

Definition size (s : Source) : nat := List.length (dl_batches s).

Definition sizes (t : tree Source) : list nat := map size (leaves t).

(** The [i]-th batch of a fresh pass over [s]. *)
Definition batch_at (s : Source) (i : nat) : Batch :=
  match nth i (dl_batches s) (Item 0) with
  | Item b => BData b
  | Fault c => BData c
  end.

Definition is_min (m : nat) (ns : list nat) : Prop :=
  In m ns /\ Forall (fun n => m <= n) ns.

Definition is_max (m : nat) (ns : list nat) : Prop :=
  In m ns /\ Forall (fun n => n <= m) ns.

(** The declared length of a source: its count, or unbounded. *)
Definition declared (s : Source) : Length :=
  match dl_len s with Some n => Fin n | None => Inf end.

Definition declared_dataset (d : option Dataset) : Length :=
  snd (get_len_dataset d).

Definition Length_le (a b : Length) : Prop :=
  match a, b with
  | _, Inf => True
  | Fin x, Fin y => x <= y
  | Inf, Fin _ => False
  end.

Definition is_least (m : Length) (ls : list Length) : Prop :=
  In m ls /\ Forall (fun l => Length_le m l) ls.

Definition is_greatest (m : Length) (ls : list Length) : Prop :=
  In m ls /\ Forall (fun l => Length_le l m) ls.

(** What a call of [next] on the iterator of one leaf returns or raises. *)
Definition pull (it : iterator) : result Batch := snd (next_iterator it).

(** The first failure in a row of outcomes, if any. *)
Fixpoint first_failure {B} (rs : list (result B)) : option exn :=
  match rs with
  | [] => None
  | Ok _ :: rs' => first_failure rs'
  | Err e :: _ => Some e
  end.

(** A [CycleIterator] after a call of [__next__] that went past the budget
    check and left [it] in [_loader_iter]. *)
Definition stepped (c : CycleIterator.t) (it : raw_iter) : CycleIterator.t :=
  {| CycleIterator.length := CycleIterator.length c;
     CycleIterator.loader := CycleIterator.loader c;
     CycleIterator._loader_iter := Some it;
     CycleIterator.counter := S (CycleIterator.counter c) |}.

(** The budget check of [__next__] lets the call through. *)
Definition budget_open (c : CycleIterator.t) : Prop :=
  py_ge (CycleIterator.counter c) (CycleIterator.__len__ c) = Ok false.

(** How far into the current pass a cycled source is after [k] calls. *)
Definition into_pass (n k : nat) : nat :=
  match k with 0 => 0 | S j => S (j mod n) end.

(** The iterator over a bare source after [k] batches, and the
    [CycleIterator] of budget [l] over a source after [k] calls. *)
Definition bare_at (k : nat) (s : Source) : iterator :=
  ItRaw (ItSrc (skipn k (dl_batches s))).

Definition cycle_state (l : Length) (k : nat) (s : Source)
    : CycleIterator.t :=
  {| CycleIterator.length := Leaf l;
     CycleIterator.loader := Leaf s;
     CycleIterator._loader_iter :=
       Some (ItSrc (skipn (into_pass (size s) k) (dl_batches s)));
     CycleIterator.counter := k |}.

Definition cycled_at (l : Length) (k : nat) (s : Source) : iterator :=
  ItCycle (cycle_state l k s).

(** A session whose iterators exist. *)
Definition session (ld : tree loader) (its : tree iterator)
    : CombinedLoaderIterator.t :=
  {| CombinedLoaderIterator.loaders := ld;
     CombinedLoaderIterator._loader_iters := Some its |}.

(** Sources to run the statements on: a faithful source over the given
    batches. *)
Definition source_of (bs : list nat) : Source :=
  {| dl_len := Some (List.length bs);
     dl_batches := map Item bs;
     dl_dataset := Some {| ds_len := Some (List.length bs) |} |}.

Definition three : Source := source_of [10; 11; 12].
Definition seven : Source := source_of [20; 21; 22; 23; 24; 25; 26].
Definition nothing : Source := source_of [].

(** Two containers: the two sources side by side, and the same list put
    inside another list. *)
Definition side_by_side : tree Source :=
  Seq PyList [Leaf three; Leaf seven].

Definition nested : tree Source :=
  Seq PyList [Seq PyList [Leaf three; Leaf seven]].

(** A container with an empty source in it. *)
Definition with_empty : tree Source :=
  Seq PyList [Leaf nothing; Leaf three].

(** A source whose second pull fails. *)
Definition faulty : Source :=
  {| dl_len := Some 2;
     dl_batches := [Item 1; Fault 9];
     dl_dataset := None |}.

(** The combined loader that ['max_size_cycle'] builds over the two
    sources side by side. *)
Definition cycled_pair : CombinedLoader.t :=
  {| CombinedLoader.loaders :=
       tmap (fun s => Cycle (CycleIterator.__init__ (Leaf s)
                               (Some (Leaf (Fin 7))))) side_by_side;
     CombinedLoader.dataset :=
       {| CombinedDataset.datasets := tmap dl_dataset side_by_side;
          CombinedDataset.mode := "max_size_cycle" |};
     CombinedLoader.mode := "max_size_cycle" |}.

(** The loaders of the example in the docstring of [CombinedLoader]. *)
Definition docstring_loaders : tree Source :=
  Map [("a", Leaf (source_of [0; 1])); ("b", Leaf (source_of [10; 11; 12]))].

(** The mode strings. *)
Definition min_size : string := "min_size".
Definition max_size_cycle : string := "max_size_cycle".

(** What [n] successive calls of [next] return or raise on a fresh
    iterator over one leaf of a combined loader, taken by itself. *)
Definition alone (l : loader) (n : nat) : list (result Batch) :=
  snd (calls next_iterator n (snd (iter_loader l))).

(** The leaf [l] of a combined loader is the source [s], bare or wrapped
    in the [CycleIterator] constructed over it. *)
Definition holds_source (s : Source) (l : loader) : Prop :=
  l = Bare s \/
  exists length, l = Cycle (CycleIterator.__init__ (Leaf s) length).

(** The batch of a call that returned. *)
Definition batch_of (r : result Batch) : Batch :=
  match r with Ok b => b | Err _ => BData 0 end.

(** A source that declares 7 batches and gives three. *)
Definition overstated : Source :=
  {| dl_len := Some 7;
     dl_batches := [Item 1; Item 2; Item 3];
     dl_dataset := None |}.

(** Datasets more than one level deep: a list of 12 and 28 samples and a
    list of 13 samples, in a list. *)
Definition nested_datasets : tree (option Dataset) :=
  Seq PyList
    [Seq PyList [Leaf (Some {| ds_len := Some 12 |});
                 Leaf (Some {| ds_len := Some 28 |})];
     Seq PyList [Leaf (Some {| ds_len := Some 13 |})]].

(** ** Further vocabulary *)

(** A source whose iterators never fail, whether or not it declares a
    length. *)
Definition steady (s : Source) : bool := forallb is_item (dl_batches s).

(** A source without [__len__], of two batches a pass. *)
Definition endless : Source :=
  {| dl_len := None;
     dl_batches := [Item 1; Item 2];
     dl_dataset := None |}.

(** What a left-to-right pass of a function over a row of leaves leaves
    behind: every leaf as its call left it, up to and including the first
    whose call raised, and the leaves after that one untouched. *)
Fixpoint visited {A B} (f : A -> A * result B) (l : list A) : list A :=
  match l with
  | [] => []
  | a :: l' =>
      match f a with
      | (a', Ok _) => a' :: visited f l'
      | (a', Err _) => a' :: l'
      end
  end.

(** ** Exceptions and outcomes of the other classes *)

Inductive error : Type :=
| E_IndexError
| E_ZeroDivisionError
| E_KeyError
| E_AttributeError
| E_TypeError
| E_ValueError
| E_AssertionError
| E_RuntimeError
| E_MisconfigurationException.

Inductive outcome (A : Type) : Type :=
| Returns (a : A)
| Raises (e : error).
Arguments Returns {A} a.
Arguments Raises {A} e.

(** [l[i] = x] on a tensor or a list: [None] stands for the [IndexError]
    of an index past the end. *)
Fixpoint setitem {A} (l : list A) (i : nat) (x : A) : option (list A) :=
  match l, i with
  | [], _ => None
  | _ :: l', 0 => Some (x :: l')
  | a :: l', S i' =>
      match setitem l' i' x with
      | Some l'' => Some (a :: l'')
      | None => None
      end
  end.

(** ** TensorRunningAccum (lines 33-108) *)

Module TensorRunningAccum.
Section Accum.

(** A tensor of the shape of the elements, and the result of an
    aggregation. *)
Variables T R : Type.

(** One row of [torch.zeros(window_length, *x.shape)]. *)
Variable zeros : T.

(** [x] as it is stored: itself, or [x.to(self.memory)] when its device or
    type is not that of the memory. *)
Variable to_memory : T -> T.

(** [getattr(tensor, how)()] on a tensor given by its rows. *)
Variable agg : string -> list T -> R.

Record t : Type :=
  { window_length : nat;
    memory : option (list T);
    current_idx : nat;
    last_idx : option nat;
    rotated : bool }.

Definition __init__ (window_length : nat) : t :=
  {| window_length := window_length;
     memory := None;
     current_idx := 0;
     last_idx := None;
     rotated := false |}.

Definition reset (self : t) : t := __init__ (window_length self).

Definition last (self : t) : outcome (option T) :=
  match last_idx self with
  | None => Returns None
  | Some i =>
      match memory self with
      | None => Raises E_TypeError
      | Some m =>
          match nth_error m i with
          | Some x => Returns (Some x)
          | None => Raises E_IndexError
          end
      end
  end.

(** The memory is allocated by the first call.  The assignment
    [self.memory[self.current_idx] = x] raises [IndexError] past the end of
    the memory, and [% self.window_length] raises [ZeroDivisionError] on a
    zero window, after the index has been increased. *)
Definition append (self : t) (x : T) : t * outcome unit :=
  let memory :=
    match memory self with
    | None => repeat zeros (window_length self)
    | Some m => m
    end in
  let x := to_memory x in
  match setitem memory (current_idx self) x with
  | None =>
      ({| window_length := window_length self;
          memory := Some memory;
          current_idx := current_idx self;
          last_idx := last_idx self;
          rotated := rotated self |}, Raises E_IndexError)
  | Some memory =>
      let last_idx := Some (current_idx self) in
      let current_idx := S (current_idx self) in
      match window_length self with
      | 0 =>
          ({| window_length := window_length self;
              memory := Some memory;
              current_idx := current_idx;
              last_idx := last_idx;
              rotated := rotated self |}, Raises E_ZeroDivisionError)
      | S _ =>
          let current_idx := current_idx mod window_length self in
          ({| window_length := window_length self;
              memory := Some memory;
              current_idx := current_idx;
              last_idx := last_idx;
              rotated :=
                if Nat.eqb current_idx 0 then true else rotated self |},
           Returns tt)
      end
  end.

Definition _agg_memory (self : t) (how : string) : outcome (option R) :=
  match last_idx self with
  | None => Returns None
  | Some _ =>
      match memory self with
      | None => if rotated self then Raises E_AttributeError
                else Raises E_TypeError
      | Some m =>
          if rotated self then Returns (Some (agg how m))
          else Returns (Some (agg how (firstn (current_idx self) m)))
      end
  end.

Definition mean (self : t) : outcome (option R) := _agg_memory self "mean".
Definition max (self : t) : outcome (option R) := _agg_memory self "max".
Definition min (self : t) : outcome (option R) := _agg_memory self "min".

(** Successive calls of [append], up to the first that raises. *)
Fixpoint appends (self : t) (xs : list T) : t * outcome unit :=
  match xs with
  | [] => (self, Returns tt)
  | x :: xs' =>
      match append self x with
      | (self', Returns _) => appends self' xs'
      | (self', Raises e) => (self', Raises e)
      end
  end.

End Accum.
End TensorRunningAccum.

(** Aggregations to run the accumulator on, with numbers for tensors. *)
Definition number_agg (how : string) (l : list nat) : nat :=
  if String.eqb how "max" then list_max l
  else if String.eqb how "min" then fold_right Nat.min (hd 0 l) l
  else list_sum l / List.length l.

(** The accumulator of the class docstring, [TensorRunningAccum(5)], after
    [append] of the numbers 0 to 12. *)
Definition docstring_accum : TensorRunningAccum.t nat :=
  fst (TensorRunningAccum.appends 0 (fun x => x)
         (TensorRunningAccum.__init__ nat 5) (seq 0 13)).

(** ** Accumulator (lines 111-122) *)

Module Accumulator.
Section Accum.

(** What is accumulated: numbers or tensors. *)
Variable T : Type.

(** The [int] 0 that [total] starts from, [total + x], and
    [total / num_values] with its [ZeroDivisionError]. *)
Variable zero : T.
Variable add : T -> T -> T.
Variable div : T -> nat -> outcome T.

Record t : Type :=
  { num_values : nat;
    total : T }.

Definition __init__ : t := {| num_values := 0; total := zero |}.

Definition accumulate (self : t) (x : T) : t :=
  {| num_values := S (num_values self); total := add (total self) x |}.

Definition mean (self : t) : outcome T :=
  div (total self) (num_values self).

End Accum.
End Accumulator.

(** ** LightningBatchSamplerWrapper (lines 125-198) *)

(** The values that attributes and keyword arguments take: [None], a
    number, a truth value, the wrapper around a batch sampler, or any
    other object. *)
Inductive value : Type :=
| V_None
| V_Int (n : nat)
| V_Bool (b : bool)
| V_Wrapper (batch_sampler : value)
| V_Obj (id : nat).

(** A [dict] with string keys: [d[k] = v] replaces the value of a key
    that is present and adds the key otherwise; [del d[k]] is [None], for
    [KeyError], when the key is absent. *)
Fixpoint dict_set {V} (k : string) (v : V) (d : list (string * V))
    : list (string * V) :=
  match d with
  | [] => [(k, v)]
  | (k', v') :: d' =>
      if String.eqb k k' then (k, v) :: d' else (k', v') :: dict_set k v d'
  end.

Fixpoint dict_del {V} (k : string) (d : list (string * V))
    : option (list (string * V)) :=
  match d with
  | [] => None
  | (k', v') :: d' =>
      if String.eqb k k' then Some d'
      else match dict_del k d' with
           | Some d'' => Some ((k', v') :: d'')
           | None => None
           end
  end.

(** [d.update(other)] *)
Definition dict_update {V} (d other : list (string * V))
    : list (string * V) :=
  fold_left (fun acc kv => dict_set (fst kv) (snd kv) acc) other d.

Definition has_key {V} (k : string) (d : list (string * V)) : bool :=
  match assoc k d with Some _ => true | None => false end.

Definition mem (k : string) (l : list string) : bool :=
  existsb (String.eqb k) l.

(** [k.startswith("_")] *)
Definition private (k : string) : bool := String.prefix "_" k.

Module LightningBatchSamplerWrapper.

Definition SKIP_KEYS : list string :=
  ["sampler"; "batch_sampler"; "dataset_kind"].
Definition SKIP_VALID_KEYS : list string := ["args"; "kwargs"; "self"].

(** The wrapper around a batch sampler that yields the given batches of
    indices on every pass. *)
Record t : Type :=
  { batch_sampler : list (list nat);
    batch_indices : option (list nat) }.

Definition __init__ (batch_sampler : list (list nat)) : t :=
  {| batch_sampler := batch_sampler; batch_indices := None |}.

(** The generator that [__iter__] returns: not started, or inside its
    [for] loop with the rest of the sampler's batches to go. *)
Definition generator : Type := option (list (list nat)).

Definition __iter__ (self : t) : generator := None.

(** [next] on the generator.  It shares the wrapper with its caller: the
    assignment to [self.batch_indices] is made on the wrapper itself. *)
Definition gen_next (st : t * generator)
    : (t * generator) * result (list nat) :=
  let (self, gen) := st in
  let rest :=
    match gen with
    | None => batch_sampler self
    | Some rest => rest
    end in
  match rest with
  | [] => ((self, Some []), Err StopIteration)
  | batch :: rest' =>
      (({| batch_sampler := batch_sampler self;
           batch_indices := Some batch |}, Some rest'), Ok batch)
  end.

(** What [recreate_dataloader] is given: whether the object is a
    [DataLoader] and of that very class, whether its dataset is an
    [IterableDataset], its instance attributes [vars(dataloader)], the
    parameters of its bound [__init__], and its attributes
    [multiprocessing_context] and [batch_sampler]. *)
Record loader_object : Type :=
  { is_DataLoader : bool;
    exactly_DataLoader : bool;
    dataset_is_iterable : bool;
    vars : list (string * value);
    init_params : list string;
    multiprocessing_context : value;
    the_batch_sampler : value }.

(** What it returns: the dataloader it was given, or the object made by
    calling the class of the dataloader with these keyword arguments, on
    which [multiprocessing_context] is then set. *)
Inductive recreated : Type :=
| Same
| Rebuilt (kwargs : list (string * value)) (multiprocessing_context : value).

(** The parameters overridden to inject the batch sampler. *)
Definition overrides (dataloader : loader_object) : list (string * value) :=
  [("batch_size", V_Int 1);
   ("sampler", V_None);
   ("shuffle", V_None);
   ("batch_sampler", V_Wrapper (the_batch_sampler dataloader));
   ("drop_last", V_Bool false);
   ("multiprocessing_context", multiprocessing_context dataloader)].

(** [DataLoader_params] stands for
    [inspect.signature(DataLoader.__init__).parameters], which belongs to
    torch. *)
Definition recreate_dataloader (DataLoader_params : list string)
    (dataloader : loader_object) : outcome recreated :=
  if negb (is_DataLoader dataloader) then
    Raises E_MisconfigurationException
  else if dataset_is_iterable dataloader then Returns Same
  else
    let params :=
      filter (fun kv => negb (private (fst kv))) (vars dataloader) in
    let valid_kwargs := init_params dataloader in
    let contains_dataset :=
      if exactly_DataLoader dataloader then true
      else mem "dataset" valid_kwargs in
    let valid_kwargs :=
      if exactly_DataLoader dataloader then valid_kwargs
      else valid_kwargs ++ DataLoader_params in
    let dl_args :=
      fold_left
        (fun acc name =>
           match assoc name params with
           | Some v =>
               if mem name SKIP_KEYS then acc else dict_set name v acc
           | None => acc
           end) valid_kwargs [] in
    let dl_args := dict_update dl_args (overrides dataloader) in
    let missing_kwargs :=
      filter (fun name => negb (mem name SKIP_VALID_KEYS) &&
                          negb (has_key name dl_args)) valid_kwargs in
    match missing_kwargs with
    | _ :: _ => Returns Same
    | [] =>
        if contains_dataset then
          Returns (Rebuilt dl_args (multiprocessing_context dataloader))
        else
          match dict_del "dataset" dl_args with
          | None => Raises E_KeyError
          | Some dl_args =>
              Returns (Rebuilt dl_args (multiprocessing_context dataloader))
          end
    end.

End LightningBatchSamplerWrapper.

(** The parameters of [DataLoader.__init__] and the instance attributes of
    a [DataLoader], as torch 1.7 has them, for the examples. *)
Definition torch_signature : list string :=
  ["self"; "dataset"; "batch_size"; "shuffle"; "sampler"; "batch_sampler";
   "num_workers"; "collate_fn"; "pin_memory"; "drop_last"; "timeout";
   "worker_init_fn"; "multiprocessing_context"; "generator";
   "prefetch_factor"; "persistent_workers"].

Definition torch_attributes : list (string * value) :=
  [("dataset", V_Obj 0); ("num_workers", V_Int 2);
   ("prefetch_factor", V_Int 2); ("pin_memory", V_Bool false);
   ("timeout", V_Int 0); ("worker_init_fn", V_None);
   ("_DataLoader__multiprocessing_context", V_None);
   ("_dataset_kind", V_Int 0); ("batch_size", V_Int 4);
   ("drop_last", V_Bool true); ("sampler", V_Obj 1);
   ("batch_sampler", V_Obj 2); ("generator", V_None);
   ("collate_fn", V_Obj 3); ("persistent_workers", V_Bool false);
   ("_DataLoader__initialized", V_Bool true);
   ("_IterableDataset_len_called", V_None)].

(** A [DataLoader] itself. *)
Definition plain_dataloader : LightningBatchSamplerWrapper.loader_object :=
  {| LightningBatchSamplerWrapper.is_DataLoader := true;
     LightningBatchSamplerWrapper.exactly_DataLoader := true;
     LightningBatchSamplerWrapper.dataset_is_iterable := false;
     LightningBatchSamplerWrapper.vars := torch_attributes;
     LightningBatchSamplerWrapper.init_params := torch_signature;
     LightningBatchSamplerWrapper.multiprocessing_context := V_None;
     LightningBatchSamplerWrapper.the_batch_sampler := V_Obj 2 |}.

(** A subclass with [def __init__(self, *args, **kwargs)]. *)
Definition forwarding_dataloader
    : LightningBatchSamplerWrapper.loader_object :=
  {| LightningBatchSamplerWrapper.is_DataLoader := true;
     LightningBatchSamplerWrapper.exactly_DataLoader := false;
     LightningBatchSamplerWrapper.dataset_is_iterable := false;
     LightningBatchSamplerWrapper.vars := torch_attributes;
     LightningBatchSamplerWrapper.init_params := ["self"; "args"; "kwargs"];
     LightningBatchSamplerWrapper.multiprocessing_context := V_None;
     LightningBatchSamplerWrapper.the_batch_sampler := V_Obj 2 |}.

(** A subclass with [def __init__(self, dataset, scale, **kwargs)] that
    does not keep [scale] as an attribute. *)
Definition forgetful_dataloader
    : LightningBatchSamplerWrapper.loader_object :=
  {| LightningBatchSamplerWrapper.is_DataLoader := true;
     LightningBatchSamplerWrapper.exactly_DataLoader := false;
     LightningBatchSamplerWrapper.dataset_is_iterable := false;
     LightningBatchSamplerWrapper.vars := torch_attributes;
     LightningBatchSamplerWrapper.init_params :=
       ["self"; "dataset"; "scale"; "kwargs"];
     LightningBatchSamplerWrapper.multiprocessing_context := V_None;
     LightningBatchSamplerWrapper.the_batch_sampler := V_Obj 2 |}.

(** * PredictionCollection *)

(** A [dict] whose keys are compared by [eqb]: [d.get(k)] and [d[k] = v],
    which keeps the place of a key that is present and adds a new key at
    the end. *)
Fixpoint dict_get {K V} (eqb : K -> K -> bool) (k : K) (d : list (K * V))
    : option V :=
  match d with
  | [] => None
  | (k', v) :: d' => if eqb k k' then Some v else dict_get eqb k d'
  end.

Fixpoint dict_put {K V} (eqb : K -> K -> bool) (k : K) (v : V)
    (d : list (K * V)) : list (K * V) :=
  match d with
  | [] => [(k, v)]
  | (k', v') :: d' =>
      if eqb k k' then (k, v) :: d' else (k', v') :: dict_put eqb k v d'
  end.

(** A [for] loop whose body changes a state and may raise: the loop stops
    at the first exception, with the state as the body left it. *)
Fixpoint for_each {S A} (body : A -> S -> S * outcome unit) (l : list A)
    (s : S) : S * outcome unit :=
  match l with
  | [] => (s, Returns tt)
  | a :: l' =>
      match body a s with
      | (s', Returns _) => for_each body l' s'
      | (s', Raises e) => (s', Raises e)
      end
  end.

(** [next] on every iterator of [zip]: [None] as soon as one of them is
    exhausted. *)
Fixpoint heads {A} (its : list (list A)) : option (list A * list (list A)) :=
  match its with
  | [] => Some ([], [])
  | it :: its' =>
      match it with
      | [] => None
      | x :: it' =>
          match heads its' with
          | Some (xs, rest) => Some (x :: xs, it' :: rest)
          | None => None
          end
      end
  end.

Fixpoint zip_rows {A} (fuel : nat) (its : list (list A)) : list (list A) :=
  match fuel with
  | 0 => []
  | S fuel' =>
      match heads its with
      | Some (row, rest) => row :: zip_rows fuel' rest
      | None => []
      end
  end.

(** [zip] over the unpacked columns: the tuples of the i-th elements, as
    many as the shortest column has; none when there is no column. *)
Definition zip_star {A} (columns : list (list A)) : list (list A) :=
  match columns with
  | [] => []
  | c :: _ => zip_rows (List.length c) columns
  end.

Module PredictionCollection.

Section Collection.

(** What belongs to other modules and to torch: the members of the enum
    [LoggerStages] and the equality of stages as keys of a dict, sample
    ids (the [int]s and [float]s) with their equality as keys of a dict,
    tensors of one dimension or more with [tolist] and with [torch.cat],
    which fails on tensors whose shapes do not fit, the elements of the
    columns of the legacy API, and the functions on paths that [to_disk]
    calls: [get_filesystem(p).protocol], [os.path.realpath],
    [os.path.splitext] and [os.path.split(p)[0]]. *)
Variable Stage : Type.
Variable Stage_eqb : Stage -> Stage -> bool.
Variable LoggerStages : list Stage.
Variable Id : Type.
Variable Id_eqb : Id -> Id -> bool.
Variable Tensor : Type.
Variable E : Type.
Variable tolist : Tensor -> list E.
Variable cat : Tensor -> Tensor -> option Tensor.
Variable protocol : string -> string.
Variable realpath : string -> string.
Variable splitext : string -> string * string.
Variable dirname : string -> string.

(** A prediction, or a part of one: a number, a tensor, a list or a
    dict with string keys. *)
Inductive obj : Type :=
| O_Num (n : Id)
| O_Tensor (t : Tensor)
| O_List (l : list obj)
| O_Dict (d : list (string * obj)).

(** [apply_to_collection(value, torch.Tensor, _convert)], which turns the
    tensors inside a prediction into lists. *)
Variable convert : obj -> obj.

(** The [predictions] handed to [append]: [None], a list, a tuple, or a
    tensor, which iterates over its rows. *)
Inductive batch : Type :=
| B_None
| B_List (l : list obj)
| B_Tuple (l : list obj)
| B_Tensor (rows : list Tensor).

(** The [values] of a column of the legacy API: a tensor, a list, which is
    an object of the caller's at an address of the memory of lists, a
    tuple, or a number. *)
Inductive column : Type :=
| C_Tensor (t : Tensor)
| C_List (address : nat)
| C_Tuple (l : list E)
| C_Number.

Definition memory : Type := nat -> list E.

(** [m[address].extend(l)] *)
Definition extend (m : memory) (address : nat) (l : list E) : memory :=
  fun a => if Nat.eqb a address then m a ++ l else m a.

Definition cache : Type := list (nat * list (Id * obj)).

(** [all_gather_fn] is left out: only [all_gather_predictions] calls it.
    [current_stage] is no attribute until [append] or
    [should_finalize_predictions] sets it. *)
Record t : Type :=
  { global_rank : nat;
    world_size : nat;
    _legacy_predictions : list (string * list (string * column));
    _predictions : list (Stage * cache);
    current_stage : option Stage }.

Definition ID_KEY : string := "id".

Definition __init__ (global_rank world_size : nat) : t :=
  {| global_rank := global_rank;
     world_size := world_size;
     _legacy_predictions := [];
     _predictions := map (fun stage => (stage, [])) LoggerStages;
     current_stage := None |}.

Definition set_current_stage (self : t) (stage : Stage) : t :=
  {| global_rank := global_rank self;
     world_size := world_size self;
     _legacy_predictions := _legacy_predictions self;
     _predictions := _predictions self;
     current_stage := Some stage |}.

Definition set_predictions (self : t) (p : list (Stage * cache)) : t :=
  {| global_rank := global_rank self;
     world_size := world_size self;
     _legacy_predictions := _legacy_predictions self;
     _predictions := p;
     current_stage := current_stage self |}.

Definition set_legacy (self : t)
    (p : list (string * list (string * column))) : t :=
  {| global_rank := global_rank self;
     world_size := world_size self;
     _legacy_predictions := p;
     _predictions := _predictions self;
     current_stage := current_stage self |}.

(** The property [predictions]: [self._predictions[self.current_stage]]. *)
Definition predictions (self : t) : outcome cache :=
  match current_stage self with
  | None => Raises E_AttributeError
  | Some stage =>
      match dict_get Stage_eqb stage (_predictions self) with
      | Some c => Returns c
      | None => Raises E_KeyError
      end
  end.

(** What iterating over [predictions] gives; [None] is not iterable. *)
Definition items (predictions : batch) : option (list obj) :=
  match predictions with
  | B_None => None
  | B_List l | B_Tuple l => Some l
  | B_Tensor rows => Some (map O_Tensor rows)
  end.

(** The id of one prediction in [_append_prediction].  Without auto ids,
    [ID_KEY in pred] is the key test on a dict, is false on a list of
    these objects, and raises on a tensor and on a number. *)
Definition sample_id_of (enable_predict_auto_id : bool)
    (batch_indices : option (list Id)) (batch_idx : nat) (pred : obj)
    : outcome Id :=
  if enable_predict_auto_id then
    match batch_indices with
    | None => Raises E_TypeError
    | Some indices =>
        match nth_error indices batch_idx with
        | Some sample_id => Returns sample_id
        | None => Raises E_IndexError
        end
    end
  else
    match pred with
    | O_Dict d =>
        match assoc ID_KEY d with
        | Some (O_Num sample_id) => Returns sample_id
        | Some _ => Raises E_MisconfigurationException
        | None => Raises E_MisconfigurationException
        end
    | O_List _ => Raises E_MisconfigurationException
    | O_Tensor _ => Raises E_RuntimeError
    | O_Num _ => Raises E_TypeError
    end.

(** The body of the loop of [_append_prediction] on [cache[dl_idx]]. *)
Definition store_prediction (enable_predict_auto_id : bool)
    (batch_indices : option (list Id)) (entry : nat * obj)
    (samples : list (Id * obj)) : list (Id * obj) * outcome unit :=
  let (batch_idx, pred) := entry in
  match sample_id_of enable_predict_auto_id batch_indices batch_idx pred with
  | Raises e => (samples, Raises e)
  | Returns sample_id =>
      match dict_get Id_eqb sample_id samples with
      | Some _ => (samples, Raises E_MisconfigurationException)
      | None =>
          let value :=
            if enable_predict_auto_id
            then O_Dict [(ID_KEY, O_Num sample_id); ("predictions", pred)]
            else pred in
          (dict_put Id_eqb sample_id (convert value) samples, Returns tt)
      end
  end.

(** [enumerate(l)] *)
Definition enumerate {A} (l : list A) : list (nat * A) :=
  combine (seq 0 (List.length l)) l.

(** [cache] is the dict inside [self._predictions], and [cache[dl_idx]]
    the dict inside it: what the loop has stored before an exception
    stays stored. *)
Definition _append_prediction (self : t) (predictions_ : batch)
    (dl_idx : nat) (batch_indices : option (list Id))
    (enable_predict_auto_id : bool) : t * outcome unit :=
  match current_stage self, predictions self with
  | Some stage, Returns cache =>
      let samples :=
        match dict_get Nat.eqb dl_idx cache with
        | Some samples => samples
        | None => []
        end in
      let (samples, r) :=
        match items predictions_ with
        | None => (samples, Raises E_TypeError)
        | Some preds =>
            for_each (store_prediction enable_predict_auto_id batch_indices)
              (enumerate preds) samples
        end in
      (set_predictions self
         (dict_put Stage_eqb stage (dict_put Nat.eqb dl_idx samples cache)
            (_predictions self)), r)
  | _, Raises e => (self, Raises e)
  | None, Returns _ => (self, Raises E_AttributeError)
  end.

(** [len(predictions)] *)
Definition batch_len (predictions : batch) : nat :=
  match items predictions with
  | Some l => List.length l
  | None => 0
  end.

(** [isinstance(p, dict) and "id" in p] *)
Definition dict_with_id (p : obj) : bool :=
  match p with
  | O_Dict d => has_key "id" d
  | _ => false
  end.

(** [len(p) > 1]; the predictions are dicts where the code asks. *)
Definition more_than_one (p : obj) : bool :=
  match p with
  | O_Dict d => Nat.ltb 1 (List.length d)
  | O_List l => Nat.ltb 1 (List.length l)
  | O_Tensor t => Nat.ltb 1 (List.length (tolist t))
  | O_Num _ => false
  end.

(** The [assert isinstance(predictions, (list, tuple, torch.Tensor))] holds
    of every [batch] that gets to it. *)
Definition append (self : t) (predictions : batch) (dl_idx : nat)
    (batch_indices : option (list Id)) (current_stage : Stage)
    (enable_predict_auto_id : bool) : t * outcome unit :=
  match predictions with
  | B_None | B_List [] => (self, Returns tt)
  | _ =>
      let self := set_current_stage self current_stage in
      if enable_predict_auto_id then
        match batch_indices with
        | None => (self, Returns tt)
        | Some indices =>
            if negb (Nat.eqb (batch_len predictions) (List.length indices))
            then (self, Raises E_MisconfigurationException)
            else _append_prediction self predictions dl_idx batch_indices
                   enable_predict_auto_id
        end
      else
        let preds :=
          match items predictions with Some l => l | None => [] end in
        if negb (forallb dict_with_id preds)
        then (self, Raises E_MisconfigurationException)
        else if negb (forallb more_than_one preds)
        then (self, Raises E_MisconfigurationException)
        else _append_prediction self predictions dl_idx batch_indices
               enable_predict_auto_id
  end.

Definition should_finalize_predictions (self : t) (current_stage : Stage)
    : t * outcome bool :=
  let self := set_current_stage self current_stage in
  match predictions self with
  | Returns cache => (self, Returns (Nat.ltb 0 (List.length cache)))
  | Raises e => (self, Raises e)
  end.

(** [all_gather_predictions] returns what it is given unless there are
    two processes or more and [torch.distributed] is available and
    initialized; [gathered] stands for what it then makes of the tensors
    that [all_gather_fn] returns. *)
Variable distributed : bool.
Variable gathered : list (Id * obj) -> list (Id * obj).

Definition all_gather_predictions (self : t)
    (predictions : list (Id * obj)) : list (Id * obj) :=
  if negb (Nat.leb 2 (world_size self) && distributed) then predictions
  else gathered predictions.

(** The results are dicts with string keys; [finalize_predictions] sets
    their key ["predictions"] in place and returns them. *)
Definition finalize_predictions (self : t)
    (results : list (list (string * obj)))
    : outcome (list (list (string * obj))) :=
  match predictions self with
  | Raises e => Raises e
  | Returns predictions =>
      Returns
        (map
           (fun entry : nat * list (string * obj) =>
              let (dl_idx, result) := entry in
              match dict_get Nat.eqb dl_idx predictions with
              | Some dl_predictions =>
                  let dl_predictions :=
                    all_gather_predictions self dl_predictions in
                  dict_set "predictions" (O_List (map snd dl_predictions))
                    result
              | None => result
              end) (enumerate results))
  end.

(** The legacy API.  The state is the memory of lists with the
    collection. *)
Definition _add_prediction (name : string) (values : column)
    (filename : string) (st : memory * t) : (memory * t) * outcome unit :=
  let (m, self) := st in
  let legacy := _legacy_predictions self in
  match assoc filename legacy with
  | None =>
      ((m, set_legacy self (dict_set filename [(name, values)] legacy)),
       Returns tt)
  | Some columns =>
      match assoc name columns with
      | None =>
          ((m, set_legacy self
                 (dict_set filename (dict_set name values columns) legacy)),
           Returns tt)
      | Some stored =>
          match values with
          | C_Tensor v =>
              match stored with
              | C_Tensor s =>
                  match cat s v with
                  | Some joined =>
                      ((m, set_legacy self
                             (dict_set filename
                                (dict_set name (C_Tensor joined) columns)
                                legacy)),
                       Returns tt)
                  | None => (st, Raises E_RuntimeError)
                  end
              | _ => (st, Raises E_TypeError)
              end
          | C_List given =>
              match stored with
              | C_List kept => ((extend m kept (m given), self), Returns tt)
              | _ => (st, Raises E_AttributeError)
              end
          | _ => (st, Returns tt)
          end
      end
  end.

Definition add
    (predictions : option (list (string * list (string * column))))
    (st : memory * t) : (memory * t) * outcome unit :=
  match predictions with
  | None => (st, Returns tt)
  | Some files =>
      for_each
        (fun file =>
           for_each
             (fun feature =>
                _add_prediction (fst feature) (snd feature) (fst file))
             (snd file))
        files st
  end.

(** What [to_disk] does to the file system. *)
Inductive io : Type :=
| Mkdirs (dirpath : string)
| Torch_save (filepath : string) (outputs : list (list (string * E))).

(** The path [to_disk] writes the predictions of [filepath] to. *)
Definition target (self : t) (filepath : string) : string :=
  let filepath :=
    if String.eqb (protocol filepath) "file" then realpath filepath
    else filepath in
  if Nat.ltb 1 (world_size self) then
    let (stem, extension) := splitext filepath in
    stem ++ "_rank_" ++
    NilEmpty.string_of_uint (Nat.to_uint (global_rank self)) ++ extension
  else filepath.

(** A column after [v.tolist()] on the tensors, if it has a [len]. *)
Definition rows (m : memory) (v : column) : option (list E) :=
  match v with
  | C_Tensor t => Some (tolist t)
  | C_List address => Some (m address)
  | C_Tuple l => Some l
  | C_Number => None
  end.

(** The columns as sequences, in the order of the dict, if [len] raises
    on none of them. *)
Fixpoint sized (m : memory) (columns : list (string * column))
    : option (list (string * list E)) :=
  match columns with
  | [] => Some []
  | (k, v) :: columns' =>
      match rows m v with
      | None => None
      | Some l =>
          match sized m columns' with
          | Some r => Some ((k, l) :: r)
          | None => None
          end
      end
  end.

(** [{k: v for k, v in zip(predictions.keys(), values)}] *)
Definition output_element (keys : list string) (values : list E)
    : list (string * E) :=
  dict_update [] (combine keys values).

(** What [to_disk] does for one file. *)
Definition write_file (m : memory) (self : t)
    (file : string * list (string * column)) : list io * outcome unit :=
  let filepath := target self (fst file) in
  let made := [Mkdirs (dirname filepath)] in
  match sized m (snd file) with
  | None => (made, Raises E_TypeError)
  | Some columns =>
      let feature_lens := map (fun kv => List.length (snd kv)) columns in
      if negb (Nat.eqb (List.length (nodup Nat.eq_dec feature_lens)) 1)
      then (made, Raises E_ValueError)
      else
        let outputs :=
          map (output_element (map fst columns))
            (zip_star (map snd columns)) in
        (made ++ [Torch_save filepath outputs], Returns tt)
  end.

Fixpoint write_files (m : memory) (self : t)
    (files : list (string * list (string * column)))
    : list io * outcome unit :=
  match files with
  | [] => ([], Returns tt)
  | file :: files' =>
      match write_file m self file with
      | (done, Returns _) =>
          let (more, r) := write_files m self files' in (done ++ more, r)
      | (done, Raises e) => (done, Raises e)
      end
  end.

Definition to_disk (m : memory) (self : t) : list io * outcome unit :=
  write_files m self (_legacy_predictions self).

(** The prediction kept for a sample of a dataloader in a stage, and the
    column kept for a feature of a file. *)
Definition stored (self : t) (stage : Stage) (dl_idx : nat)
    (sample_id : Id) : option obj :=
  match dict_get Stage_eqb stage (_predictions self) with
  | Some cache =>
      match dict_get Nat.eqb dl_idx cache with
      | Some samples => dict_get Id_eqb sample_id samples
      | None => None
      end
  | None => None
  end.

Definition column_of (self : t) (filename name : string) : option column :=
  match assoc filename (_legacy_predictions self) with
  | Some columns => assoc name columns
  | None => None
  end.

(** The columns of a file all have [n] elements. *)
Definition uniform (m : memory) (file : string * list (string * column))
    (n : nat) : Prop :=
  exists columns,
    sized m (snd file) = Some columns /\
    Forall (fun kv => List.length (snd kv) = n) columns.

(** Calls of [add] one after the other, by a caller that goes on after an
    exception. *)
Definition adds
    (calls : list (option (list (string * list (string * column)))))
    (st : memory * t) : memory * t :=
  fold_left (fun st predictions => fst (add predictions st)) calls st.

(** What the legacy store is as a dict of dicts that [add] has filled: no
    file twice, no column twice in a file, and no file without a
    column. *)
Definition well_formed (self : t) : Prop :=
  NoDup (map fst (_legacy_predictions self)) /\
  Forall (fun file => snd file <> [] /\ NoDup (map fst (snd file)))
    (_legacy_predictions self).

(** [outputs] is the table of a file whose columns have one length: a
    dict for each row, with the names of the columns in their order as
    keys, each for the element of its column in that row. *)
Definition table_of (m : memory) (file : string * list (string * column))
    (outputs : list (list (string * E))) : Prop :=
  exists columns,
    sized m (snd file) = Some columns /\
    Forall (fun kv => List.length (snd kv) = List.length outputs) columns /\
    forall i out,
      nth_error outputs i = Some out ->
      map fst out = map fst columns /\
      forall name l, In (name, l) columns -> assoc name out = nth_error l i.

End Collection.

End PredictionCollection.

(** A collection for the examples: the stages are those of a run, sample
    ids and elements are numbers, a tensor is the list of its elements,
    [torch.cat] appends, and the conversion turns the tensors into
    lists. *)
Definition stages : list string := ["train"; "val"; "test"].

Fixpoint to_lists (o : PredictionCollection.obj nat (list nat))
    : PredictionCollection.obj nat (list nat) :=
  match o with
  | PredictionCollection.O_Num _ n => PredictionCollection.O_Num _ n
  | PredictionCollection.O_Tensor _ t =>
      PredictionCollection.O_List (map (PredictionCollection.O_Num _) t)
  | PredictionCollection.O_List l =>
      PredictionCollection.O_List (map to_lists l)
  | PredictionCollection.O_Dict d =>
      PredictionCollection.O_Dict
        (map (fun kv => (fst kv, to_lists (snd kv))) d)
  end.

Definition new_collection : PredictionCollection.t string nat (list nat) nat :=
  PredictionCollection.__init__ stages nat (list nat) nat 0 1.

Definition two_tensors : PredictionCollection.batch nat (list nat) :=
  PredictionCollection.B_Tuple
    [PredictionCollection.O_Tensor nat [1; 2];
     PredictionCollection.O_Tensor nat [3; 4]].

Definition with_own_ids : PredictionCollection.batch nat (list nat) :=
  PredictionCollection.B_List
    [PredictionCollection.O_Dict
       [("id", PredictionCollection.O_Num (list nat) 3);
        ("y", PredictionCollection.O_Tensor nat [1; 2])];
     PredictionCollection.O_Dict
       [("id", PredictionCollection.O_Num (list nat) 5);
        ("y", PredictionCollection.O_Tensor nat [3; 4])]].

(** For the examples of the legacy store: no list of the caller's yet,
    local paths that are written as they are, and three files, the second
    with columns of two lengths. *)
Definition no_lists : PredictionCollection.memory nat := fun _ => [].
Definition local_file (filepath : string) : string := "file".
Definition as_it_is (filepath : string) : string := filepath.
Definition no_extension (filepath : string) : string * string :=
  (filepath, "").
Definition here (filepath : string) : string := ".".
Definition joined (a b : list nat) : option (list nat) := Some (a ++ b).

Definition matching_file
    : string * list (string * PredictionCollection.column (list nat) nat) :=
  ("a.pt",
   [("x", PredictionCollection.C_Tuple (list nat) [1; 2]);
    ("y", PredictionCollection.C_Tensor nat [3; 4])]).

Definition mismatching_file
    : string * list (string * PredictionCollection.column (list nat) nat) :=
  ("b.pt",
   [("x", PredictionCollection.C_Tuple (list nat) [1; 2]);
    ("y", PredictionCollection.C_Tuple (list nat) [3])]).

Definition later_file
    : string * list (string * PredictionCollection.column (list nat) nat) :=
  ("c.pt", [("x", PredictionCollection.C_Tuple (list nat) [5])]).

(** * Properties *)

Unset Implicit Arguments.

(** ** Lists and collections *)

Lemma map_flat_map {A B C} (g : B -> C) (h : A -> list B) (l : list A) :
  map g (flat_map h l) = flat_map (fun x => map g (h x)) l.
Proof.
  induction l as [|x l IH]; simpl; [reflexivity|].
  now rewrite map_app, IH.
Qed.

Lemma flat_map_map {A B C} (h : B -> list C) (g : A -> B) (l : list A) :
  flat_map h (map g l) = flat_map (fun x => h (g x)) l.
Proof.
  induction l as [|x l IH]; simpl; [reflexivity|].
  now rewrite IH.
Qed.

Lemma flat_map_ext_in {A B} (f g : A -> list B) (l : list A) :
  Forall (fun x => f x = g x) l -> flat_map f l = flat_map g l.
Proof.
  induction 1 as [|x l Hx _ IH]; simpl; [reflexivity|].
  now rewrite Hx, IH.
Qed.

Lemma map_ext_Forall {A B} (f g : A -> B) (l : list A) :
  Forall (fun x => f x = g x) l -> map f l = map g l.
Proof.
  induction 1 as [|x l Hx _ IH]; simpl; [reflexivity|].
  now rewrite Hx, IH.
Qed.

Lemma leaves_tmap {A B} (f : A -> B) (t : tree A) :
  leaves (tmap f t) = map f (leaves t).
Proof.
  induction t as [a|k ts IH|kvs IH] using tree_nested_ind; simpl.
  - reflexivity.
  - rewrite flat_map_map, map_flat_map. now apply flat_map_ext_in.
  - rewrite flat_map_map, map_flat_map. now apply flat_map_ext_in.
Qed.

Lemma tmap_tmap {A B C} (g : B -> C) (f : A -> B) (t : tree A) :
  tmap g (tmap f t) = tmap (fun a => g (f a)) t.
Proof.
  induction t as [a|k ts IH|kvs IH] using tree_nested_ind; simpl.
  - reflexivity.
  - f_equal. rewrite map_map. now apply map_ext_Forall.
  - f_equal. rewrite map_map. apply map_ext_Forall.
    eapply Forall_impl; [|exact IH]. simpl. intros kv H. now rewrite H.
Qed.

Lemma tmap_id {A} (t : tree A) : tmap (fun a => a) t = t.
Proof.
  induction t as [a|k ts IH|kvs IH] using tree_nested_ind; simpl.
  - reflexivity.
  - f_equal. induction IH as [|x l Hx _ IHl]; simpl; [reflexivity|].
    now rewrite Hx, IHl.
  - f_equal. induction IH as [|[key x] l Hx _ IHl]; simpl; [reflexivity|].
    simpl in Hx. now rewrite Hx, IHl.
Qed.

Lemma shape_tmap {A B} (f : A -> B) (t : tree A) :
  shape (tmap f t) = shape t.
Proof. unfold shape. now rewrite tmap_tmap. Qed.

Lemma tmap_ext_in {A B} (f g : A -> B) (t : tree A) :
  (forall a, In a (leaves t) -> f a = g a) -> tmap f t = tmap g t.
Proof.
  induction t as [a|k ts IH|kvs IH] using tree_nested_ind; simpl; intros H.
  - f_equal. apply H. now left.
  - f_equal. apply map_ext_Forall.
    rewrite Forall_forall in IH |- *. intros t Ht. apply IH; [exact Ht|].
    intros a Ha. apply H. apply in_flat_map. eauto.
  - f_equal. apply map_ext_Forall.
    rewrite Forall_forall in IH |- *. intros kv Hkv. f_equal.
    apply IH; [exact Hkv|].
    intros a Ha. apply H. apply in_flat_map. eauto.
Qed.

(** The reading traversal is a map that also collects, leaf by leaf, what
    the function did. *)
Lemma apply_to_collection_snd {A B} (f : A -> traced B) (t : tree A) :
  snd (apply_to_collection f t) = tmap (fun a => snd (f a)) t.
Proof.
  induction t as [a|k ts IH|kvs IH] using tree_nested_ind; simpl.
  - now destruct (f a).
  - f_equal. rewrite map_map. now apply map_ext_Forall.
  - f_equal. rewrite map_map. apply map_ext_Forall.
    eapply Forall_impl; [|exact IH]. simpl. intros kv H. now rewrite H.
Qed.

Lemma flat_map_flat_map {A B C} (g : B -> list C) (h : A -> list B)
    (l : list A) :
  flat_map g (flat_map h l) = flat_map (fun x => flat_map g (h x)) l.
Proof.
  induction l as [|x l IH]; simpl; [reflexivity|].
  now rewrite flat_map_app, IH.
Qed.

Lemma apply_to_collection_fst {A B} (f : A -> traced B) (t : tree A) :
  fst (apply_to_collection f t) = flat_map (fun a => fst (f a)) (leaves t).
Proof.
  induction t as [a|k ts IH|kvs IH] using tree_nested_ind; simpl.
  - destruct (f a). simpl. now rewrite app_nil_r.
  - rewrite map_map, <- flat_map_concat_map, flat_map_flat_map.
    now apply flat_map_ext_in.
  - rewrite map_map, <- flat_map_concat_map, flat_map_flat_map.
    now apply flat_map_ext_in.
Qed.

(** ** Outcomes in a row *)

Lemma first_failure_app_ok {B} (ys : list B) (rs : list (result B)) :
  first_failure (map Ok ys ++ rs) = first_failure rs.
Proof. induction ys as [|y ys IH]; simpl; auto. Qed.

Lemma first_failure_app_err {B} (rs rs' : list (result B)) e :
  first_failure rs = Some e -> first_failure (rs ++ rs') = Some e.
Proof.
  induction rs as [|[b|e'] rs IH]; simpl; intros H; auto; discriminate.
Qed.

Lemma first_failure_in {B} (rs : list (result B)) e :
  first_failure rs = Some e -> In (Err e) rs.
Proof.
  induction rs as [|[b|e'] rs IH]; simpl; intros H.
  - discriminate.
  - right. auto.
  - left. congruence.
Qed.

Lemma first_failure_split {B} (rs : list (result B)) e :
  first_failure rs = Some e ->
  exists pre post,
    rs = pre ++ Err e :: post /\ Forall (fun r => is_ok r = true) pre.
Proof.
  induction rs as [|[b|e'] rs IH]; simpl; intros H.
  - discriminate.
  - destruct (IH H) as (pre & post & -> & Hpre).
    exists (Ok b :: pre), post. split; [reflexivity|].
    constructor; auto.
  - injection H as ->. exists [], rs. split; [reflexivity|constructor].
Qed.

(** ** The mutating traversal *)

Section EachInTurn.
Context {X Y : Type}.
Variable step : X -> X * result Y.

Lemma each_in_turn_all_ok {S} (a h : S -> X) (g : S -> Y) (l : list S) :
  (forall x, In x l -> step (a x) = (h x, Ok (g x))) ->
  each_in_turn step (map a l) = (map h l, Ok (map g l)).
Proof.
  induction l as [|x l IH]; simpl; intros H; [reflexivity|].
  rewrite (H x (or_introl eq_refl)).
  rewrite IH; [reflexivity|]. intros y Hy. apply H. now right.
Qed.

Lemma each_in_turn_outcome {B Sh}
    (lvX : X -> list (result B)) (lvY : Y -> list B)
    (shX : X -> Sh) (shY : Y -> Sh) (l : list X) :
  Forall (fun x => match snd (step x) with
                   | Ok y => shY y = shX x /\ map Ok (lvY y) = lvX x
                   | Err e => first_failure (lvX x) = Some e
                   end) l ->
  match snd (each_in_turn step l) with
  | Ok ys =>
      map shY ys = map shX l /\
      map Ok (flat_map lvY ys) = flat_map lvX l
  | Err e => first_failure (flat_map lvX l) = Some e
  end.
Proof.
  induction 1 as [|x l Hx _ IH]; simpl; [auto|].
  destruct (step x) as [x' [y|e]]; simpl in *.
  - destruct (each_in_turn step l) as [l' [ys|e]]; simpl in *.
    + destruct Hx as [Hs Hl], IH as [IHs IHl]. split.
      * now rewrite Hs, IHs.
      * now rewrite map_app, Hl, IHl.
    + destruct Hx as [_ Hl]. now rewrite <- Hl, first_failure_app_ok.
  - now apply first_failure_app_err.
Qed.

Lemma each_in_turn_state (R : X -> X -> Prop) (l : list X) :
  (forall x, R x x) ->
  Forall (fun x => R x (fst (step x))) l ->
  Forall2 R l (fst (each_in_turn step l)).
Proof.
  intros Hrefl. induction 1 as [|x l Hx Hl IH]; simpl; [constructor|].
  destruct (step x) as [x' [y|e]]; simpl in *.
  - destruct (each_in_turn step l) as [l' [ys|e]]; simpl in *;
      now constructor.
  - constructor; [assumption|].
    clear - Hrefl. induction l; constructor; auto.
Qed.
End EachInTurn.

Lemma Forall2_map_eq {X Sh} (sh : X -> Sh) (l l' : list X) :
  Forall2 (fun x x' => sh x' = sh x) l l' -> map sh l' = map sh l.
Proof. induction 1; simpl; congruence. Qed.

Section MutatingTraversal.
Context {A B : Type}.
Variable f : A -> A * result B.

Lemma fst_mut_Seq k ts :
  fst (apply_to_collection_mut f (Seq k ts)) =
  Seq k (fst (each_in_turn (apply_to_collection_mut f) ts)).
Proof.
  simpl. now destruct (each_in_turn _ ts) as [ts' [bs|e]].
Qed.

Lemma fst_mut_Map kvs :
  fst (apply_to_collection_mut f (Map kvs)) =
  Map (fst (each_in_turn (with_key (apply_to_collection_mut f)) kvs)).
Proof.
  simpl. now destruct (each_in_turn _ kvs) as [ts' [bs|e]].
Qed.

(** What the whole call returns or raises, read off the leaves. *)
Lemma mut_outcome (t : tree A) :
  match snd (apply_to_collection_mut f t) with
  | Ok out =>
      shape out = shape t /\
      map Ok (leaves out) = map (fun a => snd (f a)) (leaves t)
  | Err e =>
      first_failure (map (fun a => snd (f a)) (leaves t)) = Some e
  end.
Proof.
  induction t as [a|k ts IH|kvs IH] using tree_nested_ind.
  - simpl. destruct (f a) as [a' [b|e]]; simpl; auto.
  - pose proof (each_in_turn_outcome (apply_to_collection_mut f)
                  (fun t => map (fun a => snd (f a)) (leaves t))
                  (@leaves B) (@shape A) (@shape B) ts IH) as H.
    simpl. rewrite map_flat_map.
    destruct (each_in_turn _ ts) as [ts' [bs|e]]; simpl in *; [|exact H].
    destruct H as [Hs Hl]. split; [|exact Hl].
    unfold shape in *. simpl. f_equal. exact Hs.
  - assert (IH' : Forall (fun kv =>
             match snd (with_key (apply_to_collection_mut f) kv) with
             | Ok y =>
                 (fst y, shape (snd y)) = (fst kv, shape (snd kv)) /\
                 map Ok (leaves (snd y)) =
                   map (fun a => snd (f a)) (leaves (snd kv))
             | Err e =>
                 first_failure
                   (map (fun a => snd (f a)) (leaves (snd kv))) = Some e
             end) kvs).
    { eapply Forall_impl; [|exact IH]. intros [key v]. unfold with_key.
      simpl. destruct (apply_to_collection_mut f v) as [v' [y|e]]; simpl;
        [|auto].
      intros [Hs Hl]. now rewrite Hs. }
    pose proof (each_in_turn_outcome (with_key (apply_to_collection_mut f))
                  (fun kv => map (fun a => snd (f a)) (leaves (snd kv)))
                  (fun kv : string * tree B => leaves (snd kv))
                  (fun kv : string * tree A => (fst kv, shape (snd kv)))
                  (fun kv : string * tree B => (fst kv, shape (snd kv)))
                  kvs IH') as H.
    simpl. rewrite map_flat_map.
    destruct (each_in_turn _ kvs) as [ts' [bs|e]]; simpl in *; [|exact H].
    destruct H as [Hs Hl]. split; [|exact Hl].
    unfold shape in *. simpl. f_equal. exact Hs.
Qed.

(** The collection keeps its shape whatever happens to its leaves. *)
Lemma mut_shape_state (t : tree A) :
  shape (fst (apply_to_collection_mut f t)) = shape t.
Proof.
  induction t as [a|k ts IH|kvs IH] using tree_nested_ind.
  - simpl. now destruct (f a) as [a' [b|e]].
  - rewrite fst_mut_Seq. unfold shape in *. simpl. f_equal.
    apply Forall2_map_eq.
    apply each_in_turn_state; [reflexivity|exact IH].
  - rewrite fst_mut_Map. unfold shape in *. simpl. f_equal.
    apply (Forall2_map_eq
             (fun kv : string * tree A =>
                (fst kv, tmap (fun _ => tt) (snd kv)))).
    apply each_in_turn_state; [reflexivity|].
    eapply Forall_impl; [|exact IH]. intros [key v] H. unfold with_key.
    simpl in *. destruct (apply_to_collection_mut f v) as [v' [y|e]];
      simpl in *; now rewrite H.
Qed.

(** When every leaf answers, the traversal is two maps. *)
Lemma mut_all_ok {S} (F F' : S -> A) (G : S -> B) (t : tree S) :
  (forall s, In s (leaves t) -> f (F s) = (F' s, Ok (G s))) ->
  apply_to_collection_mut f (tmap F t) = (tmap F' t, Ok (tmap G t)).
Proof.
  induction t as [a|k ts IH|kvs IH] using tree_nested_ind; intros H.
  - simpl. now rewrite (H a (or_introl eq_refl)).
  - simpl.
    rewrite (each_in_turn_all_ok (apply_to_collection_mut f)
               (tmap F) (tmap F') (tmap G)); [reflexivity|].
    rewrite Forall_forall in IH. intros t Ht. apply IH; [exact Ht|].
    intros s Hs. apply H. simpl. apply in_flat_map. eauto.
  - simpl.
    rewrite (each_in_turn_all_ok (with_key (apply_to_collection_mut f))
               (fun kv => (fst kv, tmap F (snd kv)))
               (fun kv => (fst kv, tmap F' (snd kv)))
               (fun kv => (fst kv, tmap G (snd kv)))); [reflexivity|].
    rewrite Forall_forall in IH. intros kv Hkv. unfold with_key. simpl.
    rewrite IH; [reflexivity|exact Hkv|].
    intros s Hs. apply H. simpl. apply in_flat_map. eauto.
Qed.

(** When a leaf raises [E] and no leaf raises anything else, the whole
    call raises [E]. *)
Lemma mut_signal (E : exn) (t : tree A) :
  (forall a, In a (leaves t) ->
             is_ok (snd (f a)) = true \/ snd (f a) = Err E) ->
  (exists a, In a (leaves t) /\ snd (f a) = Err E) ->
  snd (apply_to_collection_mut f t) = Err E.
Proof.
  intros Hall (a & Ha & HE). pose proof (mut_outcome t) as H.
  destruct (snd (apply_to_collection_mut f t)) as [out|e].
  - destruct H as [_ H].
    assert (Hin : In (Err E) (map Ok (leaves out))).
    { rewrite H, <- HE.
      exact (in_map (fun a => snd (f a)) (leaves t) a Ha). }
    apply in_map_iff in Hin. destruct Hin as (b & Hb & _). discriminate.
  - apply first_failure_in in H. apply in_map_iff in H.
    destruct H as (a' & Ha' & Hin). destruct (Hall a' Hin) as [Hok|Hok];
      rewrite Ha' in Hok; simpl in Hok; congruence.
Qed.
End MutatingTraversal.

(** ** The order on lengths and the builtins [min] and [max] *)

Lemma Length_le_refl a : Length_le a a.
Proof. destruct a; simpl; auto. Qed.

Lemma Length_le_trans a b c : Length_le a b -> Length_le b c -> Length_le a c.
Proof. destruct a, b, c; simpl; auto; try lia; tauto. Qed.

Lemma Length_le_antisym a b : Length_le a b -> Length_le b a -> a = b.
Proof. destruct a, b; simpl; auto; try tauto. intros. f_equal. lia. Qed.

Lemma Length_ltb_le a b : Length_ltb a b = true -> Length_le a b.
Proof.
  destruct a, b; simpl; auto; try discriminate.
  intros H. apply Nat.ltb_lt in H. lia.
Qed.

Lemma Length_ltb_ge a b : Length_ltb a b = false -> Length_le b a.
Proof.
  destruct a, b; simpl; auto; try discriminate.
  intros H. apply Nat.ltb_ge in H. lia.
Qed.

Lemma is_least_unique m m' ls : is_least m ls -> is_least m' ls -> m = m'.
Proof.
  intros [Hin Hall] [Hin' Hall']. rewrite Forall_forall in Hall, Hall'.
  apply Length_le_antisym; auto.
Qed.

Lemma is_greatest_unique m m' ls :
  is_greatest m ls -> is_greatest m' ls -> m = m'.
Proof.
  intros [Hin Hall] [Hin' Hall']. rewrite Forall_forall in Hall, Hall'.
  apply Length_le_antisym; auto.
Qed.

Lemma py_scan_lt_leaves ls : forall l,
  exists m, py_scan py_lt (Leaf l) (map Leaf ls) = Ok (Leaf m) /\
            is_least m (l :: ls).
Proof.
  induction ls as [|x ls IH]; intros l; simpl.
  - exists l. split; [reflexivity|]. split; [now left|].
    constructor; [apply Length_le_refl|constructor].
  - destruct (Length_ltb x l) eqn:E.
    + destruct (IH x) as (m & Hm & Hin & Hall). exists m.
      split; [exact Hm|]. inversion Hall; subst. split.
      * right. exact Hin.
      * constructor; [|assumption].
        eapply Length_le_trans; [eassumption|now apply Length_ltb_le].
    + destruct (IH l) as (m & Hm & Hin & Hall). exists m.
      split; [exact Hm|]. inversion Hall; subst. split.
      * destruct Hin as [Hin|Hin]; [now left|right; now right].
      * constructor; [assumption|]. constructor; [|assumption].
        eapply Length_le_trans; [eassumption|now apply Length_ltb_ge].
Qed.

Lemma py_scan_gt_leaves ls : forall l,
  exists m, py_scan py_gt (Leaf l) (map Leaf ls) = Ok (Leaf m) /\
            is_greatest m (l :: ls).
Proof.
  induction ls as [|x ls IH]; intros l; simpl.
  - exists l. split; [reflexivity|]. split; [now left|].
    constructor; [apply Length_le_refl|constructor].
  - unfold py_gt at 1. simpl. destruct (Length_ltb l x) eqn:E.
    + destruct (IH x) as (m & Hm & Hin & Hall). exists m.
      split; [exact Hm|]. inversion Hall; subst. split.
      * right. exact Hin.
      * constructor; [|assumption].
        apply Length_le_trans with x; [now apply Length_ltb_le|assumption].
    + destruct (IH l) as (m & Hm & Hin & Hall). exists m.
      split; [exact Hm|]. inversion Hall; subst. split.
      * destruct Hin as [Hin|Hin]; [now left|right; now right].
      * constructor; [assumption|]. constructor; [|assumption].
        apply Length_le_trans with l; [now apply Length_ltb_ge|assumption].
Qed.

(** On numbers, [min] and [max] return the least and the greatest. *)
Lemma py_min_leaves m ls :
  is_least m ls -> py_min (map Leaf ls) = Ok (Leaf m).
Proof.
  intros Hm. destruct ls as [|l ls]; [now destruct Hm|]. simpl.
  destruct (py_scan_lt_leaves ls l) as (m' & -> & Hm').
  now rewrite (is_least_unique _ _ _ Hm Hm').
Qed.

Lemma py_max_leaves m ls :
  is_greatest m ls -> py_max (map Leaf ls) = Ok (Leaf m).
Proof.
  intros Hm. destruct ls as [|l ls]; [now destruct Hm|]. simpl.
  destruct (py_scan_gt_leaves ls l) as (m' & -> & Hm').
  now rewrite (is_greatest_unique _ _ _ Hm Hm').
Qed.

Lemma is_max_greatest m ns : is_max m ns -> is_greatest (Fin m) (map Fin ns).
Proof.
  intros [Hin Hall]. split; [now apply in_map|].
  apply Forall_map. eapply Forall_impl; [|exact Hall]. simpl. auto.
Qed.

(** ** One CycleIterator *)

Lemma cycle_next_fields c :
  CycleIterator.length (fst (CycleIterator.__next__ c)) =
    CycleIterator.length c /\
  CycleIterator.loader (fst (CycleIterator.__next__ c)) =
    CycleIterator.loader c.
Proof.
  unfold CycleIterator.__next__.
  destruct (py_ge _ _) as [[|]|e]; simpl; auto.
  destruct (CycleIterator.fetch c); simpl; auto.
Qed.

(** The counter moves by one exactly when the call went past the budget
    check, and then whatever the outcome. *)
Lemma cycle_next_counter c :
  match py_ge (CycleIterator.counter c) (CycleIterator.__len__ c) with
  | Ok false =>
      CycleIterator.counter (fst (CycleIterator.__next__ c)) =
        S (CycleIterator.counter c)
  | _ =>
      CycleIterator.__next__ c = (c, Err StopIteration) \/
      CycleIterator.__next__ c = (c, Err TypeError)
  end.
Proof.
  unfold CycleIterator.__next__.
  destruct (py_ge _ _) as [[|]|e] eqn:E; simpl; auto.
  - destruct (CycleIterator.fetch c); reflexivity.
  - right. unfold py_ge in E.
    destruct (CycleIterator.__len__ c) as [[n|]| |]; congruence.
Qed.

Lemma cycle_next_ok_counter c c' b :
  CycleIterator.__next__ c = (c', Ok b) ->
  CycleIterator.counter c' = S (CycleIterator.counter c).
Proof.
  intros H. pose proof (cycle_next_counter c) as Hc.
  destruct (py_ge _ _) as [[|]|e].
  - destruct Hc; congruence.
  - now rewrite H in Hc.
  - destruct Hc; congruence.
Qed.

Lemma cycle_calls_bound n m : forall c,
  CycleIterator.length c = Leaf (Fin n) ->
  CycleIterator.counter c <= n ->
  successes (snd (calls CycleIterator.__next__ m c)) +
    CycleIterator.counter c <= n.
Proof.
  induction m as [|m IH]; intros c Hlen Hc; simpl; [exact Hc|].
  destruct (CycleIterator.__next__ c) as [c' r] eqn:E.
  pose proof (cycle_next_fields c) as [Hl _]. rewrite E in Hl. simpl in Hl.
  pose proof (cycle_next_counter c) as Hcnt. rewrite E in Hcnt.
  unfold CycleIterator.__len__ in Hcnt. rewrite Hlen in Hcnt. simpl in Hcnt.
  destruct (calls CycleIterator.__next__ m c') as [c'' rs] eqn:E'.
  assert (Hrec : CycleIterator.counter c' <= n ->
                 successes rs + CycleIterator.counter c' <= n).
  { intros H. specialize (IH c'). rewrite E' in IH. apply IH; congruence. }
  unfold successes in *. simpl.
  destruct (Nat.leb n (CycleIterator.counter c)) eqn:Eb.
  - destruct Hcnt as [Hcnt|Hcnt]; injection Hcnt as -> ->; simpl; auto.
  - apply Nat.leb_gt in Eb. simpl in Hcnt.
    destruct (is_ok r); simpl; lia.
Qed.

(** What [fetch] does, by the outcome of the pull on the live iterator. *)
Lemma cycle_next_open c it :
  budget_open c ->
  CycleIterator._loader_iter c = Some it ->
  CycleIterator.__next__ c =
    match py_next it with
    | (_, Err StopIteration) =>
        (stepped c (fst (py_next (py_iter (CycleIterator.loader c)))),
         snd (py_next (py_iter (CycleIterator.loader c))))
    | (it', r) => (stepped c it', r)
    end.
Proof.
  unfold budget_open, CycleIterator.__next__, CycleIterator.fetch, stepped.
  intros -> ->.
  destruct (py_next it) as [it' [b|[]]]; try reflexivity.
  now destruct (py_next (py_iter (CycleIterator.loader c))).
Qed.

Lemma skipn_nth {A} (d : A) (l : list A) : forall k,
  k < List.length l -> skipn k l = nth k l d :: skipn (S k) l.
Proof.
  induction l as [|x l IH]; simpl; intros k Hk; [lia|].
  destruct k as [|k]; [reflexivity|]. simpl. apply IH. lia.
Qed.

Lemma faithful_nth s k :
  faithful s = true -> k < size s ->
  exists b, nth k (dl_batches s) (Item 0) = Item b /\ batch_at s k = BData b.
Proof.
  unfold faithful, size, batch_at. intros H Hk.
  apply andb_prop in H. destruct H as [H _].
  rewrite forallb_forall in H.
  specialize (H _ (nth_In (dl_batches s) (Item 0) Hk)).
  destruct (nth k (dl_batches s) (Item 0)) as [b|c]; [|discriminate].
  now exists b.
Qed.

Lemma faithful_declared s : faithful s = true -> declared s = Fin (size s).
Proof.
  unfold faithful, declared, size. intros H.
  apply andb_prop in H. destruct H as [_ H].
  destruct (dl_len s); [|discriminate].
  apply Nat.eqb_eq in H. now subst.
Qed.

(** A pull on a bare source that has already given [k] batches. *)
Lemma pull_source s k :
  faithful s = true ->
  py_next (ItSrc (skipn k (dl_batches s))) =
    if Nat.ltb k (size s)
    then (ItSrc (skipn (S k) (dl_batches s)), Ok (batch_at s k))
    else (ItSrc [], Err StopIteration).
Proof.
  intros Hf. destruct (Nat.ltb k (size s)) eqn:E.
  - apply Nat.ltb_lt in E.
    destruct (faithful_nth _ _ Hf E) as (b & Hb & ->).
    rewrite (skipn_nth (Item 0)) by exact E. now rewrite Hb.
  - apply Nat.ltb_ge in E. now rewrite skipn_all2 by exact E.
Qed.

Lemma into_pass_spec n k :
  0 < n ->
  (into_pass n k < n /\ into_pass n k = k mod n) \/
  (into_pass n k = n /\ k mod n = 0).
Proof.
  intros Hn. destruct k as [|j]; simpl.
  - left. split; [exact Hn|]. now rewrite Nat.Div0.mod_0_l.
  - pose proof (Nat.mod_upper_bound j n ltac:(lia)) as Hb.
    pose proof (Nat.div_mod_eq j n) as Hj.
    destruct (Nat.eq_dec (S (j mod n)) n) as [E|E].
    + right. split; [exact E|].
      symmetry. apply Nat.mod_unique with (q := S (j / n)); lia.
    + left. split; [lia|].
      apply Nat.mod_unique with (q := j / n); lia.
Qed.

(** ** One leaf of a session *)

Lemma next_bare s k :
  faithful s = true ->
  next_iterator (bare_at k s) =
    if Nat.ltb k (size s)
    then (bare_at (S k) s, Ok (batch_at s k))
    else (ItRaw (ItSrc []), Err StopIteration).
Proof.
  intros Hf. unfold bare_at, next_iterator. rewrite (pull_source s k Hf).
  now destruct (Nat.ltb k (size s)).
Qed.

Lemma cycle_state_next l s k :
  faithful s = true -> 0 < size s ->
  py_ge k (Leaf l) = Ok false ->
  CycleIterator.__next__ (cycle_state l k s) =
    (cycle_state l (S k) s, Ok (batch_at s (k mod size s))).
Proof.
  intros Hf Hn Hopen.
  assert (Hfresh : py_next (py_iter (Leaf s)) =
                   (ItSrc (skipn 1 (dl_batches s)), Ok (batch_at s 0))).
  { pose proof (pull_source s 0 Hf) as H. simpl skipn at 1 in H.
    apply Nat.ltb_lt in Hn. rewrite Hn in H. exact H. }
  unfold cycle_state.
  rewrite cycle_next_open
    with (it := ItSrc (skipn (into_pass (size s) k) (dl_batches s)));
    [|exact Hopen|reflexivity].
  rewrite (pull_source s _ Hf). unfold stepped. simpl CycleIterator.loader.
  rewrite Hfresh.
  destruct (into_pass_spec _ k Hn) as [[Hlt Heq]|[Heq Hz]].
  - apply Nat.ltb_lt in Hlt. rewrite Hlt. simpl. now rewrite Heq.
  - rewrite Heq, Nat.ltb_irrefl. simpl. now rewrite Hz.
Qed.

Lemma next_cycled l s k :
  faithful s = true -> 0 < size s ->
  py_ge k (Leaf l) = Ok false ->
  next_iterator (cycled_at l k s) =
    (cycled_at l (S k) s, Ok (batch_at s (k mod size s))).
Proof.
  intros Hf Hn Hopen. unfold cycled_at, next_iterator.
  now rewrite (cycle_state_next l s k Hf Hn Hopen).
Qed.

Lemma next_cycled_done L s :
  next_iterator (cycled_at (Fin L) L s) =
    (cycled_at (Fin L) L s, Err StopIteration).
Proof.
  unfold cycled_at, cycle_state, next_iterator, CycleIterator.__next__.
  simpl. now rewrite Nat.leb_refl.
Qed.

Lemma calls_run {St B} (next : St -> St * result B)
    (st : nat -> St) (out : nat -> B) :
  (forall k, next (st k) = (st (S k), Ok (out k))) ->
  forall m k,
    snd (calls next m (st k)) = map (fun i => Ok (out i)) (seq k m).
Proof.
  intros Hstep. induction m as [|m IH]; intros k; simpl; [reflexivity|].
  rewrite Hstep. specialize (IH (S k)).
  destruct (calls next m (st (S k))) as [s' rs]. simpl in *. now rewrite IH.
Qed.

(** The state a row of calls leaves, and the calls of a row that all
    returned. *)
Lemma calls_fst_next {St B} (next : St -> St * result B) (k : nat) (s : St) :
  fst (calls next (S k) s) = fst (calls next k (fst (next s))).
Proof.
  simpl. destruct (next s) as [s' r]. simpl.
  destruct (calls next k s') as [s'' rs]. reflexivity.
Qed.

Lemma calls_fst_last {St B} (next : St -> St * result B) (k : nat) :
  forall s, fst (calls next (S k) s) = fst (next (fst (calls next k s))).
Proof.
  induction k as [|k IH]; intros s.
  - simpl. destruct (next s). reflexivity.
  - rewrite calls_fst_next, IH, <- calls_fst_next. reflexivity.
Qed.

Lemma calls_all_ok {St B} (next : St -> St * result B) (d : B) (n : nat) :
  forall (s : St) (bs : list B) (k : nat),
    snd (calls next n s) = map Ok bs ->
    k < n ->
    next (fst (calls next k s)) =
      (fst (calls next (S k) s), Ok (nth k bs d)).
Proof.
  induction n as [|n IH]; intros s bs k Hrun Hk; [lia|].
  simpl in Hrun. destruct (next s) as [s' r] eqn:Es.
  destruct (calls next n s') as [s'' rs] eqn:Ec. simpl in Hrun.
  destruct bs as [|b bs]; [discriminate|]. simpl in Hrun.
  injection Hrun as -> Hrs.
  destruct k as [|k].
  - simpl. rewrite Es. reflexivity.
  - rewrite !calls_fst_next, Es. simpl fst.
    rewrite <- calls_fst_next. simpl nth.
    apply IH; [|lia]. rewrite Ec. exact Hrs.
Qed.

Lemma calls_run_upto {St B} (next : St -> St * result B)
    (st : nat -> St) (out : nat -> B) (n : nat) :
  (forall k, k < n -> next (st k) = (st (S k), Ok (out k))) ->
  forall m j, j + m <= n ->
    snd (calls next m (st j)) = map (fun i => Ok (out i)) (seq j m).
Proof.
  intros Hstep m. induction m as [|m IH]; intros j Hj; [reflexivity|].
  simpl. rewrite Hstep by lia.
  specialize (IH (S j)). destruct (calls next m (st (S j))) as [s rs].
  simpl in *. f_equal. apply IH. lia.
Qed.

(** ** A whole session *)

Lemma for_loop_run {St B} (next : St -> St * result B)
    (st : nat -> St) (out : nat -> B) (m : nat) :
  (forall k, k < m -> next (st k) = (st (S k), Ok (out k))) ->
  snd (next (st m)) = Err StopIteration ->
  forall d k fuel, k + d = m -> d < fuel ->
    for_loop next fuel (st k) = (map out (seq k d), Exhausted).
Proof.
  intros Hstep Hend. induction d as [|d IH]; intros k fuel Hk Hfuel.
  - destruct fuel as [|fuel]; [lia|]. simpl.
    replace k with m by lia.
    destruct (next (st m)) as [s' r]. simpl in Hend. now subst.
  - destruct fuel as [|fuel]; [lia|]. simpl.
    rewrite Hstep by lia. rewrite (IH (S k) fuel) by lia. reflexivity.
Qed.

Lemma session_created ld :
  CombinedLoaderIterator.__next__ (CombinedLoaderIterator.__init__ ld) =
  CombinedLoaderIterator.__next__
    (session ld (snd (CombinedLoaderIterator.create_loader_iters ld))).
Proof. reflexivity. Qed.

Lemma for_loop_created ld fuel :
  for_loop CombinedLoaderIterator.__next__ fuel
    (CombinedLoaderIterator.__init__ ld) =
  for_loop CombinedLoaderIterator.__next__ fuel
    (session ld (snd (CombinedLoaderIterator.create_loader_iters ld))).
Proof. destruct fuel; [reflexivity|]. simpl. now rewrite session_created. Qed.

Lemma calls_created ld n :
  snd (calls CombinedLoaderIterator.__next__ n
         (CombinedLoaderIterator.__init__ ld)) =
  snd (calls CombinedLoaderIterator.__next__ n
         (session ld (snd (CombinedLoaderIterator.create_loader_iters ld)))).
Proof. destruct n; [reflexivity|]. simpl. now rewrite session_created. Qed.

Lemma session_next ld its :
  CombinedLoaderIterator.__next__ (session ld its) =
  (session ld (fst (CombinedLoaderIterator.request_next_batch its)),
   snd (CombinedLoaderIterator.request_next_batch its)).
Proof.
  unfold CombinedLoaderIterator.__next__, session. simpl.
  now destruct (CombinedLoaderIterator.request_next_batch its).
Qed.

Lemma is_min_reached m (t : tree Source) :
  is_min m (sizes t) ->
  (forall s, In s (leaves t) -> m <= size s) /\
  (exists s, In s (leaves t) /\ size s = m).
Proof.
  intros [Hin Hall]. unfold sizes in *. split.
  - rewrite Forall_map, Forall_forall in Hall. exact Hall.
  - apply in_map_iff in Hin. destruct Hin as (s & Hs & Hin). eauto.
Qed.

(** Over bare sources of any nesting the session ends with the shortest
    source. *)
Lemma session_bare (t : tree Source) (m : nat) :
  Forall (fun s => faithful s = true) (leaves t) ->
  is_min m (sizes t) ->
  forall fuel, m < fuel ->
    for_loop CombinedLoaderIterator.__next__ fuel
      (CombinedLoaderIterator.__init__ (tmap Bare t)) =
    (map (fun k => tmap (fun s => batch_at s k) t) (seq 0 m), Exhausted).
Proof.
  intros Hf Hm fuel Hfuel. rewrite Forall_forall in Hf.
  destruct (is_min_reached _ _ Hm) as [Hle (s0 & Hs0 & Hsize0)].
  rewrite for_loop_created.
  unfold CombinedLoaderIterator.create_loader_iters.
  rewrite apply_to_collection_snd, tmap_tmap. simpl.
  change (tmap (fun a => ItRaw (ItSrc (dl_batches a))) t)
    with (tmap (bare_at 0) t).
  apply (for_loop_run CombinedLoaderIterator.__next__
           (fun k => session (tmap Bare t) (tmap (bare_at k) t))
           (fun k => tmap (fun s => batch_at s k) t) m);
    [| |lia|exact Hfuel].
  - intros k Hk. rewrite session_next.
    unfold CombinedLoaderIterator.request_next_batch.
    rewrite (mut_all_ok next_iterator (bare_at k) (bare_at (S k))
               (fun s => batch_at s k)); [reflexivity|].
    intros s Hs. rewrite (next_bare s k (Hf s Hs)).
    specialize (Hle s Hs).
    assert (E : Nat.ltb k (size s) = true) by (apply Nat.ltb_lt; lia).
    now rewrite E.
  - rewrite session_next. simpl.
    unfold CombinedLoaderIterator.request_next_batch.
    apply mut_signal.
    + intros a Ha. rewrite leaves_tmap in Ha. apply in_map_iff in Ha.
      destruct Ha as (s & <- & Hs). rewrite (next_bare s m (Hf s Hs)).
      destruct (Nat.ltb m (size s)); simpl; auto.
    + exists (bare_at m s0). split.
      * rewrite leaves_tmap. now apply in_map.
      * rewrite (next_bare s0 m (Hf s0 Hs0)), Hsize0, Nat.ltb_irrefl.
        reflexivity.
Qed.

(** Over sources each wrapped with the budget [L], the greatest size, the
    session ends after [L] elements and every shorter source is replayed
    from its first batch. *)
Lemma session_cycled (t : tree Source) (L : nat) :
  Forall (fun s => faithful s = true) (leaves t) ->
  Forall (fun s => dl_batches s <> []) (leaves t) ->
  leaves t <> [] ->
  forall fuel, L < fuel ->
    for_loop CombinedLoaderIterator.__next__ fuel
      (CombinedLoaderIterator.__init__
         (tmap (fun s => Cycle (CycleIterator.__init__ (Leaf s)
                                  (Some (Leaf (Fin L))))) t)) =
    (map (fun k => tmap (fun s => batch_at s (k mod size s)) t) (seq 0 L),
     Exhausted).
Proof.
  intros Hf Hne Hleaf fuel Hfuel. rewrite Forall_forall in Hf, Hne.
  rewrite for_loop_created.
  unfold CombinedLoaderIterator.create_loader_iters.
  rewrite apply_to_collection_snd, tmap_tmap. simpl.
  set (ld := tmap (fun s => Cycle _) t).
  change (tmap (fun a => ItCycle _) t) with (tmap (cycled_at (Fin L) 0) t).
  apply (for_loop_run CombinedLoaderIterator.__next__
           (fun k => session ld (tmap (cycled_at (Fin L) k) t))
           (fun k => tmap (fun s => batch_at s (k mod size s)) t) L);
    [| |lia|exact Hfuel].
  - intros k Hk. rewrite session_next.
    unfold CombinedLoaderIterator.request_next_batch.
    rewrite (mut_all_ok next_iterator (cycled_at (Fin L) k)
               (cycled_at (Fin L) (S k))
               (fun s => batch_at s (k mod size s))); [reflexivity|].
    intros s Hs. apply next_cycled; [now apply Hf| |].
    + specialize (Hne s Hs). unfold size.
      destruct (dl_batches s); [congruence|simpl; lia].
    + simpl. f_equal. apply Nat.leb_gt. exact Hk.
  - rewrite session_next. simpl.
    unfold CombinedLoaderIterator.request_next_batch.
    destruct (leaves t) as [|s0 rest] eqn:El; [congruence|].
    apply mut_signal.
    + intros a Ha. rewrite leaves_tmap in Ha. apply in_map_iff in Ha.
      destruct Ha as (s & <- & Hs). rewrite next_cycled_done. now right.
    + exists (cycled_at (Fin L) L s0). split.
      * rewrite leaves_tmap, El. now left.
      * now rewrite next_cycled_done.
Qed.

(** ** Containers one level deep *)

Lemma flat_children {A B} (g : A -> B) (ts : list (tree A)) :
  forallb is_leaf ts = true ->
  map (tmap g) ts = map Leaf (map g (flat_map leaves ts)).
Proof.
  induction ts as [|[a|k l|kvs] ts IH]; simpl; intros H;
    try discriminate; [reflexivity|].
  now rewrite IH.
Qed.

Lemma flat_children_kv {A B} (g : A -> B) (kvs : list (string * tree A)) :
  forallb (fun kv => is_leaf (snd kv)) kvs = true ->
  map snd (map (fun kv => (fst kv, tmap g (snd kv))) kvs) =
  map Leaf (map g (flat_map (fun kv => leaves (snd kv)) kvs)).
Proof.
  induction kvs as [|[key [a|k l|kvs']] kvs IH]; simpl; intros H;
    try discriminate; [reflexivity|].
  now rewrite IH.
Qed.

Lemma flat_wrap {B} (w : tree Source -> B) (ts : list (tree Source)) :
  forallb is_leaf ts = true ->
  map (fun v => Leaf (w v)) ts = map (tmap (fun s => w (Leaf s))) ts.
Proof.
  induction ts as [|[a|k l|kvs] ts IH]; simpl; intros H;
    try discriminate; [reflexivity|].
  now rewrite IH.
Qed.

Lemma flat_wrap_kv {B} (w : tree Source -> B)
    (kvs : list (string * tree Source)) :
  forallb (fun kv => is_leaf (snd kv)) kvs = true ->
  map (fun kv => (fst kv, Leaf (w (snd kv)))) kvs =
  map (fun kv => (fst kv, tmap (fun s => w (Leaf s)) (snd kv))) kvs.
Proof.
  induction kvs as [|[key [a|k l|kvs']] kvs IH]; simpl; intros H;
    try discriminate; [reflexivity|].
  now rewrite IH.
Qed.

(** The three-way reduction shared by [_calc_num_data],
    [_wrap_loaders_max_size_cycle] and [_calc_num_batches], on a container
    one level deep. *)
Lemma reduce_flat {A} (g : A -> Length)
    (compute : list pyval -> result pyval) (t : tree A) (m : Length) :
  flat t = true ->
  (forall a, t = Leaf a -> g a = m) ->
  (is_leaf t = false ->
   compute (map Leaf (map g (leaves t))) = Ok (Leaf m)) ->
  match tmap g t with
  | Leaf l => Ok (Leaf l)
  | Seq _ ts => compute ts
  | Map kvs => compute (map snd kvs)
  end = Ok (Leaf m).
Proof.
  destruct t as [a|k ts|kvs]; simpl; intros Hflat Hleaf Hred.
  - now rewrite (Hleaf a eq_refl).
  - rewrite flat_children by exact Hflat. now apply Hred.
  - rewrite flat_children_kv by exact Hflat. now apply Hred.
Qed.

Lemma min_flat {A} (g : A -> Length) (t : tree A) (m : Length) :
  flat t = true ->
  is_least m (map g (leaves t)) ->
  match tmap g t with
  | Leaf l => Ok (Leaf l)
  | Seq _ ts => py_min ts
  | Map kvs => py_min (map snd kvs)
  end = Ok (Leaf m).
Proof.
  intros Hflat Hm. apply reduce_flat; [exact Hflat| |].
  - intros a ->. simpl in Hm. destruct Hm as [[H|[]] _]. exact H.
  - intros _. now apply py_min_leaves.
Qed.

Lemma max_flat {A} (g : A -> Length) (t : tree A) (m : Length) :
  flat t = true ->
  is_greatest m (map g (leaves t)) ->
  match tmap g t with
  | Leaf l => Ok (Leaf l)
  | Seq _ ts => py_max ts
  | Map kvs => py_max (map snd kvs)
  end = Ok (Leaf m).
Proof.
  intros Hflat Hm. apply reduce_flat; [exact Hflat| |].
  - intros a ->. simpl in Hm. destruct Hm as [[H|[]] _]. exact H.
  - intros _. now apply py_max_leaves.
Qed.

(** ** The constructor and the length of a CombinedLoader *)

Lemma calc_num_batches_snd (ld : tree loader) :
  snd (CombinedLoader._calc_num_batches ld) =
  match tmap (fun l => snd (get_len l)) ld with
  | Leaf l => Ok (Leaf l)
  | Seq _ ts => py_min ts
  | Map kvs => py_min (map snd kvs)
  end.
Proof.
  unfold CombinedLoader._calc_num_batches.
  rewrite <- apply_to_collection_snd.
  now destruct (apply_to_collection get_len ld).
Qed.

Lemma wrap_snd (t : tree Source) :
  snd (CombinedLoader._wrap_loaders_max_size_cycle t) =
  match
    match tmap declared t with
    | Leaf l => Ok (Leaf l)
    | Seq _ ts => py_max ts
    | Map kvs => py_max (map snd kvs)
    end
  with
  | Err e => Err e
  | Ok length =>
      match t with
      | Leaf s => Ok (Leaf (Bare s))
      | Seq k vs =>
          Ok (Seq k (map (fun v =>
                            Leaf (Cycle (CycleIterator.__init__ v
                                           (Some length)))) vs))
      | Map kvs =>
          Ok (Map (map (fun kv =>
                          (fst kv,
                           Leaf (Cycle (CycleIterator.__init__ (snd kv)
                                          (Some length))))) kvs))
      end
  end.
Proof.
  unfold CombinedLoader._wrap_loaders_max_size_cycle.
  replace (tmap declared t)
    with (snd (apply_to_collection get_len (tmap Bare t))).
  - now destruct (apply_to_collection get_len (tmap Bare t)).
  - rewrite apply_to_collection_snd, tmap_tmap. reflexivity.
Qed.

Lemma init_min_size (t : tree Source) :
  snd (CombinedLoader.__init__ t min_size) =
  Ok {| CombinedLoader.loaders := tmap Bare t;
        CombinedLoader.dataset :=
          {| CombinedDataset.datasets := tmap dl_dataset t;
             CombinedDataset.mode := min_size |};
        CombinedLoader.mode := min_size |}.
Proof.
  unfold CombinedLoader.__init__.
  pose proof (apply_to_collection_snd getattr_dataset t) as H.
  destruct (apply_to_collection getattr_dataset t) as [ev ds].
  simpl in H. subst ds. reflexivity.
Qed.

Lemma init_max_size_cycle (t : tree Source) :
  snd (CombinedLoader.__init__ t max_size_cycle) =
  match snd (CombinedLoader._wrap_loaders_max_size_cycle t) with
  | Err e => Err e
  | Ok wrapped =>
      Ok {| CombinedLoader.loaders := wrapped;
            CombinedLoader.dataset :=
              {| CombinedDataset.datasets := tmap dl_dataset t;
                 CombinedDataset.mode := max_size_cycle |};
            CombinedLoader.mode := max_size_cycle |}
  end.
Proof.
  unfold CombinedLoader.__init__.
  pose proof (apply_to_collection_snd getattr_dataset t) as H.
  destruct (apply_to_collection getattr_dataset t) as [ev ds].
  simpl in H. subst ds.
  change (CombinedDataset.__init__ (tmap (fun a => dl_dataset a) t)
            max_size_cycle)
    with (Ok {| CombinedDataset.datasets := tmap dl_dataset t;
                CombinedDataset.mode := max_size_cycle |}).
  cbv iota.
  change (negb (existsb (String.eqb max_size_cycle)
                  CombinedLoader.SUPPORTED_MODES)) with false.
  change (String.eqb max_size_cycle "max_size_cycle") with true.
  cbv iota.
  now destruct (CombinedLoader._wrap_loaders_max_size_cycle t) as [ev' [w|e]].
Qed.

Lemma declared_sizes (t : tree Source) :
  Forall (fun s => faithful s = true) (leaves t) ->
  map declared (leaves t) = map Fin (sizes t).
Proof.
  unfold sizes. rewrite map_map. intros H. apply map_ext_Forall.
  eapply Forall_impl; [|exact H]. apply faithful_declared.
Qed.

(** ** Sessions, traces and dataset lengths *)

Lemma first_failure_prefix {B} (pre post : list (result B)) (e : exn) :
  Forall (fun r => is_ok r = true) pre ->
  first_failure (pre ++ Err e :: post) = Some e.
Proof.
  induction 1 as [|[b|e'] pre Hr _ IH]; simpl; auto. discriminate.
Qed.

Lemma session_next_snd (self : CombinedLoaderIterator.t) :
  snd (CombinedLoaderIterator.__next__ self) =
  snd (CombinedLoaderIterator.request_next_batch
         (snd (CombinedLoaderIterator.loader_iters self))).
Proof.
  unfold CombinedLoaderIterator.__next__.
  destruct (CombinedLoaderIterator.loader_iters self) as [self' its].
  simpl. now destruct (CombinedLoaderIterator.request_next_batch its).
Qed.

(** The iterators of a session after a call are those the call left. *)
Lemma session_next_state (self : CombinedLoaderIterator.t) :
  snd (CombinedLoaderIterator.loader_iters
         (fst (CombinedLoaderIterator.__next__ self))) =
  fst (CombinedLoaderIterator.request_next_batch
         (snd (CombinedLoaderIterator.loader_iters self))).
Proof.
  unfold CombinedLoaderIterator.__next__.
  destruct (CombinedLoaderIterator.loader_iters self) as [self' its].
  simpl. now destruct (CombinedLoaderIterator.request_next_batch its).
Qed.

(** Whatever the calls made so far did, the iterators of a session keep
    the shape of its container. *)
Lemma session_state_shape (ld : tree loader) (k : nat) :
  shape (snd (CombinedLoaderIterator.loader_iters
                (fst (calls CombinedLoaderIterator.__next__ k
                        (CombinedLoaderIterator.__init__ ld))))) =
  shape ld.
Proof.
  induction k as [|k IH].
  - simpl. unfold CombinedLoaderIterator.create_loader_iters.
    now rewrite apply_to_collection_snd, shape_tmap.
  - rewrite calls_fst_last, session_next_state.
    unfold CombinedLoaderIterator.request_next_batch.
    now rewrite mut_shape_state.
Qed.

(** One call of [next] of a session, after any number of calls: the
    iterators have the shape of its container, and the call returns the
    batches they give, in that shape, or raises the first failure. *)
Lemma session_call (ld : tree loader) (k : nat) :
  let self :=
    fst (calls CombinedLoaderIterator.__next__ k
           (CombinedLoaderIterator.__init__ ld)) in
  let its := snd (CombinedLoaderIterator.loader_iters self) in
  shape its = shape ld /\
  match snd (CombinedLoaderIterator.__next__ self) with
  | Ok out =>
      shape out = shape ld /\
      map Ok (leaves out) = map pull (leaves its)
  | Err e => first_failure (map pull (leaves its)) = Some e
  end.
Proof.
  intros self its.
  assert (Hshape : shape its = shape ld)
    by apply (session_state_shape ld k).
  split; [exact Hshape|].
  rewrite session_next_snd. fold its.
  unfold CombinedLoaderIterator.request_next_batch.
  pose proof (mut_outcome next_iterator its) as H.
  destruct (snd (apply_to_collection_mut next_iterator its)) as [out|e];
    [|exact H].
  destruct H as [H1 H2]. split; [congruence|exact H2].
Qed.

(** In lockstep: as long as every leaf, taken by itself, gives a batch, the
    session returns the container with each leaf replaced by the batch it
    gave. *)
Lemma session_lockstep {X} (w : X -> loader) (t : tree X) (n : nat)
    (bs : X -> list Batch) :
  (forall s, In s (leaves t) -> alone (w s) n = map Ok (bs s)) ->
  snd (calls CombinedLoaderIterator.__next__ n
         (CombinedLoaderIterator.__init__ (tmap w t))) =
  map (fun k => Ok (tmap (fun s => nth k (bs s) (BData 0)) t)) (seq 0 n).
Proof.
  intros Halone. rewrite calls_created.
  unfold CombinedLoaderIterator.create_loader_iters.
  rewrite apply_to_collection_snd, tmap_tmap.
  set (at_ := fun k s => fst (calls next_iterator k (snd (iter_loader (w s))))).
  change (tmap (fun a => snd (iter_loader (w a))) t) with (tmap (at_ 0) t).
  apply (calls_run_upto CombinedLoaderIterator.__next__
           (fun k => session (tmap w t) (tmap (at_ k) t))
           (fun k => tmap (fun s => nth k (bs s) (BData 0)) t) n);
    [|lia].
  intros k Hk. rewrite session_next.
  unfold CombinedLoaderIterator.request_next_batch.
  rewrite (mut_all_ok next_iterator (at_ k) (at_ (S k))
             (fun s => nth k (bs s) (BData 0))); [reflexivity|].
  intros s Hs. unfold at_.
  apply (calls_all_ok next_iterator (BData 0) n); [|exact Hk].
  exact (Halone s Hs).
Qed.

Lemma init_ok_mode (t : tree Source) (mode : string) cl :
  snd (CombinedLoader.__init__ t mode) = Ok cl ->
  mode = min_size \/ mode = max_size_cycle.
Proof.
  unfold CombinedLoader.__init__.
  destruct (apply_to_collection getattr_dataset t) as [ev ds].
  unfold CombinedDataset.__init__, CombinedDataset.COMPUTE_FUNCS.
  destruct (String.eqb mode "min_size") eqn:E1.
  - apply String.eqb_eq in E1. now left.
  - destruct (String.eqb mode "max_size_cycle") eqn:E2.
    + apply String.eqb_eq in E2. now right.
    + discriminate.
Qed.

(** Where the wrapping reaches every source, the loaders of a combined
    loader are its sources, each in its place, bare or wrapped. *)
Lemma loaders_in_place (t : tree Source) (mode : string) cl :
  snd (CombinedLoader.__init__ t mode) = Ok cl ->
  mode = min_size \/ flat t = true ->
  exists w : Source -> loader,
    (forall s, holds_source s (w s)) /\ CombinedLoader.loaders cl = tmap w t.
Proof.
  intros Hinit Hscope.
  destruct (init_ok_mode t mode cl Hinit) as [-> | ->].
  - rewrite init_min_size in Hinit. injection Hinit as <-.
    exists Bare. split; [now left|reflexivity].
  - destruct Hscope as [Hm|Hflat]; [discriminate Hm|].
    rewrite init_max_size_cycle, wrap_snd in Hinit.
    destruct t as [s|k vs|kvs]; cbn [tmap] in Hinit.
    + injection Hinit as <-. exists Bare. split; [now left|reflexivity].
    + destruct (py_max (map (tmap declared) vs)) as [len|e]; [|discriminate].
      simpl in Hflat.
      rewrite (flat_wrap
                 (fun v => Cycle (CycleIterator.__init__ v
                                    (@Some (tree Length) len)))
                 vs Hflat) in Hinit.
      injection Hinit as <-.
      exists (fun s => Cycle (CycleIterator.__init__ (Leaf s) (Some len))).
      split; [intros s; right; eexists; reflexivity|reflexivity].
    + rewrite map_map in Hinit. cbn [snd] in Hinit.
      rewrite <- (map_map snd (tmap declared)) in Hinit.
      destruct (py_max (map (tmap declared) (map snd kvs))) as [len|e];
        [|discriminate].
      simpl in Hflat.
      rewrite (flat_wrap_kv
                 (fun v => Cycle (CycleIterator.__init__ v
                                    (@Some (tree Length) len)))
                 kvs Hflat) in Hinit.
      injection Hinit as <-.
      exists (fun s => Cycle (CycleIterator.__init__ (Leaf s) (Some len))).
      split; [intros s; right; eexists; reflexivity|reflexivity].
Qed.

Lemma flat_map_singleton {A B} (g : A -> B) (l : list A) :
  flat_map (fun a => [g a]) l = map g l.
Proof. induction l as [|a l IH]; simpl; congruence. Qed.

(** ** The example of the class docstring *)

(** [loaders = {'a': DataLoader(range(6), batch_size=4),
               'b': DataLoader(range(15), batch_size=5)}]: two batches for
    ['a'], numbered 0 and 1, and three for ['b'], numbered 10 to 12. *)
Example docstring_max_size_cycle :
  match snd (CombinedLoader.__init__ docstring_loaders max_size_cycle) with
  | Ok cl =>
      for_loop CombinedLoaderIterator.__next__ 10 (CombinedLoader.__iter__ cl)
  | Err _ => ([], Unfinished)
  end =
  ([Map [("a", Leaf (BData 0)); ("b", Leaf (BData 10))];
    Map [("a", Leaf (BData 1)); ("b", Leaf (BData 11))];
    Map [("a", Leaf (BData 0)); ("b", Leaf (BData 12))]],
   Exhausted).
Proof. reflexivity. Qed.

Example docstring_min_size :
  match snd (CombinedLoader.__init__ docstring_loaders min_size) with
  | Ok cl =>
      for_loop CombinedLoaderIterator.__next__ 10 (CombinedLoader.__iter__ cl)
  | Err _ => ([], Unfinished)
  end =
  ([Map [("a", Leaf (BData 0)); ("b", Leaf (BData 10))];
    Map [("a", Leaf (BData 1)); ("b", Leaf (BData 11))]],
   Exhausted).
Proof. reflexivity. Qed.

(** * The claims *)

(** C1, as amended.  In ['max_size_cycle'] mode, over a container one
    level deep whose sources yield exactly their declared number of batches
    and are not empty, with [L] the maximum of the leaves' lengths:
    construction succeeds; every member of a sequence or mapping is wrapped
    in a [CycleIterator] of budget [L] and a bare source is kept as it is;
    the length of the combined loader is [L]; and a loop over it receives
    exactly [L] combined elements, the [k]-th made, for every leaf, of the
    batch number [k mod n] of that leaf of length [n], before it ends on
    [StopIteration]. *)
Theorem longest_cycles (t : tree Source) (L : nat) :
  flat t = true ->
  Forall (fun s => faithful s = true) (leaves t) ->
  Forall (fun s => dl_batches s <> []) (leaves t) ->
  is_max L (sizes t) ->
  exists cl,
    snd (CombinedLoader.__init__ t max_size_cycle) = Ok cl /\
    CombinedLoader.loaders cl =
      match t with
      | Leaf s => Leaf (Bare s)
      | _ => tmap (fun s => Cycle (CycleIterator.__init__ (Leaf s)
                                     (Some (Leaf (Fin L))))) t
      end /\
    snd (CombinedLoader.__len__ cl) = Ok (Leaf (Fin L)) /\
    (forall fuel, L < fuel ->
       for_loop CombinedLoaderIterator.__next__ fuel
         (CombinedLoader.__iter__ cl) =
       (map (fun k => tmap (fun s => batch_at s (k mod size s)) t)
          (seq 0 L),
        Exhausted)).
Proof.
  intros Hflat Hf Hne Hmax.
  assert (Hgreat : is_greatest (Fin L) (map declared (leaves t))).
  { rewrite declared_sizes by exact Hf. now apply is_max_greatest. }
  assert (Hleaves : leaves t <> []).
  { destruct Hmax as [Hin _]. unfold sizes in Hin.
    destruct (leaves t); [destruct Hin|discriminate]. }
  pose proof (max_flat declared t (Fin L) Hflat Hgreat) as Hred.
  pose proof (init_max_size_cycle t) as Hinit.
  rewrite wrap_snd, Hred in Hinit.
  destruct t as [s|k vs|kvs].
  - (* a single bare source stays as it is *)
    eexists. split; [exact Hinit|]. split; [reflexivity|].
    assert (HL : L = size s).
    { destruct Hmax as [[H|[]] _]. now symmetry. }
    assert (Hmin : is_min L (sizes (Leaf s))).
    { subst L. split; [now left|]. repeat constructor. }
    split.
    + unfold CombinedLoader.__len__. simpl.
      inversion Hf; subst.
      change (Ok (Leaf (declared s)) = Ok (Leaf (Fin (size s)))).
      now rewrite (faithful_declared s H1).
    + intros fuel Hfuel.
      change (CombinedLoader.__iter__ _)
        with (CombinedLoaderIterator.__init__ (tmap Bare (Leaf s))).
      rewrite (session_bare (Leaf s) L Hf Hmin fuel Hfuel).
      f_equal. apply map_ext_in. intros i Hi. apply in_seq in Hi.
      simpl. rewrite Nat.mod_small by lia. reflexivity.
  - (* a sequence of sources *)
    simpl in Hflat.
    rewrite (flat_wrap (fun v => Cycle (CycleIterator.__init__ v
                                          (Some (Leaf (Fin L))))) vs Hflat)
      in Hinit.
    eexists. split; [exact Hinit|]. split; [reflexivity|]. split.
    + unfold CombinedLoader.__len__. simpl CombinedLoader.loaders.
      rewrite calc_num_batches_snd.
      change (Seq k (map (tmap ?w) vs)) with (tmap w (Seq k vs)).
      rewrite tmap_tmap. apply min_flat; [exact Hflat|].
      simpl get_len. simpl snd. split.
      * destruct (leaves (Seq k vs)); [congruence|now left].
      * apply Forall_map. apply Forall_forall. intros. apply Length_le_refl.
    + intros fuel Hfuel.
      now apply (session_cycled (Seq k vs) L Hf Hne Hleaves fuel Hfuel).
  - (* a mapping of sources *)
    simpl in Hflat.
    rewrite (flat_wrap_kv (fun v => Cycle (CycleIterator.__init__ v
                                             (Some (Leaf (Fin L)))))
               kvs Hflat) in Hinit.
    eexists. split; [exact Hinit|]. split; [reflexivity|]. split.
    + unfold CombinedLoader.__len__. simpl CombinedLoader.loaders.
      rewrite calc_num_batches_snd.
      change (Map (map (fun kv => (fst kv, tmap ?w (snd kv))) kvs))
        with (tmap w (Map kvs)).
      rewrite tmap_tmap. apply min_flat; [exact Hflat|].
      simpl get_len. simpl snd. split.
      * destruct (leaves (Map kvs)); [congruence|now left].
      * apply Forall_map. apply Forall_forall. intros. apply Length_le_refl.
    + intros fuel Hfuel.
      now apply (session_cycled (Map kvs) L Hf Hne Hleaves fuel Hfuel).
Qed.

Lemma longest_cycles_witness :
  exists cl,
    snd (CombinedLoader.__init__ side_by_side max_size_cycle) = Ok cl /\
    CombinedLoader.loaders cl =
      tmap (fun s => Cycle (CycleIterator.__init__ (Leaf s)
                              (Some (Leaf (Fin 7))))) side_by_side /\
    snd (CombinedLoader.__len__ cl) = Ok (Leaf (Fin 7)) /\
    (forall fuel, 7 < fuel ->
       for_loop CombinedLoaderIterator.__next__ fuel
         (CombinedLoader.__iter__ cl) =
       (map (fun k => tmap (fun s => batch_at s (k mod size s)) side_by_side)
          (seq 0 7),
        Exhausted)).
Proof.
  apply (longest_cycles side_by_side 7).
  - reflexivity.
  - repeat constructor.
  - repeat (constructor; try discriminate).
  - split; [simpl; auto|]. repeat constructor.
Defined.

(** C1 as stated fails in three ways.  A single bare source is not
    wrapped: the combined loader keeps the source itself and holds no
    [CycleIterator].  Such a source that gives fewer batches than it
    declares, three for a declared length of 7, makes the length 7 while a
    loop receives three elements.  And over a list with a source of length
    0 next to one of length 3, where [L] is 3, no loop over a combined
    loader constructed from it receives three elements. *)
Lemma longest_cycles_bare_source :
  (faithful seven = true /\
   is_max 7 (sizes (Leaf seven)) /\
   exists cl,
     snd (CombinedLoader.__init__ (Leaf seven) max_size_cycle) = Ok cl /\
     CombinedLoader.loaders cl = Leaf (Bare seven) /\
     forall c, CombinedLoader.loaders cl <> Leaf (Cycle c)) /\
  (declared overstated = Fin 7 /\
   exists cl,
     snd (CombinedLoader.__init__ (Leaf overstated) max_size_cycle) =
       Ok cl /\
     snd (CombinedLoader.__len__ cl) = Ok (Leaf (Fin 7)) /\
     for_loop CombinedLoaderIterator.__next__ 8
       (CombinedLoader.__iter__ cl) =
     ([Leaf (BData 1); Leaf (BData 2); Leaf (BData 3)], Exhausted)) /\
  (is_max 3 (sizes with_empty) /\
   forall cl fuel,
     snd (CombinedLoader.__init__ with_empty max_size_cycle) = Ok cl ->
     List.length
       (fst (for_loop CombinedLoaderIterator.__next__ fuel
               (CombinedLoader.__iter__ cl))) <> 3).
Proof.
  split; [|split].
  - split; [reflexivity|].
    split; [split; [simpl; auto|repeat constructor]|].
    eexists. split; [reflexivity|]. split; [reflexivity|].
    intros c. discriminate.
  - split; [reflexivity|].
    eexists. split; [reflexivity|]. split; reflexivity.
  - split; [split; [simpl; auto|repeat constructor]|].
    intros cl fuel Hinit. vm_compute in Hinit. injection Hinit as <-.
    destruct fuel as [|fuel]; simpl; discriminate.
Qed.

(** C2 fails on a container more than one level deep.  Over a list that
    holds a list of two sources, of lengths 3 and 7, construction in
    ['min_size'] mode succeeds and the minimum of the leaves' lengths is
    3, but the length of the combined loader is not 3:
    [_calc_num_batches] hands [min] the values computed for the members of
    the outermost list, here a single one for the whole inner list. *)
Lemma shortest_stops_nested :
  Forall (fun s => faithful s = true) (leaves nested) /\
  is_min 3 (sizes nested) /\
  exists cl,
    snd (CombinedLoader.__init__ nested min_size) = Ok cl /\
    snd (CombinedLoader.__len__ cl) <> Ok (Leaf (Fin 3)).
Proof.
  split; [repeat constructor|].
  split; [split; [simpl; auto|repeat constructor]|].
  eexists. split; [reflexivity|]. discriminate.
Qed.

(** C3.  A call of [next] on a session either returns a collection of the
    shape of the iterators with, at every leaf, the batch that leaf's
    iterator gave, or raises the exception of the first leaf that failed;
    so as soon as a leaf signals [StopIteration], the leaves before it
    having answered, the whole call raises [StopIteration] and nothing is
    returned. *)
Theorem all_or_nothing (self : CombinedLoaderIterator.t) :
  let its := snd (CombinedLoaderIterator.loader_iters self) in
  match snd (CombinedLoaderIterator.__next__ self) with
  | Ok out =>
      shape out = shape its /\
      map Ok (leaves out) = map pull (leaves its)
  | Err e => first_failure (map pull (leaves its)) = Some e
  end /\
  (forall pre it post,
     leaves its = pre ++ it :: post ->
     Forall (fun i => is_ok (pull i) = true) pre ->
     pull it = Err StopIteration ->
     snd (CombinedLoaderIterator.__next__ self) = Err StopIteration).
Proof.
  intros its. rewrite session_next_snd. fold its.
  unfold CombinedLoaderIterator.request_next_batch.
  pose proof (mut_outcome next_iterator its) as H.
  split; [exact H|].
  intros pre it post Hl Hpre Hit.
  assert (Hff : first_failure (map pull (leaves its)) = Some StopIteration).
  { rewrite Hl, map_app. simpl. rewrite Hit.
    apply first_failure_prefix. now apply Forall_map. }
  unfold pull in Hff.
  destruct (snd (apply_to_collection_mut next_iterator its)) as [out|e].
  - destruct H as [_ H]. rewrite <- H in Hff.
    clear - Hff. exfalso. induction (leaves out); simpl in Hff; auto.
    discriminate.
  - congruence.
Qed.

Lemma all_or_nothing_witness :
  snd (CombinedLoaderIterator.__next__
         (CombinedLoaderIterator.__init__
            (tmap Bare (Seq PyList [Leaf seven; Leaf nothing])))) =
  Err StopIteration.
Proof.
  apply (proj2 (all_or_nothing
                  (CombinedLoaderIterator.__init__
                     (tmap Bare (Seq PyList [Leaf seven; Leaf nothing]))))
           [bare_at 0 seven] (bare_at 0 nothing) []).
  - reflexivity.
  - repeat constructor.
  - reflexivity.
Defined.

(** C4.  Every successful return of [__next__] moves the counter by
    exactly one; with a finite budget a call whose counter has reached it
    raises [StopIteration] and changes nothing, and after [__iter__] no
    run of calls succeeds more often than the budget; with an unbounded
    budget [StopIteration] only ever comes from the wrapped source, when
    its live iterator and a fresh one are both exhausted, and a source
    that is not empty is replayed for ever. *)
Theorem cycle_budget :
  (forall c c' b,
     CycleIterator.__next__ c = (c', Ok b) ->
     CycleIterator.counter c' = S (CycleIterator.counter c)) /\
  (forall c n,
     CycleIterator.length c = Leaf (Fin n) ->
     n <= CycleIterator.counter c ->
     CycleIterator.__next__ c = (c, Err StopIteration)) /\
  (forall c n m,
     CycleIterator.length c = Leaf (Fin n) ->
     successes (snd (calls CycleIterator.__next__ m
                       (CycleIterator.__iter__ c))) <= n) /\
  (forall c c',
     CycleIterator.length c = Leaf Inf ->
     CycleIterator.__next__ c = (c', Err StopIteration) ->
     (exists it, CycleIterator._loader_iter c = Some it /\
                 snd (py_next it) = Err StopIteration) /\
     snd (py_next (py_iter (CycleIterator.loader c))) = Err StopIteration) /\
  (forall s m,
     faithful s = true -> dl_batches s <> [] ->
     snd (calls CycleIterator.__next__ m
            (CycleIterator.__iter__
               (CycleIterator.__init__ (Leaf s) None))) =
     map (fun k => Ok (batch_at s (k mod size s))) (seq 0 m)).
Proof.
  split; [exact cycle_next_ok_counter|].
  split.
  { intros c n Hlen Hn. unfold CycleIterator.__next__, CycleIterator.__len__.
    rewrite Hlen. simpl. apply Nat.leb_le in Hn. now rewrite Hn. }
  split.
  { intros c n m Hlen.
    pose proof (cycle_calls_bound n m (CycleIterator.__iter__ c) Hlen
                  (Nat.le_0_l n)) as H.
    simpl in H. lia. }
  split.
  { intros c c' Hlen Hnext.
    assert (Hopen : budget_open c).
    { unfold budget_open, CycleIterator.__len__. now rewrite Hlen. }
    destruct (CycleIterator._loader_iter c) as [it|] eqn:Eit.
    - rewrite (cycle_next_open c it Hopen Eit) in Hnext.
      destruct (py_next it) as [it' [b|e]] eqn:Ept; [discriminate|].
      destruct e; try (injection Hnext; discriminate).
      injection Hnext as _ Hr. split; [|exact Hr].
      exists it. rewrite Ept. auto.
    - unfold CycleIterator.__next__ in Hnext.
      unfold budget_open in Hopen. rewrite Hopen in Hnext.
      unfold CycleIterator.fetch in Hnext. rewrite Eit in Hnext.
      discriminate. }
  intros s m Hf Hne.
  assert (Hn : 0 < size s).
  { unfold size. destruct (dl_batches s); [congruence|simpl; lia]. }
  change (CycleIterator.__iter__ (CycleIterator.__init__ (Leaf s) None))
    with (cycle_state Inf 0 s).
  apply (calls_run CycleIterator.__next__ (fun k => cycle_state Inf k s)
           (fun k => batch_at s (k mod size s))).
  intros k. now apply cycle_state_next.
Qed.

Lemma cycle_budget_witness :
  CycleIterator.counter
    (fst (CycleIterator.__next__ (cycle_state (Fin 7) 3 three))) = 4 /\
  CycleIterator.__next__ (cycle_state (Fin 7) 7 three) =
    (cycle_state (Fin 7) 7 three, Err StopIteration) /\
  successes (snd (calls CycleIterator.__next__ 20
                    (CycleIterator.__iter__ (cycle_state (Fin 7) 0 three))))
    <= 7 /\
  snd (py_next (py_iter (Leaf nothing))) = Err StopIteration /\
  snd (calls CycleIterator.__next__ 5
         (CycleIterator.__iter__ (CycleIterator.__init__ (Leaf three) None)))
  = map (fun k => Ok (batch_at three (k mod size three))) (seq 0 5).
Proof.
  destruct cycle_budget as (H1 & H2 & H3 & H4 & H5).
  split; [|split; [|split; [|split]]].
  - apply (H1 (cycle_state (Fin 7) 3 three) _ (BData 10)). reflexivity.
  - apply (H2 (cycle_state (Fin 7) 7 three) 7); [reflexivity|].
    apply Nat.le_refl.
  - apply (H3 (cycle_state (Fin 7) 0 three) 7 20). reflexivity.
  - apply (H4 (CycleIterator.__iter__
                 (CycleIterator.__init__ (Leaf nothing) None))
              (stepped (CycleIterator.__iter__
                          (CycleIterator.__init__ (Leaf nothing) None))
                 (ItSrc []))); reflexivity.
  - apply (H5 three 5); [reflexivity|discriminate].
Defined.

(** C5.  Past the budget check, what [__next__] does is decided by the
    pull on the live iterator.  A batch is returned as it is and the
    iterator is kept.  [StopIteration], and nothing else, makes it take a
    fresh iterator of the wrapped source and pull it once: whatever that
    pull gives, a batch, [StopIteration] from an empty source or a failure,
    is the outcome, and the iterator kept is the fresh one after that one
    pull.  Any other failure is the outcome at once and the iterator kept
    is the one that failed, not a fresh one.  The counter moves by one in
    every case. *)
Theorem cycle_restart (c : CycleIterator.t) (it : raw_iter) :
  budget_open c ->
  CycleIterator._loader_iter c = Some it ->
  (forall it' b,
     py_next it = (it', Ok b) ->
     CycleIterator.__next__ c = (stepped c it', Ok b)) /\
  (forall it',
     py_next it = (it', Err StopIteration) ->
     CycleIterator.__next__ c =
       (stepped c (fst (py_next (py_iter (CycleIterator.loader c)))),
        snd (py_next (py_iter (CycleIterator.loader c))))) /\
  (forall it' e,
     py_next it = (it', Err e) -> e <> StopIteration ->
     CycleIterator.__next__ c = (stepped c it', Err e)).
Proof.
  intros Hopen Hit. rewrite (cycle_next_open c it Hopen Hit).
  split; [|split].
  - intros it' b ->. reflexivity.
  - intros it' ->. reflexivity.
  - intros it' e -> He. destruct e; congruence.
Qed.

Lemma cycle_restart_witness :
  CycleIterator.__next__ (cycle_state (Fin 7) 3 three) =
    (cycle_state (Fin 7) 4 three, Ok (BData 10)) /\
  CycleIterator.__next__
    (CycleIterator.__iter__ (CycleIterator.__init__ (Leaf nothing) None)) =
    (stepped (CycleIterator.__iter__
                (CycleIterator.__init__ (Leaf nothing) None)) (ItSrc []),
     Err StopIteration) /\
  CycleIterator.__next__ (cycle_state Inf 1 faulty) =
    (stepped (cycle_state Inf 1 faulty) (ItSrc []), Err (SourceError 9)).
Proof.
  split; [|split].
  - apply (proj1 (proj2 (cycle_restart (cycle_state (Fin 7) 3 three)
                           (ItSrc []) eq_refl eq_refl)) (ItSrc [])).
    reflexivity.
  - apply (proj1 (proj2 (cycle_restart
                           (CycleIterator.__iter__
                              (CycleIterator.__init__ (Leaf nothing) None))
                           (ItSrc []) eq_refl eq_refl)) (ItSrc [])).
    reflexivity.
  - apply (proj2 (proj2 (cycle_restart (cycle_state Inf 1 faulty)
                           (ItSrc [Fault 9]) eq_refl eq_refl))
             (ItSrc []) (SourceError 9)); [reflexivity|discriminate].
Defined.

(** C6.  The container a session is created over is the [loaders] handed
    to [CombinedLoaderIterator], whatever its depth.  At every call the
    session holds one iterator for each leaf of that container, in its
    place; and the call, whatever the calls before it did, either returns
    a collection of the shape of the container (the same kind of node at
    every position, lists staying lists and tuples tuples, and the same
    keys in the same order in every mapping) whose leaves are the batches
    that the leaves' iterators gave to this call, or raises the exception
    of the first leaf that failed.  In lockstep: as long as every leaf,
    taken by itself, gives a batch, the [k]-th element returned is the
    container with every leaf replaced by the [k]-th batch of that leaf.
    For the session of a combined loader, in ['min_size'] mode at any
    depth and in ['max_size_cycle'] mode over a container one level deep,
    that container is the container of sources the loader was constructed
    from, every source in its place, bare or wrapped in its
    [CycleIterator]: every element returned has the shape of the input
    container, and the [k]-th is the input container with every source
    replaced by its [k]-th batch. *)
Theorem shape_preserved (ld : tree loader) :
  let start := CombinedLoaderIterator.__init__ ld in
  let after k := fst (calls CombinedLoaderIterator.__next__ k start) in
  (forall k,
     let its := snd (CombinedLoaderIterator.loader_iters (after k)) in
     shape its = shape ld /\
     match snd (CombinedLoaderIterator.__next__ (after k)) with
     | Ok out =>
         shape out = shape ld /\
         map Ok (leaves out) = map pull (leaves its)
     | Err e => first_failure (map pull (leaves its)) = Some e
     end) /\
  (forall n (bs : loader -> list Batch),
     (forall l, In l (leaves ld) -> alone l n = map Ok (bs l)) ->
     snd (calls CombinedLoaderIterator.__next__ n start) =
     map (fun k => Ok (tmap (fun l => nth k (bs l) (BData 0)) ld))
       (seq 0 n)) /\
  (forall (t : tree Source) (mode : string) (cl : CombinedLoader.t),
     snd (CombinedLoader.__init__ t mode) = Ok cl ->
     mode = min_size \/ flat t = true ->
     exists w : Source -> loader,
       (forall s, holds_source s (w s)) /\
       CombinedLoader.loaders cl = tmap w t /\
       (forall k out,
          snd (CombinedLoaderIterator.__next__
                 (fst (calls CombinedLoaderIterator.__next__ k
                         (CombinedLoader.__iter__ cl)))) = Ok out ->
          shape out = shape t) /\
       (forall n (bs : Source -> list Batch),
          (forall s, In s (leaves t) -> alone (w s) n = map Ok (bs s)) ->
          snd (calls CombinedLoaderIterator.__next__ n
                 (CombinedLoader.__iter__ cl)) =
          map (fun k => Ok (tmap (fun s => nth k (bs s) (BData 0)) t))
            (seq 0 n))).
Proof.
  intros start after. split; [|split].
  - intros k. exact (session_call ld k).
  - intros n bs Halone. unfold start.
    rewrite <- (tmap_id ld) at 1.
    apply (session_lockstep (fun l => l) ld n bs Halone).
  - intros t mode cl Hinit Hscope.
    destruct (loaders_in_place t mode cl Hinit Hscope) as (w & Hw & Hld).
    exists w. split; [exact Hw|]. split; [exact Hld|]. split.
    + intros k out Hout. unfold CombinedLoader.__iter__ in Hout.
      destruct (session_call (CombinedLoader.loaders cl) k) as [_ H].
      rewrite Hout in H. destruct H as [H _]. rewrite H, Hld.
      apply shape_tmap.
    + intros n bs Halone. unfold CombinedLoader.__iter__. rewrite Hld.
      now apply session_lockstep.
Qed.

Lemma shape_preserved_witness :
  snd (calls CombinedLoaderIterator.__next__ 4
         (CombinedLoader.__iter__ cycled_pair)) =
  [Ok (Seq PyList [Leaf (BData 10); Leaf (BData 20)]);
   Ok (Seq PyList [Leaf (BData 11); Leaf (BData 21)]);
   Ok (Seq PyList [Leaf (BData 12); Leaf (BData 22)]);
   Ok (Seq PyList [Leaf (BData 10); Leaf (BData 23)])] /\
  (forall k out,
     snd (CombinedLoaderIterator.__next__
            (fst (calls CombinedLoaderIterator.__next__ k
                    (CombinedLoader.__iter__ cycled_pair)))) = Ok out ->
     shape out = shape side_by_side).
Proof.
  destruct (shape_preserved (CombinedLoader.loaders cycled_pair))
    as (_ & H2 & H3).
  split.
  - apply (H2 4 (fun l => map batch_of (alone l 4))).
    intros l [<-|[<-|[]]]; reflexivity.
  - destruct (H3 side_by_side max_size_cycle cycled_pair eq_refl
                (or_intror eq_refl)) as (w & _ & _ & Hshape & _).
    exact Hshape.
Defined.

(** C7, as amended.  With a mode that is neither ['min_size'] nor
    ['max_size_cycle'] construction fails with
    [MisconfigurationException]; before it fails it has read the [dataset]
    attribute of every source, once each and in the order of the
    traversal, and it has asked no source for its length or for an
    iterator. *)
Theorem unsupported_mode (t : tree Source) (mode : string) :
  mode <> min_size -> mode <> max_size_cycle ->
  CombinedLoader.__init__ t mode =
    (map (Touch (Getattr "dataset")) (leaves t),
     Err MisconfigurationException).
Proof.
  intros H1 H2. unfold CombinedLoader.__init__.
  pose proof (apply_to_collection_fst getattr_dataset t) as Hev.
  destruct (apply_to_collection getattr_dataset t) as [ev ds].
  simpl in Hev. rewrite flat_map_singleton in Hev. subst ev.
  unfold CombinedDataset.__init__, CombinedDataset.COMPUTE_FUNCS.
  apply String.eqb_neq in H1, H2. unfold min_size, max_size_cycle in *.
  now rewrite H1, H2.
Qed.

Lemma unsupported_mode_witness :
  CombinedLoader.__init__ side_by_side "sum" =
    ([Touch (Getattr "dataset") three; Touch (Getattr "dataset") seven],
     Err MisconfigurationException).
Proof.
  apply (unsupported_mode side_by_side "sum"); discriminate.
Defined.

(** C7 as stated fails: with the unsupported mode ["sum"] construction does
    fail with [MisconfigurationException], but not before touching the
    sources: the [dataset] attribute of both has been read. *)
Lemma unsupported_mode_touches :
  snd (CombinedLoader.__init__ side_by_side "sum") =
    Err MisconfigurationException /\
  fst (CombinedLoader.__init__ side_by_side "sum") =
    [Touch (Getattr "dataset") three; Touch (Getattr "dataset") seven] /\
  fst (CombinedLoader.__init__ side_by_side "sum") <> [].
Proof. split; [reflexivity|]. split; [reflexivity|discriminate]. Qed.

(** C8.  Over an empty sequence or an empty mapping every aggregate length
    fails with the [ValueError] of [min] or [max] on an empty argument:
    the length of a [CombinedDataset] in either mode, the length of a
    [CombinedLoader], and the budget computed when a [CombinedLoader] is
    constructed in ['max_size_cycle'] mode. *)
Theorem empty_container (k : seq_kind) :
  CombinedDataset._calc_num_data (Seq k []) min_size = Err ValueError /\
  CombinedDataset._calc_num_data (Seq k []) max_size_cycle = Err ValueError /\
  CombinedDataset._calc_num_data (Map []) min_size = Err ValueError /\
  CombinedDataset._calc_num_data (Map []) max_size_cycle = Err ValueError /\
  snd (CombinedLoader._calc_num_batches (Seq k [])) = Err ValueError /\
  snd (CombinedLoader._calc_num_batches (Map [])) = Err ValueError /\
  snd (CombinedLoader._wrap_loaders_max_size_cycle (Seq k [])) =
    Err ValueError /\
  snd (CombinedLoader._wrap_loaders_max_size_cycle (Map [])) =
    Err ValueError /\
  snd (CombinedLoader.__init__ (Seq k []) max_size_cycle) = Err ValueError /\
  snd (CombinedLoader.__init__ (Map []) max_size_cycle) = Err ValueError.
Proof. repeat split; reflexivity. Qed.

(** C9 fails on datasets more than one level deep.  Over a list of two
    lists of datasets, of 12 and 28 samples and of 13 samples, the greatest
    of the leaves' lengths is 28 and the least is 12, but whatever the mode
    [max_len] is not 28 and [min_len] is not 12: [_calc_num_data] hands
    [max] or [min] one value for each member of the outermost list. *)
Lemma dataset_views_nested :
  is_greatest (Fin 28) (map declared_dataset (leaves nested_datasets)) /\
  is_least (Fin 12) (map declared_dataset (leaves nested_datasets)) /\
  forall mode,
    CombinedDataset.max_len
      {| CombinedDataset.datasets := nested_datasets;
         CombinedDataset.mode := mode |} <> Ok (Leaf (Fin 28)) /\
    CombinedDataset.min_len
      {| CombinedDataset.datasets := nested_datasets;
         CombinedDataset.mode := mode |} <> Ok (Leaf (Fin 12)).
Proof.
  split; [split; [simpl; auto|repeat constructor]|].
  split; [split; [simpl; auto|repeat constructor]|].
  intros mode. split; discriminate.
Qed.

(** C10 fails on datasets more than one level deep.  Over the same list of
    two lists of datasets the length of a [CombinedDataset] is not the
    greatest of the leaves' lengths, 28, in ['max_size_cycle'] mode, nor
    the least, 12, in ['min_size'] mode: [__len__] goes through the same
    [_calc_num_data]. *)
Lemma dataset_len_nested :
  is_greatest (Fin 28) (map declared_dataset (leaves nested_datasets)) /\
  is_least (Fin 12) (map declared_dataset (leaves nested_datasets)) /\
  CombinedDataset.__len__
    {| CombinedDataset.datasets := nested_datasets;
       CombinedDataset.mode := max_size_cycle |} <> Ok (Leaf (Fin 28)) /\
  CombinedDataset.__len__
    {| CombinedDataset.datasets := nested_datasets;
       CombinedDataset.mode := min_size |} <> Ok (Leaf (Fin 12)).
Proof.
  split; [split; [simpl; auto|repeat constructor]|].
  split; [split; [simpl; auto|repeat constructor]|].
  split; discriminate.
Qed.

(** * Further properties *)

(** ** CycleIterator and the combined loader *)

Lemma calls_fst_succ {St B} (next : St -> St * result B) (n : nat) (s : St) :
  fst (calls next (S n) s) = fst (calls next n (fst (next s))).
Proof.
  simpl. destruct (next s) as [s' r]. simpl.
  now destruct (calls next n s').
Qed.

Lemma cycle_calls_fields (n : nat) : forall c,
  CycleIterator.length (fst (calls CycleIterator.__next__ n c)) =
    CycleIterator.length c /\
  CycleIterator.loader (fst (calls CycleIterator.__next__ n c)) =
    CycleIterator.loader c.
Proof.
  induction n as [|n IH]; intros c; [now split|].
  rewrite calls_fst_succ.
  destruct (IH (fst (CycleIterator.__next__ c))) as [H1 H2].
  destruct (cycle_next_fields c) as [H3 H4]. split; congruence.
Qed.

(** X1.  [__iter__] starts a [CycleIterator] afresh wherever the calls of
    [__next__] have taken it: a second pass gives what the first gave. *)
Theorem cycle_iterator_restarts (c : CycleIterator.t) (n m : nat) :
  CycleIterator.__iter__
    (fst (calls CycleIterator.__next__ n (CycleIterator.__iter__ c))) =
  CycleIterator.__iter__ c /\
  snd (calls CycleIterator.__next__ m
         (CycleIterator.__iter__
            (fst (calls CycleIterator.__next__ n
                    (CycleIterator.__iter__ c))))) =
  snd (calls CycleIterator.__next__ m (CycleIterator.__iter__ c)).
Proof.
  assert (H : CycleIterator.__iter__
                (fst (calls CycleIterator.__next__ n
                        (CycleIterator.__iter__ c))) =
              CycleIterator.__iter__ c).
  { destruct (cycle_calls_fields n (CycleIterator.__iter__ c)) as [H1 H2].
    unfold CycleIterator.__iter__ at 1. rewrite H1, H2. reflexivity. }
  split; [exact H|now rewrite H].
Qed.

Lemma least_of_constant {A} (g : Length) (l : list A) :
  l <> [] -> is_least g (map (fun _ => g) l).
Proof.
  intros Hl. split.
  - destruct l; [congruence|now left].
  - apply Forall_map. apply Forall_forall. intros. apply Length_le_refl.
Qed.

(** X2.  The length of a combined loader over a container one level deep, with
    sources that may lack [__len__] (they count as unbounded): in
    ['min_size'] mode it is the least of the declared lengths, so a source
    without a length is ignored as soon as another has one; in
    ['max_size_cycle'] mode it is the greatest, so one source without a
    length makes the whole loader unbounded. *)
Theorem combined_length (t : tree Source) (m g : Length) :
  flat t = true ->
  is_least m (map declared (leaves t)) ->
  is_greatest g (map declared (leaves t)) ->
  (exists cl,
     snd (CombinedLoader.__init__ t min_size) = Ok cl /\
     snd (CombinedLoader.__len__ cl) = Ok (Leaf m)) /\
  (exists cl,
     snd (CombinedLoader.__init__ t max_size_cycle) = Ok cl /\
     snd (CombinedLoader.__len__ cl) = Ok (Leaf g)).
Proof.
  intros Hflat Hm Hg. split.
  - eexists. split; [apply init_min_size|].
    unfold CombinedLoader.__len__. simpl CombinedLoader.loaders.
    rewrite calc_num_batches_snd, tmap_tmap.
    now apply (min_flat (fun s => snd (get_len (Bare s)))).
  - assert (Hleaves : leaves t <> []).
    { destruct Hg as [Hin _]. destruct (leaves t); [destruct Hin|discriminate]. }
    pose proof (max_flat declared t g Hflat Hg) as Hred.
    pose proof (init_max_size_cycle t) as Hinit.
    rewrite wrap_snd, Hred in Hinit.
    assert (Hbudget : forall s : Source,
              snd (get_len (Cycle (CycleIterator.__init__ (Leaf s)
                                     (Some (Leaf g))))) = g).
    { intros s. simpl. now destruct g. }
    destruct t as [s|k vs|kvs].
    + eexists. split; [exact Hinit|].
      destruct Hg as [[Hg|[]] _]. simpl in Hg. subst g. reflexivity.
    + simpl in Hflat.
      rewrite (flat_wrap (fun v => Cycle (CycleIterator.__init__ v
                                            (Some (Leaf g)))) vs Hflat)
        in Hinit.
      eexists. split; [exact Hinit|].
      unfold CombinedLoader.__len__. simpl CombinedLoader.loaders.
      rewrite calc_num_batches_snd.
      change (Seq k (map (tmap ?w) vs)) with (tmap w (Seq k vs)).
      rewrite tmap_tmap. apply min_flat; [exact Hflat|].
      rewrite (map_ext _ (fun _ => g) Hbudget).
      now apply least_of_constant.
    + simpl in Hflat.
      rewrite (flat_wrap_kv (fun v => Cycle (CycleIterator.__init__ v
                                               (Some (Leaf g))))
                 kvs Hflat) in Hinit.
      eexists. split; [exact Hinit|].
      unfold CombinedLoader.__len__. simpl CombinedLoader.loaders.
      rewrite calc_num_batches_snd.
      change (Map (map (fun kv => (fst kv, tmap ?w (snd kv))) kvs))
        with (tmap w (Map kvs)).
      rewrite tmap_tmap. apply min_flat; [exact Hflat|].
      rewrite (map_ext _ (fun _ => g) Hbudget).
      now apply least_of_constant.
Qed.

Lemma combined_length_witness :
  (exists cl,
     snd (CombinedLoader.__init__
            (Seq PyTuple [Leaf endless; Leaf three]) min_size) = Ok cl /\
     snd (CombinedLoader.__len__ cl) = Ok (Leaf (Fin 3))) /\
  (exists cl,
     snd (CombinedLoader.__init__
            (Seq PyTuple [Leaf endless; Leaf three]) max_size_cycle) = Ok cl /\
     snd (CombinedLoader.__len__ cl) = Ok (Leaf Inf)).
Proof.
  apply (combined_length (Seq PyTuple [Leaf endless; Leaf three])
           (Fin 3) Inf).
  - reflexivity.
  - split; [simpl; auto|]. repeat constructor.
  - split; [simpl; auto|]. repeat constructor.
Defined.

(** ** Sources that do not declare a length *)

Lemma steady_nth s k :
  steady s = true -> k < size s ->
  exists b, nth k (dl_batches s) (Item 0) = Item b /\ batch_at s k = BData b.
Proof.
  unfold steady, size, batch_at. intros H Hk.
  rewrite forallb_forall in H.
  specialize (H _ (nth_In (dl_batches s) (Item 0) Hk)).
  destruct (nth k (dl_batches s) (Item 0)) as [b|c]; [|discriminate].
  now exists b.
Qed.

Lemma pull_steady s k :
  steady s = true ->
  py_next (ItSrc (skipn k (dl_batches s))) =
    if Nat.ltb k (size s)
    then (ItSrc (skipn (S k) (dl_batches s)), Ok (batch_at s k))
    else (ItSrc [], Err StopIteration).
Proof.
  intros Hf. destruct (Nat.ltb k (size s)) eqn:E.
  - apply Nat.ltb_lt in E.
    destruct (steady_nth _ _ Hf E) as (b & Hb & ->).
    rewrite (skipn_nth (Item 0)) by exact E. now rewrite Hb.
  - apply Nat.ltb_ge in E. now rewrite skipn_all2 by exact E.
Qed.

Lemma next_bare_steady s k :
  steady s = true ->
  next_iterator (bare_at k s) =
    if Nat.ltb k (size s)
    then (bare_at (S k) s, Ok (batch_at s k))
    else (ItRaw (ItSrc []), Err StopIteration).
Proof.
  intros Hf. unfold bare_at, next_iterator. rewrite (pull_steady s k Hf).
  now destruct (Nat.ltb k (size s)).
Qed.

Lemma cycle_state_next_steady l s k :
  steady s = true -> 0 < size s ->
  py_ge k (Leaf l) = Ok false ->
  CycleIterator.__next__ (cycle_state l k s) =
    (cycle_state l (S k) s, Ok (batch_at s (k mod size s))).
Proof.
  intros Hf Hn Hopen.
  assert (Hfresh : py_next (py_iter (Leaf s)) =
                   (ItSrc (skipn 1 (dl_batches s)), Ok (batch_at s 0))).
  { pose proof (pull_steady s 0 Hf) as H. simpl skipn at 1 in H.
    apply Nat.ltb_lt in Hn. rewrite Hn in H. exact H. }
  unfold cycle_state.
  rewrite cycle_next_open
    with (it := ItSrc (skipn (into_pass (size s) k) (dl_batches s)));
    [|exact Hopen|reflexivity].
  rewrite (pull_steady s _ Hf). unfold stepped. simpl CycleIterator.loader.
  rewrite Hfresh.
  destruct (into_pass_spec _ k Hn) as [[Hlt Heq]|[Heq Hz]].
  - apply Nat.ltb_lt in Hlt. rewrite Hlt. simpl. now rewrite Heq.
  - rewrite Heq, Nat.ltb_irrefl. simpl. now rewrite Hz.
Qed.

Lemma for_loop_unfinished {St B} (next : St -> St * result B)
    (st : nat -> St) (out : nat -> B) :
  (forall k, next (st k) = (st (S k), Ok (out k))) ->
  forall fuel k,
    for_loop next fuel (st k) = (map out (seq k fuel), Unfinished).
Proof.
  intros Hstep. induction fuel as [|fuel IH]; intros k; simpl;
    [reflexivity|].
  now rewrite Hstep, IH.
Qed.

(** X3.  In ['max_size_cycle'] mode, over a sequence or mapping of sources that
    are not empty and do not fail, one of which has no [__len__]: every
    source is wrapped with an unbounded budget and the session never ends;
    as many calls of [next] as are made succeed, the [k]-th giving batch
    [k mod n] of every source of [n] batches. *)
Theorem cycles_for_ever (t : tree Source) :
  flat t = true -> is_leaf t = false ->
  Forall (fun s => steady s = true) (leaves t) ->
  Forall (fun s => dl_batches s <> []) (leaves t) ->
  is_greatest Inf (map declared (leaves t)) ->
  exists cl,
    snd (CombinedLoader.__init__ t max_size_cycle) = Ok cl /\
    forall fuel,
      for_loop CombinedLoaderIterator.__next__ fuel
        (CombinedLoader.__iter__ cl) =
      (map (fun k => tmap (fun s => batch_at s (k mod size s)) t)
         (seq 0 fuel),
       Unfinished).
Proof.
  intros Hflat Hnl Hf Hne Hg.
  pose proof (max_flat declared t Inf Hflat Hg) as Hred.
  pose proof (init_max_size_cycle t) as Hinit.
  rewrite wrap_snd, Hred in Hinit.
  rewrite Forall_forall in Hf, Hne.
  assert (Hrun : forall fuel,
            for_loop CombinedLoaderIterator.__next__ fuel
              (CombinedLoaderIterator.__init__
                 (tmap (fun s => Cycle (CycleIterator.__init__ (Leaf s)
                                          (Some (Leaf Inf)))) t)) =
            (map (fun k => tmap (fun s => batch_at s (k mod size s)) t)
               (seq 0 fuel), Unfinished)).
  { intros fuel. rewrite for_loop_created.
    unfold CombinedLoaderIterator.create_loader_iters.
    rewrite apply_to_collection_snd, tmap_tmap. simpl.
    set (ld := tmap (fun s => Cycle _) t).
    change (tmap (fun a => ItCycle _) t) with (tmap (cycled_at Inf 0) t).
    apply (for_loop_unfinished CombinedLoaderIterator.__next__
             (fun k => session ld (tmap (cycled_at Inf k) t))
             (fun k => tmap (fun s => batch_at s (k mod size s)) t)).
    intros k. rewrite session_next.
    unfold CombinedLoaderIterator.request_next_batch.
    rewrite (mut_all_ok next_iterator (cycled_at Inf k)
               (cycled_at Inf (S k))
               (fun s => batch_at s (k mod size s))); [reflexivity|].
    intros s Hs. unfold cycled_at, next_iterator.
    rewrite (cycle_state_next_steady Inf s k); [reflexivity| | |reflexivity].
    - now apply Hf.
    - specialize (Hne s Hs). unfold size.
      destruct (dl_batches s); [congruence|simpl; lia]. }
  destruct t as [s|k vs|kvs]; [discriminate Hnl| |].
  - simpl in Hflat.
    rewrite (flat_wrap (fun v => Cycle (CycleIterator.__init__ v
                                          (Some (Leaf Inf)))) vs Hflat)
      in Hinit.
    eexists. split; [exact Hinit|]. exact Hrun.
  - simpl in Hflat.
    rewrite (flat_wrap_kv (fun v => Cycle (CycleIterator.__init__ v
                                             (Some (Leaf Inf))))
               kvs Hflat) in Hinit.
    eexists. split; [exact Hinit|]. exact Hrun.
Qed.

Lemma cycles_for_ever_witness :
  exists cl,
    snd (CombinedLoader.__init__
           (Seq PyTuple [Leaf endless; Leaf three]) max_size_cycle) = Ok cl /\
    forall fuel,
      for_loop CombinedLoaderIterator.__next__ fuel
        (CombinedLoader.__iter__ cl) =
      (map (fun k => tmap (fun s => batch_at s (k mod size s))
                       (Seq PyTuple [Leaf endless; Leaf three]))
         (seq 0 fuel),
       Unfinished).
Proof.
  apply (cycles_for_ever (Seq PyTuple [Leaf endless; Leaf three])).
  - reflexivity.
  - reflexivity.
  - repeat constructor.
  - repeat (constructor; try discriminate).
  - split; [simpl; auto|]. repeat constructor.
Defined.

Lemma session_bare_steady (t : tree Source) (m : nat) :
  Forall (fun s => steady s = true) (leaves t) ->
  is_min m (sizes t) ->
  forall fuel, m < fuel ->
    for_loop CombinedLoaderIterator.__next__ fuel
      (CombinedLoaderIterator.__init__ (tmap Bare t)) =
    (map (fun k => tmap (fun s => batch_at s k) t) (seq 0 m), Exhausted).
Proof.
  intros Hf Hm fuel Hfuel. rewrite Forall_forall in Hf.
  destruct (is_min_reached _ _ Hm) as [Hle (s0 & Hs0 & Hsize0)].
  rewrite for_loop_created.
  unfold CombinedLoaderIterator.create_loader_iters.
  rewrite apply_to_collection_snd, tmap_tmap. simpl.
  change (tmap (fun a => ItRaw (ItSrc (dl_batches a))) t)
    with (tmap (bare_at 0) t).
  apply (for_loop_run CombinedLoaderIterator.__next__
           (fun k => session (tmap Bare t) (tmap (bare_at k) t))
           (fun k => tmap (fun s => batch_at s k) t) m);
    [| |lia|exact Hfuel].
  - intros k Hk. rewrite session_next.
    unfold CombinedLoaderIterator.request_next_batch.
    rewrite (mut_all_ok next_iterator (bare_at k) (bare_at (S k))
               (fun s => batch_at s k)); [reflexivity|].
    intros s Hs. rewrite (next_bare_steady s k (Hf s Hs)).
    specialize (Hle s Hs).
    assert (E : Nat.ltb k (size s) = true) by (apply Nat.ltb_lt; lia).
    now rewrite E.
  - rewrite session_next. simpl.
    unfold CombinedLoaderIterator.request_next_batch.
    apply mut_signal.
    + intros a Ha. rewrite leaves_tmap in Ha. apply in_map_iff in Ha.
      destruct Ha as (s & <- & Hs). rewrite (next_bare_steady s m (Hf s Hs)).
      destruct (Nat.ltb m (size s)); simpl; auto.
    + exists (bare_at m s0). split.
      * rewrite leaves_tmap. now apply in_map.
      * rewrite (next_bare_steady s0 m (Hf s0 Hs0)), Hsize0, Nat.ltb_irrefl.
        reflexivity.
Qed.

(** X4.  A combined loader over a single bare source never wraps it: in either
    mode the loader holds the source itself, its length is the length the
    source declares, unbounded if it declares none, and a session is one
    pass over the source, which ends after its last batch whatever the
    length says. *)
Theorem single_loader_one_pass (s : Source) (mode : string) :
  steady s = true ->
  mode = min_size \/ mode = max_size_cycle ->
  exists cl,
    snd (CombinedLoader.__init__ (Leaf s) mode) = Ok cl /\
    CombinedLoader.loaders cl = Leaf (Bare s) /\
    snd (CombinedLoader.__len__ cl) = Ok (Leaf (declared s)) /\
    forall fuel, size s < fuel ->
      for_loop CombinedLoaderIterator.__next__ fuel
        (CombinedLoader.__iter__ cl) =
      (map (fun k => Leaf (batch_at s k)) (seq 0 (size s)), Exhausted).
Proof.
  intros Hs Hmode.
  assert (Hmin : is_min (size s) (sizes (Leaf s))).
  { split; [now left|]. repeat constructor. }
  assert (Hf : Forall (fun s => steady s = true) (leaves (Leaf s))).
  { now repeat constructor. }
  destruct Hmode as [-> | ->]; eexists.
  - split; [apply init_min_size|]. split; [reflexivity|].
    split; [reflexivity|]. intros fuel Hfuel.
    exact (session_bare_steady (Leaf s) (size s) Hf Hmin fuel Hfuel).
  - split; [rewrite init_max_size_cycle, wrap_snd; reflexivity|].
    split; [reflexivity|]. split; [reflexivity|]. intros fuel Hfuel.
    exact (session_bare_steady (Leaf s) (size s) Hf Hmin fuel Hfuel).
Qed.

Lemma single_loader_one_pass_witness :
  exists cl,
    snd (CombinedLoader.__init__ (Leaf endless) max_size_cycle) = Ok cl /\
    CombinedLoader.loaders cl = Leaf (Bare endless) /\
    snd (CombinedLoader.__len__ cl) = Ok (Leaf Inf) /\
    forall fuel, 2 < fuel ->
      for_loop CombinedLoaderIterator.__next__ fuel
        (CombinedLoader.__iter__ cl) =
      ([Leaf (BData 1); Leaf (BData 2)], Exhausted).
Proof.
  apply (single_loader_one_pass endless max_size_cycle);
    [reflexivity|now right].
Defined.

(** ** What a call of [next] does to the iterators *)

Lemma visited_app {A B} (f : A -> A * result B) (l1 l2 : list A) :
  visited f (l1 ++ l2) =
  match first_failure (map (fun a => snd (f a)) l1) with
  | None => visited f l1 ++ visited f l2
  | Some _ => visited f l1 ++ l2
  end.
Proof.
  induction l1 as [|a l1 IH]; simpl; [reflexivity|].
  destruct (f a) as [a' [b|e]]; simpl; [|reflexivity].
  rewrite IH. now destruct (first_failure _).
Qed.

Lemma first_failure_all_ok {B} (ys : list B) :
  first_failure (map Ok ys) = None.
Proof. induction ys; simpl; auto. Qed.

Lemma each_in_turn_visited {X Y A B} (step : X -> X * result Y)
    (f : A -> A * result B) (lv : X -> list A) (l : list X) :
  Forall (fun x =>
            lv (fst (step x)) = visited f (lv x) /\
            (is_ok (snd (step x)) = true <->
             first_failure (map (fun a => snd (f a)) (lv x)) = None)) l ->
  flat_map lv (fst (each_in_turn step l)) = visited f (flat_map lv l).
Proof.
  induction 1 as [|x l [Hx Hok] _ IH]; simpl; [reflexivity|].
  rewrite visited_app.
  destruct (step x) as [x' [y|e]]; simpl in *.
  - destruct Hok as [Hok _]. rewrite (Hok eq_refl).
    destruct (each_in_turn step l) as [l' [ys|e]]; simpl in *;
      now rewrite Hx, IH.
  - destruct (first_failure _) as [e'|].
    + now rewrite Hx.
    + destruct Hok as [_ Hok]. discriminate (Hok eq_refl).
Qed.

Lemma mut_ok_iff {A B} (f : A -> A * result B) (t : tree A) :
  is_ok (snd (apply_to_collection_mut f t)) = true <->
  first_failure (map (fun a => snd (f a)) (leaves t)) = None.
Proof.
  pose proof (mut_outcome f t) as H.
  destruct (snd (apply_to_collection_mut f t)) as [out|e]; simpl.
  - destruct H as [_ H]. rewrite <- H. split; [|reflexivity].
    intros _. apply first_failure_all_ok.
  - split; [discriminate|]. rewrite H. discriminate.
Qed.

Lemma mut_visited {A B} (f : A -> A * result B) (t : tree A) :
  leaves (fst (apply_to_collection_mut f t)) = visited f (leaves t).
Proof.
  induction t as [a|k ts IH|kvs IH] using tree_nested_ind.
  - simpl. now destruct (f a) as [a' [b|e]].
  - rewrite fst_mut_Seq. simpl. apply each_in_turn_visited.
    eapply Forall_impl; [|exact IH]. intros t Ht. split; [exact Ht|].
    apply mut_ok_iff.
  - rewrite fst_mut_Map. simpl.
    apply (each_in_turn_visited
             (with_key (apply_to_collection_mut f)) f
             (fun kv : string * tree A => leaves (snd kv))).
    eapply Forall_impl; [|exact IH]. intros [key v] Hv. simpl in Hv.
    pose proof (mut_ok_iff f v) as Hok. unfold with_key. simpl.
    destruct (apply_to_collection_mut f v) as [v' [y|e]]; simpl in *;
      split; assumption.
Qed.

Lemma visited_prefix {A B} (f : A -> A * result B) (pre post : list A)
    (a : A) :
  Forall (fun i => is_ok (snd (f i)) = true) pre ->
  is_ok (snd (f a)) = false ->
  visited f (pre ++ a :: post) =
  map (fun i => fst (f i)) pre ++ fst (f a) :: post.
Proof.
  intros Hpre Ha. induction Hpre as [|i pre Hi _ IH]; simpl.
  - destruct (f a) as [a' [b|e]]; simpl in *; [discriminate|reflexivity].
  - destruct (f i) as [i' [b|e]]; simpl in *; [|discriminate].
    now rewrite IH.
Qed.

(** X5.  A call of [next] on a session visits the iterators from left to right
    and stops at the first that raises.  The iterators keep their places,
    each one visited is left as its own call of [next] left it and the ones
    after the failure are not touched: a call that raises has still taken
    a batch from every iterator before the one that raised. *)
Theorem failed_call_consumes (self : CombinedLoaderIterator.t) :
  let its := snd (CombinedLoaderIterator.loader_iters self) in
  exists its',
    CombinedLoaderIterator._loader_iters
      (fst (CombinedLoaderIterator.__next__ self)) = Some its' /\
    shape its' = shape its /\
    leaves its' = visited next_iterator (leaves its) /\
    (forall pre it post,
       leaves its = pre ++ it :: post ->
       Forall (fun i => is_ok (pull i) = true) pre ->
       is_ok (pull it) = false ->
       leaves its' =
         map (fun i => fst (next_iterator i)) pre ++
         fst (next_iterator it) :: post).
Proof.
  cbv zeta. unfold CombinedLoaderIterator.__next__.
  destruct (CombinedLoaderIterator.loader_iters self) as [self' its].
  simpl snd. unfold CombinedLoaderIterator.request_next_batch.
  destruct (apply_to_collection_mut next_iterator its) as [its' r] eqn:E'.
  exists its'. simpl. split; [reflexivity|].
  assert (Hfst : its' = fst (apply_to_collection_mut next_iterator its))
    by now rewrite E'.
  split; [subst its'; apply mut_shape_state|].
  assert (Hv : leaves its' = visited next_iterator (leaves its))
    by (subst its'; apply mut_visited).
  split; [exact Hv|].
  intros pre it post Hl Hpre Hit. rewrite Hv, Hl.
  now apply visited_prefix.
Qed.

Lemma failed_call_consumes_witness :
  exists its',
    CombinedLoaderIterator._loader_iters
      (fst (CombinedLoaderIterator.__next__
              (session (tmap Bare (Seq PyList [Leaf seven; Leaf three]))
                 (tmap (bare_at 3) (Seq PyList [Leaf seven; Leaf three])))))
      = Some its' /\
    leaves its' = [bare_at 4 seven; bare_at 3 three].
Proof.
  destruct (failed_call_consumes
              (session (tmap Bare (Seq PyList [Leaf seven; Leaf three]))
                 (tmap (bare_at 3) (Seq PyList [Leaf seven; Leaf three]))))
    as (its' & H1 & _ & _ & H4).
  exists its'. split; [exact H1|].
  apply (H4 [bare_at 3 seven] (bare_at 3 three) []).
  - reflexivity.
  - repeat constructor.
  - reflexivity.
Defined.

(** ** TensorRunningAccum *)

Lemma setitem_spec {A} (x : A) (l : list A) : forall i,
  i < List.length l ->
  exists l',
    setitem l i x = Some l' /\
    List.length l' = List.length l /\
    nth_error l' i = Some x /\
    forall k, k <> i -> nth_error l' k = nth_error l k.
Proof.
  induction l as [|a l IH]; simpl; intros i Hi; [lia|].
  destruct i as [|i].
  - exists (x :: l). repeat split; auto.
    intros [|k] Hk; [congruence|reflexivity].
  - destruct (IH i ltac:(lia)) as (l' & -> & Hlen & Hnth & Hother).
    exists (a :: l'). repeat split; simpl; auto.
    intros [|k] Hk; [reflexivity|]. apply Hother. congruence.
Qed.

Lemma setitem_past {A} (x : A) (l : list A) : forall i,
  List.length l <= i -> setitem l i x = None.
Proof.
  induction l as [|a l IH]; simpl; intros i Hi; [reflexivity|].
  destruct i as [|i]; [lia|]. now rewrite IH by lia.
Qed.

Lemma nth_error_repeat_lt {A} (z : A) (w i : nat) :
  i < w -> nth_error (repeat z w) i = Some z.
Proof.
  revert i. induction w as [|w IH]; intros i Hi; [lia|].
  destruct i as [|i]; simpl; [reflexivity|]. apply IH. lia.
Qed.

Lemma mod_apart (w j n : nat) :
  j < n -> n - j < w -> j mod w <> n mod w.
Proof.
  intros Hjn Hw E.
  pose proof (Nat.div_mod_eq j w) as Hj.
  pose proof (Nat.div_mod_eq n w) as Hn.
  rewrite E in Hj.
  assert (Hq : n - j = w * (n / w - j / w)) by nia.
  destruct (n / w - j / w) as [|q]; nia.
Qed.

Lemma mod_succ (w n : nat) : 0 < w -> S (n mod w) mod w = S n mod w.
Proof.
  intros Hw. replace (S (n mod w)) with (n mod w + 1) by lia.
  replace (S n) with (n + 1) by lia.
  now rewrite Nat.Div0.add_mod_idemp_l.
Qed.

Lemma nth_error_pointwise {A} (l l' : list A) :
  (forall i, nth_error l i = nth_error l' i) -> l = l'.
Proof.
  revert l'. induction l as [|a l IH]; intros [|a' l'] H.
  - reflexivity.
  - discriminate (H 0).
  - discriminate (H 0).
  - f_equal.
    + specialize (H 0). simpl in H. congruence.
    + apply IH. intros i. exact (H (S i)).
Qed.

Lemma nth_error_skipn_add {A} (l : list A) : forall k i,
  nth_error (skipn k l) i = nth_error l (k + i).
Proof.
  intros k. revert l. induction k as [|k IH]; intros l i; [reflexivity|].
  destruct l as [|a l]; simpl; [now destruct i|apply IH].
Qed.

Lemma nth_error_firstn_lt {A} (l : list A) : forall k i,
  i < k -> nth_error (firstn k l) i = nth_error l i.
Proof.
  induction l as [|a l IH]; intros [|k] [|i] Hi; simpl; auto; try lia.
  apply IH. lia.
Qed.

Lemma nth_error_firstn_ge {A} (l : list A) (k i : nat) :
  k <= i -> nth_error (firstn k l) i = None.
Proof.
  intros Hi. apply nth_error_None. rewrite length_firstn. lia.
Qed.

(** A memory of [w] rows whose row [(a + k) mod w] is the [k]-th element
    of [L] is a rotation of [L]. *)
Lemma ring_rotation {A} (w a : nat) (mem L : list A) :
  0 < w -> List.length mem = w -> List.length L = w ->
  (forall k, k < w -> nth_error mem ((a + k) mod w) = nth_error L k) ->
  mem = skipn (w - a mod w) L ++ firstn (w - a mod w) L.
Proof.
  intros Hw Hmem HL Hrow.
  pose proof (Nat.mod_upper_bound a w ltac:(lia)) as Hr.
  pose proof (Nat.div_mod_eq a w) as Ha.
  set (r := a mod w) in *.
  apply nth_error_pointwise. intros i.
  destruct (Nat.lt_ge_cases i w) as [Hi|Hi].
  - destruct (Nat.lt_ge_cases i r) as [Hir|Hir].
    + rewrite nth_error_app1 by (rewrite length_skipn; lia).
      rewrite nth_error_skipn_add, <- (Hrow (w - r + i)) by lia.
      f_equal.
      apply Nat.mod_unique with (q := S (a / w)); [lia|nia].
    + rewrite nth_error_app2 by (rewrite length_skipn; lia).
      rewrite length_skipn, HL.
      replace (i - (w - (w - r))) with (i - r) by lia.
      rewrite nth_error_firstn_lt by lia.
      rewrite <- (Hrow (i - r)) by lia.
      f_equal.
      apply Nat.mod_unique with (q := a / w); [lia|nia].
  - transitivity (@None A).
    + apply nth_error_None. lia.
    + symmetry. apply nth_error_None.
      rewrite length_app, length_skipn, length_firstn. lia.
Qed.

Lemma match_positive {X} (n : nat) (a b : X) :
  0 < n -> match n with 0 => a | S _ => b end = b.
Proof. intros H. destruct n; [lia|reflexivity]. Qed.

Section AccumProperties.
Variables T R : Type.
Variable zeros : T.
Variable to_memory : T -> T.
Variable agg : string -> list T -> R.

Let rows (self : TensorRunningAccum.t T) : list T :=
  match TensorRunningAccum.memory self with
  | None => repeat zeros (TensorRunningAccum.window_length self)
  | Some m => m
  end.

(** The accumulator after the elements [xs] went into a window of [w]. *)
Let holds (w : nat) (xs : list T) (self : TensorRunningAccum.t T) : Prop :=
  TensorRunningAccum.window_length self = w /\
  TensorRunningAccum.current_idx self = List.length xs mod w /\
  TensorRunningAccum.last_idx self =
    match List.length xs with 0 => None | S j => Some (j mod w) end /\
  TensorRunningAccum.rotated self = Nat.leb w (List.length xs) /\
  (TensorRunningAccum.memory self = None <-> xs = []) /\
  List.length (rows self) = w /\
  forall j, List.length xs - w <= j < List.length xs ->
            nth_error (rows self) (j mod w) =
            option_map to_memory (nth_error xs j).

Lemma appends_snoc (self : TensorRunningAccum.t T) (xs : list T) (x : T) :
  TensorRunningAccum.appends zeros to_memory self (xs ++ [x]) =
  match TensorRunningAccum.appends zeros to_memory self xs with
  | (self', Returns _) =>
      match TensorRunningAccum.append zeros to_memory self' x with
      | (self'', Returns _) => (self'', Returns tt)
      | r => r
      end
  | r => r
  end.
Proof.
  revert self. induction xs as [|y xs IH]; intros self; simpl.
  - now destruct (TensorRunningAccum.append zeros to_memory self x)
      as [s [[]|e]].
  - destruct (TensorRunningAccum.append zeros to_memory self y)
      as [s [u|e]]; [apply IH|reflexivity].
Qed.

Lemma holds_fresh (w : nat) :
  0 < w -> holds w [] (TensorRunningAccum.__init__ T w).
Proof.
  intros Hw. unfold holds, rows. simpl. repeat split; auto.
  - now rewrite Nat.Div0.mod_0_l.
  - destruct w; [lia|reflexivity].
  - apply repeat_length.
  - intros j Hj. lia.
Qed.

Lemma holds_append (w : nat) (xs : list T) (x : T)
    (self : TensorRunningAccum.t T) :
  0 < w -> holds w xs self ->
  exists self',
    TensorRunningAccum.append zeros to_memory self x = (self', Returns tt) /\
    holds w (xs ++ [x]) self'.
Proof.
  intros Hw (Hwin & Hcur & Hlast & Hrot & Hmem & Hlen & Hrows).
  set (n := List.length xs) in *.
  pose proof (Nat.mod_upper_bound n w ltac:(lia)) as Hr.
  unfold TensorRunningAccum.append. fold (rows self).
  destruct (setitem_spec (to_memory x) (rows self)
              (TensorRunningAccum.current_idx self) ltac:(lia))
    as (m' & -> & Hlen' & Hnew & Hold).
  rewrite match_positive by lia.
  eexists. split; [reflexivity|].
  unfold holds, rows.
  cbn [TensorRunningAccum.window_length TensorRunningAccum.current_idx
       TensorRunningAccum.last_idx TensorRunningAccum.rotated
       TensorRunningAccum.memory].
  rewrite Hwin, length_app. cbn [List.length]. fold n.
  replace (n + 1) with (S n) by lia.
  rewrite Hcur, (mod_succ w n Hw).
  repeat split.
  - rewrite Hrot.
    destruct (Nat.eqb (S n mod w) 0) eqn:E.
    + apply Nat.eqb_eq in E. symmetry. apply Nat.leb_le.
      pose proof (Nat.div_mod_eq (S n) w) as Hd. rewrite E in Hd.
      destruct (S n / w); nia.
    + apply Nat.eqb_neq in E.
      destruct (Nat.leb w n) eqn:E1; symmetry.
      * apply Nat.leb_le in E1. apply Nat.leb_le. lia.
      * apply Nat.leb_gt in E1. apply Nat.leb_gt.
        destruct (Nat.eq_dec (S n) w) as [Heq|Hneq]; [|lia].
        rewrite Heq, Nat.Div0.mod_same in E. congruence.
  - discriminate.
  - intros H. destruct xs; discriminate.
  - congruence.
  - intros j Hj.
    destruct (Nat.eq_dec j n) as [->|Hjn].
    + rewrite <- Hcur, Hnew.
      rewrite nth_error_app2 by (fold n; lia). fold n.
      now rewrite Nat.sub_diag.
    + rewrite Hold.
      * rewrite nth_error_app1 by (fold n; lia).
        apply Hrows. fold n. lia.
      * rewrite Hcur. apply mod_apart; lia.
Qed.

Lemma holds_appends (w : nat) (xs : list T) :
  0 < w ->
  exists self,
    TensorRunningAccum.appends zeros to_memory
      (TensorRunningAccum.__init__ T w) xs = (self, Returns tt) /\
    holds w xs self.
Proof.
  intros Hw. induction xs as [|x xs IH] using rev_ind.
  - eexists. split; [reflexivity|now apply holds_fresh].
  - destruct IH as (self & Hrun & Hinv).
    destruct (holds_append w xs x self Hw Hinv) as (self' & Happ & Hinv').
    exists self'. split; [|exact Hinv'].
    now rewrite appends_snoc, Hrun, Happ.
Qed.

(** X6.  On a window of [w > 0] rows, as after [reset] on an accumulator of
    that window, no call of [append] raises, and after [n] of them the
    next row to write is [n mod w], the row last written is
    [(n - 1) mod w], [rotated] says whether [w] elements or more came in,
    and the memory, allocated by the first call, has [w] rows. *)
Theorem accum_indices (w : nat) (old : TensorRunningAccum.t T)
    (xs : list T) :
  0 < w -> TensorRunningAccum.window_length old = w ->
  exists self,
    TensorRunningAccum.appends zeros to_memory
      (TensorRunningAccum.reset old) xs = (self, Returns tt) /\
    TensorRunningAccum.window_length self = w /\
    TensorRunningAccum.current_idx self = List.length xs mod w /\
    TensorRunningAccum.last_idx self =
      match List.length xs with 0 => None | S j => Some (j mod w) end /\
    TensorRunningAccum.rotated self = Nat.leb w (List.length xs) /\
    match TensorRunningAccum.memory self with
    | None => xs = []
    | Some m => xs <> [] /\ List.length m = w
    end.
Proof.
  intros Hw Hold. unfold TensorRunningAccum.reset. rewrite Hold.
  destruct (holds_appends w xs Hw)
    as (self & Hrun & H1 & H2 & H3 & H4 & H5 & H6 & _).
  exists self. repeat split; auto.
  unfold rows in H6. destruct (TensorRunningAccum.memory self) as [m|].
  - split; [|exact H6]. intros ->. destruct H5 as [_ H5].
    discriminate (H5 eq_refl).
  - now apply H5.
Qed.

(** X7.  [last] returns the element most recently appended, as it was stored,
    and [None] on an accumulator that is empty. *)
Theorem accum_last (w : nat) (xs : list T) (x : T) :
  0 < w ->
  TensorRunningAccum.last (TensorRunningAccum.__init__ T w) =
    Returns None /\
  exists self,
    TensorRunningAccum.appends zeros to_memory
      (TensorRunningAccum.__init__ T w) (xs ++ [x]) = (self, Returns tt) /\
    TensorRunningAccum.last self = Returns (Some (to_memory x)).
Proof.
  intros Hw. split; [reflexivity|].
  destruct (holds_appends w (xs ++ [x]) Hw)
    as (self & Hrun & H1 & H2 & H3 & H4 & H5 & H6 & H7).
  exists self. split; [exact Hrun|].
  rewrite length_app in *. simpl List.length in *.
  replace (List.length xs + 1) with (S (List.length xs)) in * by lia.
  unfold TensorRunningAccum.last. rewrite H3.
  specialize (H7 (List.length xs) ltac:(lia)).
  rewrite nth_error_app2, Nat.sub_diag in H7 by lia. simpl in H7.
  unfold rows in H7.
  destruct (TensorRunningAccum.memory self) as [m|].
  - now rewrite H7.
  - destruct H5 as [H5 _]. specialize (H5 eq_refl).
    destruct xs; discriminate.
Qed.

(** X8.  The aggregates [mean], [max] and [min] are [None] on an empty
    accumulator; after [n > 0] elements they are taken over a tensor that
    holds exactly the last [min n w] of them, as stored: in the order they
    came while fewer than [w] came in, and rotated, the newest elements
    over the oldest rows, afterwards. *)
Theorem accum_window (w : nat) (xs : list T) (how : string) :
  0 < w -> xs <> [] ->
  TensorRunningAccum._agg_memory agg (TensorRunningAccum.__init__ T w) how =
    Returns None /\
  exists self slice,
    TensorRunningAccum.appends zeros to_memory
      (TensorRunningAccum.__init__ T w) xs = (self, Returns tt) /\
    TensorRunningAccum._agg_memory agg self how =
      Returns (Some (agg how slice)) /\
    Permutation slice
      (map to_memory (skipn (List.length xs - w) xs)) /\
    (List.length xs <= w -> slice = map to_memory xs) /\
    (w <= List.length xs ->
     slice =
       skipn (w - List.length xs mod w)
         (map to_memory (skipn (List.length xs - w) xs)) ++
       firstn (w - List.length xs mod w)
         (map to_memory (skipn (List.length xs - w) xs))).
Proof.
  intros Hw Hxs. split; [reflexivity|].
  destruct (holds_appends w xs Hw)
    as (self & Hrun & H1 & H2 & H3 & H4 & H5 & H6 & H7).
  set (n := List.length xs) in *.
  assert (Hn : 0 < n).
  { unfold n. destruct xs; [congruence|simpl; lia]. }
  unfold rows in H6, H7.
  destruct (TensorRunningAccum.memory self) as [m|] eqn:Em;
    [|destruct H5 as [H5 _]; now specialize (H5 eq_refl)].
  exists self.
  assert (Hagg : forall slice,
            slice = (if TensorRunningAccum.rotated self then m
                     else firstn (TensorRunningAccum.current_idx self) m) ->
            TensorRunningAccum._agg_memory agg self how =
              Returns (Some (agg how slice))).
  { intros slice ->. unfold TensorRunningAccum._agg_memory.
    rewrite H3, Em. destruct n; [lia|].
    now destruct (TensorRunningAccum.rotated self). }
  rewrite H4, H2 in Hagg.
  destruct (Nat.leb w n) eqn:E.
  - (* rotated: the whole memory *)
    apply Nat.leb_le in E. exists m.
    split; [exact Hrun|]. split; [now apply Hagg|].
    set (L := map to_memory (skipn (n - w) xs)).
    assert (HL : List.length L = w).
    { unfold L. rewrite length_map, length_skipn. fold n. lia. }
    assert (Hrot : m = skipn (w - (n - w) mod w) L ++
                       firstn (w - (n - w) mod w) L).
    { apply ring_rotation; auto.
      intros k Hk. rewrite (H7 (n - w + k)) by lia.
      unfold L. rewrite nth_error_map, nth_error_skipn_add. reflexivity. }
    assert (Hmod : (n - w) mod w = n mod w).
    { replace n with ((n - w) + 1 * w) at 2 by lia.
      now rewrite Nat.Div0.mod_add. }
    rewrite Hmod in Hrot.
    split; [|split].
    + rewrite Hrot. rewrite Permutation_app_comm.
      now rewrite firstn_skipn.
    + intros Hle. assert (n = w) by lia. subst L.
      rewrite Hrot. replace (n - w) with 0 by lia.
      replace (n mod w) with 0
        by (symmetry; replace n with w by lia; apply Nat.Div0.mod_same).
      rewrite Nat.sub_0_r. simpl skipn at 2 3.
      rewrite skipn_all2, firstn_all2 by (rewrite length_map; fold n; lia).
      reflexivity.
    + intros _. exact Hrot.
  - (* not rotated: the first n rows *)
    apply Nat.leb_gt in E. exists (firstn (n mod w) m).
    split; [exact Hrun|]. split; [now apply Hagg|].
    assert (Hslice : firstn (n mod w) m = map to_memory xs).
    { rewrite Nat.mod_small by lia. apply nth_error_pointwise. intros i.
      destruct (Nat.lt_ge_cases i n) as [Hi|Hi].
      - rewrite nth_error_firstn_lt by lia.
        rewrite <- (Nat.mod_small i w) at 1 by lia.
        rewrite (H7 i) by lia. now rewrite nth_error_map.
      - rewrite nth_error_firstn_ge by lia.
        symmetry. apply nth_error_None. rewrite length_map. fold n. lia. }
    replace (n - w) with 0 by lia. simpl skipn.
    split; [now rewrite Hslice|]. split; [intros _; exact Hslice|lia].
Qed.

(** X9.  On a window of no rows every [append] raises [IndexError]: after
    [reset] on whatever accumulator of that window, successive calls stop
    at the first, which leaves a memory of no row; the accumulator stays
    empty, so [last] and the aggregates go on returning [None], and any
    further [append] raises [IndexError] again and changes nothing.  The
    [ZeroDivisionError] of the modulo is never reached. *)
Theorem accum_no_window (old : TensorRunningAccum.t T) (x : T)
    (xs : list T) (how : string) :
  TensorRunningAccum.window_length old = 0 ->
  exists self,
    TensorRunningAccum.appends zeros to_memory
      (TensorRunningAccum.reset old) (x :: xs) =
      (self, Raises E_IndexError) /\
    TensorRunningAccum.memory self = Some [] /\
    TensorRunningAccum.last self = Returns None /\
    TensorRunningAccum._agg_memory agg self how = Returns None /\
    forall y,
      TensorRunningAccum.append zeros to_memory self y =
        (self, Raises E_IndexError).
Proof.
  intros Hw. unfold TensorRunningAccum.reset. rewrite Hw.
  eexists. split; [reflexivity|]. repeat split.
Qed.

End AccumProperties.

(** The example of the class docstring:
    [accum.last(), accum.mean(), accum.min(), accum.max()] is
    [(12, 10, 8, 12)]. *)
Example docstring_accum_values :
  TensorRunningAccum.last docstring_accum = Returns (Some 12) /\
  TensorRunningAccum.mean number_agg docstring_accum = Returns (Some 10) /\
  TensorRunningAccum.min number_agg docstring_accum = Returns (Some 8) /\
  TensorRunningAccum.max number_agg docstring_accum = Returns (Some 12).
Proof. repeat split. Qed.

Lemma accum_indices_witness :
  exists self,
    TensorRunningAccum.appends 0 (fun x => x)
      (TensorRunningAccum.reset docstring_accum) (seq 0 13) =
      (self, Returns tt) /\
    TensorRunningAccum.window_length self = 5 /\
    TensorRunningAccum.current_idx self = 3 /\
    TensorRunningAccum.last_idx self = Some 2 /\
    TensorRunningAccum.rotated self = true /\
    match TensorRunningAccum.memory self with
    | None => seq 0 13 = []
    | Some m => seq 0 13 <> [] /\ List.length m = 5
    end.
Proof.
  apply (accum_indices nat 0 (fun x => x) 5 docstring_accum (seq 0 13));
    [lia|reflexivity].
Defined.

Lemma accum_last_witness :
  exists self,
    TensorRunningAccum.appends 0 (fun x => x)
      (TensorRunningAccum.__init__ nat 5) (seq 0 12 ++ [12]) =
      (self, Returns tt) /\
    TensorRunningAccum.last self = Returns (Some 12).
Proof.
  apply (proj2 (accum_last nat 0 (fun x => x) 5 (seq 0 12) 12
                  ltac:(lia))).
Defined.

Lemma accum_no_window_witness :
  exists self,
    TensorRunningAccum.appends 0 (fun x => x)
      (TensorRunningAccum.reset (TensorRunningAccum.__init__ nat 0))
      [1; 2] = (self, Raises E_IndexError) /\
    TensorRunningAccum.memory self = Some [] /\
    TensorRunningAccum.last self = Returns None /\
    TensorRunningAccum._agg_memory number_agg self "mean" = Returns None /\
    forall y,
      TensorRunningAccum.append 0 (fun x => x) self y =
        (self, Raises E_IndexError).
Proof.
  apply (accum_no_window nat nat 0 (fun x => x) number_agg
           (TensorRunningAccum.__init__ nat 0) 1 [2] "mean" eq_refl).
Defined.

Lemma accum_window_witness :
  exists self slice,
    TensorRunningAccum.appends 0 (fun x => x)
      (TensorRunningAccum.__init__ nat 5) (seq 0 13) = (self, Returns tt) /\
    TensorRunningAccum._agg_memory number_agg self "min" =
      Returns (Some (number_agg "min" slice)) /\
    Permutation slice [8; 9; 10; 11; 12] /\
    (13 <= 5 -> slice = seq 0 13) /\
    (5 <= 13 -> slice = [10; 11; 12; 8; 9]).
Proof.
  apply (proj2 (accum_window nat nat 0 (fun x => x) number_agg 5
                  (seq 0 13) "min" ltac:(lia) ltac:(discriminate))).
Defined.

(** ** Accumulator *)

(** X10.  After any run of calls of [accumulate], [num_values] is the number of
    values, [total] is their sum taken from left to right starting from 0,
    and [mean] is that sum divided by that number; on an accumulator that
    received nothing, [mean] is the division [0 / 0], which raises. *)
Theorem accumulator_mean (T : Type) (zero : T) (add : T -> T -> T)
    (div : T -> nat -> outcome T) (xs : list T) :
  let self :=
    fold_left (Accumulator.accumulate add) xs (Accumulator.__init__ zero) in
  Accumulator.num_values self = List.length xs /\
  Accumulator.total self = fold_left add xs zero /\
  Accumulator.mean div self = div (fold_left add xs zero) (List.length xs) /\
  (div zero 0 = Raises E_ZeroDivisionError ->
   Accumulator.mean div (Accumulator.__init__ zero) =
     Raises E_ZeroDivisionError).
Proof.
  assert (H : forall (st : Accumulator.t T),
            Accumulator.num_values
              (fold_left (Accumulator.accumulate add) xs st) =
              Accumulator.num_values st + List.length xs /\
            Accumulator.total
              (fold_left (Accumulator.accumulate add) xs st) =
              fold_left add xs (Accumulator.total st)).
  { induction xs as [|x xs IH]; intros st; simpl; [split; [lia|reflexivity]|].
    destruct (IH (Accumulator.accumulate add st x)) as [H1 H2].
    rewrite H1, H2. simpl. split; [lia|reflexivity]. }
  destruct (H (Accumulator.__init__ zero)) as [H1 H2]. simpl in H1, H2.
  cbv zeta. unfold Accumulator.mean. rewrite H1, H2.
  repeat split; auto.
Qed.

Lemma accumulator_mean_witness :
  Accumulator.mean (fun t n => match n with
                               | 0 => Raises E_ZeroDivisionError
                               | S _ => Returns (t / n)
                               end)
    (Accumulator.__init__ 0) = Raises E_ZeroDivisionError.
Proof.
  apply (proj2 (proj2 (proj2
           (accumulator_mean nat 0 Nat.add
              (fun t n => match n with
                          | 0 => Raises E_ZeroDivisionError
                          | S _ => Returns (t / n)
                          end) [])))).
  reflexivity.
Defined.

(** ** LightningBatchSamplerWrapper *)

Lemma gen_next_started (self : LightningBatchSamplerWrapper.t) :
  LightningBatchSamplerWrapper.gen_next (self, None) =
  LightningBatchSamplerWrapper.gen_next
    (self, Some (LightningBatchSamplerWrapper.batch_sampler self)).
Proof. reflexivity. Qed.

Lemma gen_calls (bs : list (list nat)) (k : nat) :
  forall (rest : list (list nat)) (seen : option (list nat)),
    k <= List.length rest ->
    calls LightningBatchSamplerWrapper.gen_next k
      ({| LightningBatchSamplerWrapper.batch_sampler := bs;
          LightningBatchSamplerWrapper.batch_indices := seen |},
       Some rest) =
    (({| LightningBatchSamplerWrapper.batch_sampler := bs;
         LightningBatchSamplerWrapper.batch_indices :=
           match k with
           | 0 => seen
           | S j => nth_error rest j
           end |}, Some (skipn k rest)),
     map Ok (firstn k rest)).
Proof.
  induction k as [|k IH]; intros rest seen Hk; [reflexivity|].
  destruct rest as [|b rest]; simpl in Hk; [lia|].
  simpl calls.
  rewrite (IH rest (Some b)) by lia. simpl.
  now destruct k.
Qed.

(** X11.  The generator of [__iter__] yields the batches of the wrapped sampler
    in their order and records each in [batch_indices] as it yields it:
    after [k] calls of [next] the calls returned the first [k] batches and
    [batch_indices] is the [k]-th one, [None] before the first call; when
    the sampler is exhausted the generator raises [StopIteration] and
    [batch_indices] keeps the last batch. *)
Theorem wrapper_tracks_batches (bs : list (list nat)) (k : nat) :
  k <= List.length bs ->
  let start := (LightningBatchSamplerWrapper.__init__ bs,
                LightningBatchSamplerWrapper.__iter__
                  (LightningBatchSamplerWrapper.__init__ bs)) in
  let run := calls LightningBatchSamplerWrapper.gen_next k start in
  let done :=
    calls LightningBatchSamplerWrapper.gen_next (List.length bs) start in
  snd run = map Ok (firstn k bs) /\
  LightningBatchSamplerWrapper.batch_indices (fst (fst run)) =
    match k with 0 => None | S j => nth_error bs j end /\
  snd (LightningBatchSamplerWrapper.gen_next (fst done)) =
    Err StopIteration /\
  LightningBatchSamplerWrapper.batch_indices
    (fst (fst (LightningBatchSamplerWrapper.gen_next (fst done)))) =
    match List.length bs with 0 => None | S j => nth_error bs j end.
Proof.
  intros Hk start run done. subst run done.
  assert (Hrun : forall n, n <= List.length bs ->
            snd (calls LightningBatchSamplerWrapper.gen_next n start) =
              map Ok (firstn n bs) /\
            LightningBatchSamplerWrapper.batch_indices
              (fst (fst (calls LightningBatchSamplerWrapper.gen_next n
                           start))) =
              match n with 0 => None | S j => nth_error bs j end /\
            LightningBatchSamplerWrapper.gen_next
              (fst (calls LightningBatchSamplerWrapper.gen_next n start)) =
            LightningBatchSamplerWrapper.gen_next
              ({| LightningBatchSamplerWrapper.batch_sampler := bs;
                  LightningBatchSamplerWrapper.batch_indices :=
                    match n with 0 => None | S j => nth_error bs j end |},
               Some (skipn n bs))).
  { intros n Hn. destruct n as [|n]; [now repeat split|].
    change (calls LightningBatchSamplerWrapper.gen_next (S n) start)
      with (calls LightningBatchSamplerWrapper.gen_next (S n)
              ({| LightningBatchSamplerWrapper.batch_sampler := bs;
                  LightningBatchSamplerWrapper.batch_indices := None |},
               Some bs)).
    rewrite (gen_calls bs (S n) bs None Hn). now repeat split. }
  destruct (Hrun k Hk) as (H1 & H2 & _).
  destruct (Hrun (List.length bs) (Nat.le_refl _)) as (_ & _ & H3).
  split; [exact H1|]. split; [exact H2|].
  rewrite H3, skipn_all. simpl. now split.
Qed.

Lemma wrapper_tracks_batches_witness :
  snd (calls LightningBatchSamplerWrapper.gen_next 2
         (LightningBatchSamplerWrapper.__init__ [[0; 1]; [2; 3]; [4]],
          None)) = [Ok [0; 1]; Ok [2; 3]] /\
  LightningBatchSamplerWrapper.batch_indices
    (fst (fst (calls LightningBatchSamplerWrapper.gen_next 2
                 (LightningBatchSamplerWrapper.__init__ [[0; 1]; [2; 3]; [4]],
                  None)))) = Some [2; 3].
Proof.
  destruct (wrapper_tracks_batches [[0; 1]; [2; 3]; [4]] 2 ltac:(simpl; lia))
    as (H1 & H2 & _).
  split; [exact H1|exact H2].
Defined.

(** ** Dicts *)

Lemma mem_In (k : string) (l : list string) : mem k l = true <-> In k l.
Proof.
  unfold mem. rewrite existsb_exists. split.
  - intros (x & Hx & E). apply String.eqb_eq in E. now subst.
  - intros H. exists k. split; [exact H|apply String.eqb_refl].
Qed.

Lemma has_key_In {V} (k : string) (d : list (string * V)) :
  has_key k d = true <-> exists v, assoc k d = Some v.
Proof.
  unfold has_key. destruct (assoc k d) as [v|].
  - split; [eauto|reflexivity].
  - split; [discriminate|intros (v & H); discriminate].
Qed.

Lemma assoc_dict_set {V} (k k' : string) (v : V) (d : list (string * V)) :
  assoc k' (dict_set k v d) =
  if String.eqb k' k then Some v else assoc k' d.
Proof.
  induction d as [|[k0 v0] d IH]; simpl.
  - reflexivity.
  - destruct (String.eqb k k0) eqn:E; simpl.
    + apply String.eqb_eq in E. subst k0.
      now destruct (String.eqb k' k).
    + destruct (String.eqb k' k0) eqn:E0.
      * apply String.eqb_eq in E0. subst k0.
        rewrite String.eqb_sym in E. now rewrite E.
      * exact IH.
Qed.

Lemma assoc_app {V} (k : string) (d d' : list (string * V)) :
  assoc k (d ++ d') =
  match assoc k d with Some v => Some v | None => assoc k d' end.
Proof.
  induction d as [|[k0 v0] d IH]; simpl; [reflexivity|].
  now destruct (String.eqb k k0).
Qed.

(** After [d.update(other)] a key has the value [other] gives it last, and
    otherwise the value it had. *)
Lemma assoc_dict_update {V} (k : string) (other : list (string * V)) :
  forall d,
    assoc k (dict_update d other) =
    match assoc k (rev other) with
    | Some v => Some v
    | None => assoc k d
    end.
Proof.
  unfold dict_update.
  induction other as [|[k0 v0] other IH]; intros d; simpl; [reflexivity|].
  rewrite IH, assoc_app, assoc_dict_set. simpl.
  destruct (assoc k (rev other)); [reflexivity|].
  now destruct (String.eqb k k0).
Qed.

Lemma assoc_filter_key {V} (p : string -> bool) (k : string)
    (d : list (string * V)) :
  assoc k (filter (fun kv => p (fst kv)) d) =
  if p k then assoc k d else None.
Proof.
  induction d as [|[k0 v0] d IH]; simpl; [now destruct (p k)|].
  destruct (p k0) eqn:E0; simpl.
  - destruct (String.eqb k k0) eqn:E.
    + apply String.eqb_eq in E. subst k0. now rewrite E0.
    + exact IH.
  - destruct (String.eqb k k0) eqn:E; [|exact IH].
    apply String.eqb_eq in E. subst k0. rewrite E0 in IH |- *. exact IH.
Qed.

Lemma dict_set_In_keys {V} (k k' : string) (v : V)
    (d : list (string * V)) :
  In k' (map fst (dict_set k v d)) -> k' = k \/ In k' (map fst d).
Proof.
  induction d as [|[k0 v0] d IH]; simpl.
  - intros [H|[]]. now left.
  - destruct (String.eqb k k0) eqn:E; simpl; intros [H|H]; auto.
    destruct (IH H); auto.
Qed.

Lemma dict_set_keys {V} (k : string) (v : V) (d : list (string * V)) :
  NoDup (map fst d) -> NoDup (map fst (dict_set k v d)).
Proof.
  induction d as [|[k0 v0] d IH]; simpl; intros H.
  - repeat constructor. auto.
  - inversion H as [|? ? Hnot Hd]; subst.
    destruct (String.eqb k k0) eqn:E; simpl.
    + apply String.eqb_eq in E. subst k0. now constructor.
    + constructor; [|now apply IH].
      intros Hin. apply dict_set_In_keys in Hin.
      destruct Hin as [Hin|Hin]; [|tauto].
      subst k0. now rewrite String.eqb_refl in E.
Qed.

Lemma assoc_None_keys {V} (k : string) (d : list (string * V)) :
  ~ In k (map fst d) -> assoc k d = None.
Proof.
  induction d as [|[k0 v0] d IH]; simpl; intros H; [reflexivity|].
  destruct (String.eqb k k0) eqn:E.
  - apply String.eqb_eq in E. subst. tauto.
  - apply IH. tauto.
Qed.

(** [del d[k]] on a dict, whose keys are distinct: the key is gone and the
    others keep their values; it fails exactly when the key is absent. *)
Lemma dict_del_spec {V} (k : string) (d : list (string * V)) :
  NoDup (map fst d) ->
  match dict_del k d with
  | Some d' =>
      has_key k d = true /\
      forall k', assoc k' d' = if String.eqb k' k then None else assoc k' d
  | None => has_key k d = false
  end.
Proof.
  unfold has_key.
  induction d as [|[k0 v0] d IH]; simpl; intros H; [reflexivity|].
  inversion H as [|? ? Hnot Hd]; subst.
  destruct (String.eqb k k0) eqn:E.
  - apply String.eqb_eq in E. subst k0. split; [reflexivity|].
    intros k'. destruct (String.eqb k' k) eqn:E'.
    + apply String.eqb_eq in E'. subst k'. now apply assoc_None_keys.
    + reflexivity.
  - specialize (IH Hd). destruct (dict_del k d) as [d'|].
    + destruct IH as [IH1 IH2]. split; [exact IH1|].
      intros k'. simpl. rewrite IH2.
      destruct (String.eqb k' k0) eqn:E0; [|reflexivity].
      apply String.eqb_eq in E0. subst k0.
      now rewrite String.eqb_sym, E.
    + exact IH.
Qed.

Lemma assoc_None_iff {V} (k : string) (d : list (string * V)) :
  assoc k d = None <-> mem k (map fst d) = false.
Proof.
  induction d as [|[k0 v0] d IH]; simpl; [tauto|].
  unfold mem in *. simpl.
  destruct (String.eqb k k0); simpl; [split; discriminate|exact IH].
Qed.

Lemma mem_rev (k : string) (l : list string) : mem k (rev l) = mem k l.
Proof.
  destruct (mem k l) eqn:E.
  - apply mem_In. apply in_rev. rewrite rev_involutive. now apply mem_In.
  - destruct (mem k (rev l)) eqn:E'; [|reflexivity].
    apply mem_In in E'. apply in_rev in E'. apply mem_In in E'. congruence.
Qed.

Lemma assoc_rev_None {V} (k : string) (d : list (string * V)) :
  assoc k (rev d) = None <-> mem k (map fst d) = false.
Proof. now rewrite assoc_None_iff, map_rev, mem_rev. Qed.

Lemma filter_empty {A} (p : A -> bool) (l : list A) :
  filter p l = [] <-> forall x, In x l -> p x = false.
Proof.
  induction l as [|a l IH]; simpl; [tauto|].
  destruct (p a) eqn:E.
  - split; [discriminate|]. intros H. specialize (H a (or_introl eq_refl)).
    congruence.
  - rewrite IH. split.
    + intros H x [->|Hx]; auto.
    + intros H x Hx. apply H. now right.
Qed.

Lemma mem_cons (k n : string) (l : list string) :
  mem k (n :: l) = String.eqb k n || mem k l.
Proof. reflexivity. Qed.

Lemma filter_head {A} (p : A -> bool) (l : list A) (x : A) (xs : list A) :
  filter p l = x :: xs -> In x l /\ p x = true.
Proof.
  intros H. apply filter_In. rewrite H. now left.
Qed.

(** ** recreate_dataloader *)

Section Recreate.
Variable DataLoader_params : list string.
Variable dataloader : LightningBatchSamplerWrapper.loader_object.

Let params :=
  filter (fun kv => negb (private (fst kv)))
    (LightningBatchSamplerWrapper.vars dataloader).

Let valid :=
  if LightningBatchSamplerWrapper.exactly_DataLoader dataloader
  then LightningBatchSamplerWrapper.init_params dataloader
  else LightningBatchSamplerWrapper.init_params dataloader ++
       DataLoader_params.

Let takes_dataset :=
  if LightningBatchSamplerWrapper.exactly_DataLoader dataloader then true
  else mem "dataset" (LightningBatchSamplerWrapper.init_params dataloader).

Let collect (acc : list (string * value)) (name : string) :=
  match assoc name params with
  | Some v =>
      if mem name LightningBatchSamplerWrapper.SKIP_KEYS then acc
      else dict_set name v acc
  | None => acc
  end.

Let dl_args :=
  dict_update (fold_left collect valid [])
    (LightningBatchSamplerWrapper.overrides dataloader).

Lemma collect_spec (names : list string) (k : string) : forall acc,
  assoc k (fold_left collect names acc) =
  if mem k names && negb (mem k LightningBatchSamplerWrapper.SKIP_KEYS)
  then match assoc k params with
       | Some v => Some v
       | None => assoc k acc
       end
  else assoc k acc.
Proof.
  induction names as [|n names IH]; intros acc; [reflexivity|].
  cbn [fold_left]. rewrite IH, mem_cons.
  assert (Hstep : assoc k (collect acc n) =
                  if String.eqb k n &&
                     negb (mem k LightningBatchSamplerWrapper.SKIP_KEYS)
                  then match assoc k params with
                       | Some v => Some v
                       | None => assoc k acc
                       end
                  else assoc k acc).
  { unfold collect. destruct (String.eqb k n) eqn:E.
    - apply String.eqb_eq in E. subst n. rewrite andb_true_l.
      destruct (assoc k params) as [v|],
        (mem k LightningBatchSamplerWrapper.SKIP_KEYS);
        cbn [negb]; try reflexivity.
      now rewrite assoc_dict_set, String.eqb_refl.
    - rewrite andb_false_l.
      destruct (assoc n params) as [v|]; [|reflexivity].
      destruct (mem n LightningBatchSamplerWrapper.SKIP_KEYS);
        [reflexivity|].
      now rewrite assoc_dict_set, E. }
  rewrite Hstep.
  destruct (String.eqb k n), (mem k names),
    (mem k LightningBatchSamplerWrapper.SKIP_KEYS),
    (assoc k params); reflexivity.
Qed.

Lemma collect_keys (names : list string) : forall acc,
  NoDup (map fst acc) -> NoDup (map fst (fold_left collect names acc)).
Proof.
  induction names as [|n names IH]; intros acc H; simpl; [exact H|].
  apply IH. unfold collect. destruct (assoc n params); [|exact H].
  destruct (mem n LightningBatchSamplerWrapper.SKIP_KEYS); [exact H|].
  now apply dict_set_keys.
Qed.

Lemma dl_args_keys : NoDup (map fst dl_args).
Proof.
  unfold dl_args, dict_update.
  generalize (collect_keys valid [] (NoDup_nil _)).
  generalize (fold_left collect valid []).
  induction (LightningBatchSamplerWrapper.overrides dataloader)
    as [|[k v] o IH]; intros d Hd; simpl; [exact Hd|].
  apply IH. now apply dict_set_keys.
Qed.

Lemma dl_args_lookup (k : string) :
  assoc k dl_args =
  match assoc k (rev (LightningBatchSamplerWrapper.overrides dataloader))
  with
  | Some v => Some v
  | None =>
      if mem k valid && negb (mem k LightningBatchSamplerWrapper.SKIP_KEYS)
         && negb (private k)
      then assoc k (LightningBatchSamplerWrapper.vars dataloader)
      else None
  end.
Proof.
  unfold dl_args. rewrite assoc_dict_update, collect_spec.
  destruct (assoc k (rev _)); [reflexivity|].
  unfold params. rewrite (assoc_filter_key (fun k => negb (private k))).
  cbv beta.
  destruct (mem k valid), (mem k LightningBatchSamplerWrapper.SKIP_KEYS),
    (private k); cbn [negb andb]; try reflexivity;
    now destruct (assoc k (LightningBatchSamplerWrapper.vars dataloader)).
Qed.

Lemma recreate_unfold :
  LightningBatchSamplerWrapper.recreate_dataloader DataLoader_params
    dataloader =
  if negb (LightningBatchSamplerWrapper.is_DataLoader dataloader) then
    Raises E_MisconfigurationException
  else if LightningBatchSamplerWrapper.dataset_is_iterable dataloader
  then Returns LightningBatchSamplerWrapper.Same
  else
    match filter (fun name =>
                    negb (mem name
                            LightningBatchSamplerWrapper.SKIP_VALID_KEYS) &&
                    negb (has_key name dl_args)) valid with
    | _ :: _ => Returns LightningBatchSamplerWrapper.Same
    | [] =>
        if takes_dataset then
          Returns (LightningBatchSamplerWrapper.Rebuilt dl_args
                     (LightningBatchSamplerWrapper.multiprocessing_context
                        dataloader))
        else
          match dict_del "dataset" dl_args with
          | None => Raises E_KeyError
          | Some d =>
              Returns (LightningBatchSamplerWrapper.Rebuilt d
                         (LightningBatchSamplerWrapper.multiprocessing_context
                            dataloader))
          end
    end.
Proof.
  unfold LightningBatchSamplerWrapper.recreate_dataloader, dl_args, collect,
    valid, takes_dataset, params.
  now destruct (LightningBatchSamplerWrapper.exactly_DataLoader dataloader).
Qed.

Lemma override_lookup (k : string) (v : value) :
  In (k, v) (LightningBatchSamplerWrapper.overrides dataloader) ->
  assoc k dl_args = Some v /\ String.eqb k "dataset" = false.
Proof.
  intros H. rewrite dl_args_lookup.
  unfold LightningBatchSamplerWrapper.overrides in H. simpl in H.
  repeat (destruct H as [H|H];
          [injection H as <- <-; split; reflexivity|]).
  destruct H.
Qed.

(** X12.  When [recreate_dataloader] builds a new dataloader, the keyword
    arguments it passes are these.  The six overridden ones: a batch size
    of 1, no sampler, no shuffle, the wrapped batch sampler of the old
    dataloader, no dropping of the last batch, and the old
    [multiprocessing_context], which is also set on the new object.
    Besides those, exactly the parameters of the constructors that are
    public attributes of the old dataloader outside [SKIP_KEYS], each with
    the attribute's value; every parameter other than [self], [args] and
    [kwargs] is among them; and [dataset] is left out when the class's own
    constructor does not take it. *)
Theorem recreate_kwargs (kwargs : list (string * value)) (mpc : value) :
  LightningBatchSamplerWrapper.recreate_dataloader DataLoader_params
    dataloader = Returns (LightningBatchSamplerWrapper.Rebuilt kwargs mpc) ->
  mpc = LightningBatchSamplerWrapper.multiprocessing_context dataloader /\
  (forall k v,
     In (k, v) (LightningBatchSamplerWrapper.overrides dataloader) ->
     assoc k kwargs = Some v) /\
  (forall k v,
     mem k (map fst (LightningBatchSamplerWrapper.overrides dataloader)) =
       false ->
     assoc k kwargs = Some v ->
     assoc k (LightningBatchSamplerWrapper.vars dataloader) = Some v /\
     private k = false /\
     mem k LightningBatchSamplerWrapper.SKIP_KEYS = false /\
     In k valid /\
     (k = "dataset" -> takes_dataset = true)) /\
  (forall k,
     In k valid ->
     mem k LightningBatchSamplerWrapper.SKIP_VALID_KEYS = false ->
     (k = "dataset" -> takes_dataset = true) ->
     has_key k kwargs = true) /\
  (takes_dataset = false -> assoc "dataset" kwargs = None).
Proof.
  intros H. rewrite recreate_unfold in H.
  destruct (negb _); [discriminate|].
  destruct (LightningBatchSamplerWrapper.dataset_is_iterable dataloader);
    [discriminate|].
  destruct (filter _ valid) as [|m ms] eqn:Emiss; [|discriminate].
  rewrite filter_empty in Emiss.
  assert (Hboth :
            mpc =
            LightningBatchSamplerWrapper.multiprocessing_context dataloader /\
            forall k,
              assoc k kwargs =
              if negb takes_dataset && String.eqb k "dataset" then None
              else assoc k dl_args).
  { destruct takes_dataset.
    - injection H as <- <-. now split.
    - pose proof (dict_del_spec "dataset" dl_args dl_args_keys) as Hdel.
      destruct (dict_del "dataset" dl_args) as [d|]; [|discriminate].
      injection H as <- <-. destruct Hdel as [_ Hdel].
      split; [reflexivity|]. intros k. now rewrite Hdel. }
  destruct Hboth as [Hmpc Hlookup]. clear H.
  split; [exact Hmpc|]. split; [|split; [|split]].
  - intros k v Hin. destruct (override_lookup k v Hin) as [Hk Hds].
    now rewrite Hlookup, Hds, andb_false_r.
  - intros k v Hk Hv. rewrite Hlookup in Hv.
    destruct (negb takes_dataset && String.eqb k "dataset") eqn:Eds;
      [discriminate|].
    rewrite dl_args_lookup in Hv.
    apply assoc_rev_None in Hk. rewrite Hk in Hv.
    destruct (mem k valid) eqn:E1; [|discriminate].
    destruct (mem k LightningBatchSamplerWrapper.SKIP_KEYS) eqn:E2;
      [discriminate|].
    destruct (private k) eqn:E3; [discriminate|]. simpl in Hv.
    repeat split; auto.
    + now apply mem_In.
    + intros ->. simpl in Eds. rewrite andb_true_r in Eds.
      now destruct takes_dataset.
  - intros k Hk Hskip Hds.
    specialize (Emiss k Hk). rewrite Hskip in Emiss. simpl in Emiss.
    apply negb_false_iff in Emiss.
    unfold has_key in *. rewrite Hlookup.
    destruct (negb takes_dataset && String.eqb k "dataset") eqn:Eds;
      [|exact Emiss].
    apply andb_prop in Eds. destruct Eds as [E1 E2].
    apply String.eqb_eq in E2. rewrite (Hds E2) in E1. discriminate.
  - intros Hno. rewrite Hlookup, Hno. reflexivity.
Qed.

(** X13.  Before it calls the constructor, [recreate_dataloader] raises
    only for an object that is not a [DataLoader], and then
    [MisconfigurationException]: a dataloader over an [IterableDataset] is
    returned as it is, and, [dataset] being a parameter of
    [DataLoader.__init__], the [del dl_args['dataset']] made for a class
    whose constructor does not take a dataset always finds its key. *)
Theorem recreate_raises (e : error) :
  In "dataset" DataLoader_params ->
  (LightningBatchSamplerWrapper.is_DataLoader dataloader = false ->
   LightningBatchSamplerWrapper.recreate_dataloader DataLoader_params
     dataloader = Raises E_MisconfigurationException) /\
  (LightningBatchSamplerWrapper.is_DataLoader dataloader = true ->
   LightningBatchSamplerWrapper.dataset_is_iterable dataloader = true ->
   LightningBatchSamplerWrapper.recreate_dataloader DataLoader_params
     dataloader = Returns LightningBatchSamplerWrapper.Same) /\
  (LightningBatchSamplerWrapper.recreate_dataloader DataLoader_params
     dataloader = Raises e ->
   e = E_MisconfigurationException /\
   LightningBatchSamplerWrapper.is_DataLoader dataloader = false).
Proof.
  intros Hds. rewrite recreate_unfold.
  split; [now intros ->|]. split; [now intros -> ->|].
  destruct (LightningBatchSamplerWrapper.is_DataLoader dataloader); simpl;
    [|intros H; injection H as <-; now split].
  destruct (LightningBatchSamplerWrapper.dataset_is_iterable dataloader);
    [discriminate|].
  destruct (filter _ valid) as [|m ms] eqn:Emiss; [|discriminate].
  rewrite filter_empty in Emiss.
  destruct takes_dataset eqn:Etakes; [discriminate|].
  pose proof (dict_del_spec "dataset" dl_args dl_args_keys) as Hdel.
  destruct (dict_del "dataset" dl_args) as [d|]; [discriminate|].
  exfalso.
  assert (Hvalid : In "dataset" valid).
  { unfold valid, takes_dataset in *.
    destruct (LightningBatchSamplerWrapper.exactly_DataLoader dataloader);
      [discriminate|].
    apply in_or_app. now right. }
  specialize (Emiss "dataset" Hvalid). rewrite Hdel in Emiss.
  discriminate.
Qed.

(** X14.  A dataloader that is not over an [IterableDataset] is returned as it
    is, instead of being rebuilt, exactly when some parameter of the
    constructors, other than [self], [args] and [kwargs] and other than
    the six overridden ones, cannot be read off the dataloader: it is in
    [SKIP_KEYS], or its name is private, or the dataloader has no
    attribute of that name. *)
Theorem recreate_gives_up :
  LightningBatchSamplerWrapper.is_DataLoader dataloader = true ->
  LightningBatchSamplerWrapper.dataset_is_iterable dataloader = false ->
  (LightningBatchSamplerWrapper.recreate_dataloader DataLoader_params
     dataloader = Returns LightningBatchSamplerWrapper.Same <->
   exists k,
     In k valid /\
     mem k LightningBatchSamplerWrapper.SKIP_VALID_KEYS = false /\
     mem k (map fst (LightningBatchSamplerWrapper.overrides dataloader)) =
       false /\
     (mem k LightningBatchSamplerWrapper.SKIP_KEYS = true \/
      private k = true \/
      assoc k (LightningBatchSamplerWrapper.vars dataloader) = None)).
Proof.
  intros Hdl Hit. rewrite recreate_unfold, Hdl, Hit. cbn [negb].
  assert (Hmissing : forall k,
            In k valid ->
            (has_key k dl_args = false <->
             mem k (map fst (LightningBatchSamplerWrapper.overrides
                               dataloader)) = false /\
             (mem k LightningBatchSamplerWrapper.SKIP_KEYS = true \/
              private k = true \/
              assoc k (LightningBatchSamplerWrapper.vars dataloader) =
                None))).
  { intros k Hk. unfold has_key. rewrite dl_args_lookup.
    apply mem_In in Hk. rewrite Hk. rewrite andb_true_l.
    pose proof (assoc_rev_None k
                  (LightningBatchSamplerWrapper.overrides dataloader))
      as Hov.
    destruct (assoc k (rev _)) as [v|].
    - split; [discriminate|]. intros [H _]. apply Hov in H. discriminate.
    - assert (Hmem : mem k (map fst (LightningBatchSamplerWrapper.overrides
                                       dataloader)) = false)
        by now apply Hov.
      destruct (mem k LightningBatchSamplerWrapper.SKIP_KEYS);
        cbn [negb andb]; [tauto|].
      destruct (private k); cbn [negb]; [tauto|].
      destruct (assoc k (LightningBatchSamplerWrapper.vars dataloader)).
      + split; [discriminate|].
        intros [_ [H|[H|H]]]; discriminate.
      + tauto. }
  destruct (filter _ valid) as [|m ms] eqn:Emiss.
  - rewrite filter_empty in Emiss. split.
    + destruct takes_dataset; [discriminate|].
      destruct (dict_del "dataset" dl_args); discriminate.
    + intros (k & Hk & Hskip & Hrest). exfalso.
      specialize (Emiss k Hk). rewrite Hskip in Emiss. simpl in Emiss.
      apply negb_false_iff in Emiss.
      apply (Hmissing k Hk) in Hrest. congruence.
  - split; [intros _|reflexivity].
    destruct (filter_head _ _ _ _ Emiss) as [Hm Hcond].
    apply andb_prop in Hcond. destruct Hcond as [H1 H2].
    apply negb_true_iff in H1, H2.
    exists m. split; [exact Hm|]. split; [exact H1|].
    now apply (Hmissing m Hm).
Qed.

End Recreate.

Lemma recreate_kwargs_witness :
  exists kwargs,
    LightningBatchSamplerWrapper.recreate_dataloader torch_signature
      forwarding_dataloader =
    Returns (LightningBatchSamplerWrapper.Rebuilt kwargs V_None) /\
    assoc "batch_sampler" kwargs = Some (V_Wrapper (V_Obj 2)) /\
    assoc "batch_size" kwargs = Some (V_Int 1) /\
    assoc "num_workers" kwargs = Some (V_Int 2) /\
    assoc "dataset" kwargs = None.
Proof.
  destruct (LightningBatchSamplerWrapper.recreate_dataloader torch_signature
              forwarding_dataloader) as [[|kwargs mpc]|e] eqn:E;
    try (vm_compute in E; discriminate).
  assert (Hmpc : mpc = V_None) by (vm_compute in E; congruence).
  subst mpc. exists kwargs. split; [reflexivity|].
  destruct (recreate_kwargs torch_signature forwarding_dataloader kwargs
              V_None E) as (_ & Hover & Hrest & Hall & Hds).
  split; [apply Hover; simpl; tauto|].
  split; [apply Hover; simpl; tauto|].
  split; [|apply Hds; reflexivity].
  pose proof (Hall "num_workers" ltac:(simpl; tauto) eq_refl
                ltac:(discriminate)) as Hhas.
  unfold has_key in Hhas.
  destruct (assoc "num_workers" kwargs) as [v|] eqn:Ev; [|discriminate].
  destruct (Hrest "num_workers" v eq_refl Ev) as (Hv & _).
  vm_compute in Hv. congruence.
Defined.

Lemma recreate_raises_witness :
  LightningBatchSamplerWrapper.recreate_dataloader torch_signature
    forwarding_dataloader <> Raises E_KeyError.
Proof.
  intros H.
  destruct (recreate_raises torch_signature forwarding_dataloader E_KeyError
              ltac:(simpl; tauto)) as (_ & _ & Hraise).
  destruct (Hraise H) as [Habs _]. discriminate Habs.
Defined.

Lemma recreate_gives_up_witness :
  LightningBatchSamplerWrapper.recreate_dataloader torch_signature
    forgetful_dataloader = Returns LightningBatchSamplerWrapper.Same.
Proof.
  apply (recreate_gives_up torch_signature forgetful_dataloader eq_refl
           eq_refl).
  exists "scale". split; [simpl; tauto|].
  split; [reflexivity|]. split; [reflexivity|].
  right. right. reflexivity.
Defined.

(** ** Dicts with keys of any type *)

Section DictGet.
Context {K V : Type}.
Variable eqb : K -> K -> bool.
Hypothesis eqb_eq : forall a b, eqb a b = true <-> a = b.

Lemma eqb_same (k : K) : eqb k k = true.
Proof. now apply eqb_eq. Qed.

Lemma eqb_differ (a b : K) : a <> b -> eqb a b = false.
Proof.
  intros H. destruct (eqb a b) eqn:E; [|reflexivity].
  apply eqb_eq in E. contradiction.
Qed.

Lemma dict_get_put (k k' : K) (v : V) (d : list (K * V)) :
  dict_get eqb k' (dict_put eqb k v d) =
  if eqb k' k then Some v else dict_get eqb k' d.
Proof.
  induction d as [|[k0 v0] d IH]; simpl; [reflexivity|].
  destruct (eqb k k0) eqn:E; simpl.
  - apply eqb_eq in E. subst k0. now destruct (eqb k' k).
  - rewrite IH. destruct (eqb k' k0) eqn:E0; [|reflexivity].
    apply eqb_eq in E0. subst k0.
    destruct (eqb k' k) eqn:E1; [|reflexivity].
    apply eqb_eq in E1. subst k'. rewrite eqb_same in E. discriminate.
Qed.

Lemma dict_get_put_same (k : K) (v : V) (d : list (K * V)) :
  dict_get eqb k (dict_put eqb k v d) = Some v.
Proof. now rewrite dict_get_put, eqb_same. Qed.

Lemma dict_get_put_other (k k' : K) (v : V) (d : list (K * V)) :
  k' <> k -> dict_get eqb k' (dict_put eqb k v d) = dict_get eqb k' d.
Proof. intros H. now rewrite dict_get_put, (eqb_differ _ _ H). Qed.

Lemma dict_put_length (k : K) (v : V) (d : list (K * V)) :
  0 < List.length (dict_put eqb k v d).
Proof.
  destruct d as [|[k0 v0] d]; simpl; [lia|].
  destruct (eqb k k0); simpl; lia.
Qed.

Lemma dict_get_In (k : K) (d : list (K * V)) :
  dict_get eqb k d <> None <-> In k (map fst d).
Proof.
  induction d as [|[k0 v0] d IH]; simpl; [tauto|].
  destruct (eqb k k0) eqn:E.
  - apply eqb_eq in E. subst. split; [now left|discriminate].
  - rewrite IH. split; [now right|].
    intros [H|H]; [|exact H]. subst. rewrite eqb_same in E. discriminate.
Qed.

End DictGet.

Lemma nat_eqb_eq (a b : nat) : Nat.eqb a b = true <-> a = b.
Proof. apply Nat.eqb_eq. Qed.

(** ** Loops *)

Lemma for_each_invariant {S A} (R : S -> S -> Prop)
    (body : A -> S -> S * outcome unit) :
  (forall s, R s s) ->
  (forall s1 s2 s3, R s1 s2 -> R s2 s3 -> R s1 s3) ->
  (forall a s, R s (fst (body a s))) ->
  forall l s, R s (fst (for_each body l s)).
Proof.
  intros Hrefl Htrans Hbody l.
  induction l as [|a l IH]; intros s; simpl; [apply Hrefl|].
  pose proof (Hbody a s) as Ha.
  destruct (body a s) as [s' [[]|e]]; simpl in *; [|exact Ha].
  now apply Htrans with s'.
Qed.

(** ** The cache of predictions *)

Section CacheProperties.
Context {Stage Id Tensor E : Type}.
Variable Stage_eqb : Stage -> Stage -> bool.
Variable Id_eqb : Id -> Id -> bool.
Variable tolist : Tensor -> list E.
Variable convert :
  PredictionCollection.obj Id Tensor -> PredictionCollection.obj Id Tensor.
Hypothesis Stage_eqb_eq : forall a b, Stage_eqb a b = true <-> a = b.
Hypothesis Id_eqb_eq : forall a b, Id_eqb a b = true <-> a = b.

Local Abbreviation obj := (@PredictionCollection.obj Id Tensor).
Local Abbreviation batch := (@PredictionCollection.batch Id Tensor).
Local Abbreviation t := (@PredictionCollection.t Stage Id Tensor E).
Local Abbreviation O_Num := (@PredictionCollection.O_Num Id Tensor).
Local Abbreviation O_Dict := (@PredictionCollection.O_Dict Id Tensor).
Local Abbreviation items := (@PredictionCollection.items Id Tensor).
Local Abbreviation append :=
  (@PredictionCollection.append Stage Stage_eqb Id Id_eqb Tensor E tolist
     convert).
Local Abbreviation _append_prediction :=
  (@PredictionCollection._append_prediction Stage Stage_eqb Id Id_eqb Tensor E
     convert).
Local Abbreviation stored :=
  (@PredictionCollection.stored Stage Stage_eqb Id Id_eqb Tensor E).
Local Abbreviation store_prediction :=
  (@PredictionCollection.store_prediction Id Id_eqb Tensor convert).
Local Abbreviation sample_id_of :=
  (@PredictionCollection.sample_id_of Id Tensor).
Local Abbreviation set_current_stage :=
  (@PredictionCollection.set_current_stage Stage Id Tensor E).
Local Abbreviation set_predictions :=
  (@PredictionCollection.set_predictions Stage Id Tensor E).
Local Abbreviation _predictions :=
  (@PredictionCollection._predictions Stage Id Tensor E).
Local Abbreviation _legacy_predictions :=
  (@PredictionCollection._legacy_predictions Stage Id Tensor E).
Local Abbreviation should_finalize_predictions :=
  (@PredictionCollection.should_finalize_predictions Stage Stage_eqb Id Tensor
     E).

(** What is stored for a prediction with its id. *)
Let value (auto : bool) (id : Id) (pred : obj) : obj :=
  if auto
  then O_Dict [(PredictionCollection.ID_KEY, O_Num id); ("predictions", pred)]
  else pred.

Let found (auto : bool) (bi : option (list Id)) (e : nat * obj) (i : Id)
    : Prop :=
  sample_id_of auto bi (fst e) (snd e) = Returns i.

Lemma store_step (auto : bool) (bi : option (list Id)) (e : nat * obj)
    (i : Id) (samples : list (Id * obj)) :
  found auto bi e i ->
  store_prediction auto bi e samples =
  match dict_get Id_eqb i samples with
  | Some _ => (samples, Raises E_MisconfigurationException)
  | None =>
      (dict_put Id_eqb i (convert (value auto i (snd e))) samples,
       Returns tt)
  end.
Proof.
  destruct e as [j p]. unfold found. cbn [fst snd]. intros H.
  unfold PredictionCollection.store_prediction. now rewrite H.
Qed.

(** The loop of [_append_prediction] on ids that are new and distinct:
    every prediction is stored under its id. *)
Lemma store_loop_done (auto : bool) (bi : option (list Id))
    (es : list (nat * obj)) (ids : list Id) :
  Forall2 (found auto bi) es ids ->
  forall samples,
  NoDup ids ->
  (forall i, In i ids -> dict_get Id_eqb i samples = None) ->
  let result := for_each (store_prediction auto bi) es samples in
  snd result = Returns tt /\
  Forall2
    (fun e i =>
       dict_get Id_eqb i (fst result) =
         Some (convert (value auto i (snd e)))) es ids /\
  (forall i, ~ In i ids ->
             dict_get Id_eqb i (fst result) = dict_get Id_eqb i samples).
Proof.
  induction 1 as [|e i es ids Hid Hall IH]; intros samples Hnd Hfresh result.
  - subst result. simpl. repeat split; auto.
  - subst result. cbn [for_each]. rewrite (store_step _ _ _ _ _ Hid).
    rewrite (Hfresh i (or_introl eq_refl)).
    inversion Hnd as [|? ? Hnot Hnd']; subst.
    set (samples1 :=
           dict_put Id_eqb i (convert (value auto i (snd e))) samples).
    assert (Hfresh1 : forall i', In i' ids ->
                                 dict_get Id_eqb i' samples1 = None).
    { intros i' Hin. unfold samples1.
      rewrite (dict_get_put_other Id_eqb Id_eqb_eq)
        by (intros ->; contradiction).
      apply Hfresh. now right. }
    destruct (IH samples1 Hnd' Hfresh1) as (Hret & Hall' & Hrest).
    split; [exact Hret|]. split.
    + constructor; [|exact Hall'].
      rewrite (Hrest i Hnot). unfold samples1.
      apply (dict_get_put_same Id_eqb Id_eqb_eq).
    + intros i' Hout. simpl in Hout.
      rewrite Hrest by tauto. unfold samples1.
      apply (dict_get_put_other Id_eqb Id_eqb_eq). intros ->. tauto.
Qed.

(** The loop that returns has met ids that were new and distinct. *)
Lemma store_loop_returns (auto : bool) (bi : option (list Id))
    (es : list (nat * obj)) (ids : list Id) :
  Forall2 (found auto bi) es ids ->
  forall samples,
  snd (for_each (store_prediction auto bi) es samples) = Returns tt ->
  NoDup ids /\ forall i, In i ids -> dict_get Id_eqb i samples = None.
Proof.
  induction 1 as [|e i es ids Hid Hall IH]; intros samples Hret.
  - split; [constructor|intros i []].
  - cbn [for_each] in Hret. rewrite (store_step _ _ _ _ _ Hid) in Hret.
    destruct (dict_get Id_eqb i samples) eqn:Ei; [discriminate Hret|].
    destruct (IH _ Hret) as [Hnd Hfresh].
    assert (Hnot : ~ In i ids).
    { intros Hin. apply Hfresh in Hin.
      rewrite (dict_get_put_same Id_eqb Id_eqb_eq) in Hin. discriminate. }
    split; [now constructor|].
    intros i' [<-|Hin]; [exact Ei|].
    pose proof (Hfresh i' Hin) as Hnone.
    rewrite (dict_get_put Id_eqb Id_eqb_eq) in Hnone.
    now destruct (Id_eqb i' i).
Qed.

(** The loop stops at the first id that is stored already, with the
    predictions before it stored. *)
Lemma store_loop_stopped (auto : bool) (bi : option (list Id))
    (es1 : list (nat * obj)) (pre : list Id) (e : nat * obj) (id : Id)
    (es2 : list (nat * obj)) :
  Forall2 (found auto bi) es1 pre ->
  found auto bi e id ->
  forall samples,
  NoDup pre ->
  (forall i, In i pre -> dict_get Id_eqb i samples = None) ->
  In id pre \/ dict_get Id_eqb id samples <> None ->
  let result :=
    for_each (store_prediction auto bi) (es1 ++ e :: es2) samples in
  snd result = Raises E_MisconfigurationException /\
  Forall2
    (fun e i =>
       dict_get Id_eqb i (fst result) =
         Some (convert (value auto i (snd e)))) es1 pre /\
  (forall i, ~ In i pre ->
             dict_get Id_eqb i (fst result) = dict_get Id_eqb i samples).
Proof.
  intros Hall He.
  induction Hall as [|e1 i es1 pre Hid Hall IH];
    intros samples Hnd Hfresh Hseen result.
  - subst result. cbn [app for_each]. rewrite (store_step _ _ _ _ _ He).
    destruct Hseen as [[]|Hseen].
    destruct (dict_get Id_eqb id samples); [|congruence].
    repeat split; auto.
  - subst result. cbn [app for_each]. rewrite (store_step _ _ _ _ _ Hid).
    rewrite (Hfresh i (or_introl eq_refl)).
    inversion Hnd as [|? ? Hnot Hnd']; subst.
    set (samples1 :=
           dict_put Id_eqb i (convert (value auto i (snd e1))) samples).
    assert (Hfresh1 : forall i', In i' pre ->
                                 dict_get Id_eqb i' samples1 = None).
    { intros i' Hin. unfold samples1.
      rewrite (dict_get_put_other Id_eqb Id_eqb_eq)
        by (intros ->; contradiction).
      apply Hfresh. now right. }
    assert (Hseen1 : In id pre \/ dict_get Id_eqb id samples1 <> None).
    { unfold samples1. rewrite (dict_get_put Id_eqb Id_eqb_eq).
      destruct (Id_eqb id i) eqn:Eid; [right; discriminate|].
      destruct Hseen as [[->|Hin]|Hget]; auto.
      rewrite (eqb_same Id_eqb Id_eqb_eq) in Eid. discriminate. }
    destruct (IH samples1 Hnd' Hfresh1 Hseen1) as (Hret & Hall' & Hrest).
    split; [exact Hret|]. split.
    + constructor; [|exact Hall'].
      rewrite (Hrest i Hnot). unfold samples1.
      apply (dict_get_put_same Id_eqb Id_eqb_eq).
    + intros i' Hout. simpl in Hout.
      rewrite Hrest by tauto. unfold samples1.
      apply (dict_get_put_other Id_eqb Id_eqb_eq). intros ->. tauto.
Qed.

(** The loop that returns has found an id for every prediction. *)
Lemma store_loop_ids (auto : bool) (bi : option (list Id))
    (es : list (nat * obj)) : forall samples,
  snd (for_each (store_prediction auto bi) es samples) = Returns tt ->
  exists ids, Forall2 (found auto bi) es ids.
Proof.
  induction es as [|[j p] es IH]; intros samples H.
  - exists []. constructor.
  - cbn [for_each] in H.
    destruct (store_prediction auto bi (j, p) samples) as [s' r] eqn:Estep.
    unfold PredictionCollection.store_prediction in Estep.
    destruct (sample_id_of auto bi j p) as [i|e] eqn:Ei;
      [|injection Estep as <- <-; discriminate H].
    destruct (dict_get Id_eqb i samples);
      injection Estep as <- <-; [discriminate H|].
    destruct (IH _ H) as (ids & Hids).
    exists (i :: ids). now constructor.
Qed.

(** The loop never takes a stored prediction away. *)
Lemma store_loop_keeps (auto : bool) (bi : option (list Id))
    (es : list (nat * obj)) (samples : list (Id * obj)) (id : Id) (v : obj) :
  dict_get Id_eqb id samples = Some v ->
  dict_get Id_eqb id (fst (for_each (store_prediction auto bi) es samples)) =
    Some v.
Proof.
  revert id v.
  apply (for_each_invariant
           (fun s s' : list (Id * obj) =>
              forall id v, dict_get Id_eqb id s = Some v ->
                           dict_get Id_eqb id s' = Some v)).
  - auto.
  - auto.
  - intros [j p] s id v Hv.
    unfold PredictionCollection.store_prediction.
    destruct (sample_id_of auto bi j p) as [i|e]; [|exact Hv].
    destruct (dict_get Id_eqb i s) eqn:Ei; [exact Hv|]. cbn [fst].
    rewrite (dict_get_put Id_eqb Id_eqb_eq).
    destruct (Id_eqb id i) eqn:Eid; [|exact Hv].
    apply Id_eqb_eq in Eid. subst. congruence.
Qed.

(** With auto ids the id of the [j]-th prediction is the [j]-th batch
    index. *)
Lemma auto_ids (ps : list obj) : forall (front indices back : list Id),
  List.length ps = List.length indices ->
  Forall2 (found true (Some (front ++ indices ++ back)))
    (combine (seq (List.length front) (List.length ps)) ps) indices.
Proof.
  induction ps as [|p ps IH]; intros front [|i indices] back Hlen;
    try discriminate Hlen; [constructor|].
  cbn [List.length seq combine]. constructor.
  - unfold found. cbn [fst snd]. unfold PredictionCollection.sample_id_of.
    rewrite nth_error_app2 by lia. now rewrite Nat.sub_diag.
  - specialize (IH (front ++ [i]) indices back
                  ltac:(simpl in Hlen; lia)).
    rewrite <- app_assoc in IH. rewrite length_app in IH. simpl in IH.
    now rewrite Nat.add_1_r in IH.
Qed.

Lemma enumerate_app {A} (a b : list A) : forall s,
  combine (seq s (List.length (a ++ b))) (a ++ b) =
  combine (seq s (List.length a)) a ++
  combine (seq (s + List.length a) (List.length b)) b.
Proof.
  induction a as [|x a IH]; intros s; simpl.
  - now rewrite Nat.add_0_r.
  - rewrite IH. now rewrite Nat.add_succ_r.
Qed.

Lemma Forall2_enumerate {A B} (Q : A -> B -> Prop) (l : list A) :
  forall s (ids : list B),
  Forall2 (fun e i => Q (snd e) i) (combine (seq s (List.length l)) l) ids ->
  Forall2 Q l ids.
Proof.
  induction l as [|x l IH]; intros s ids H; simpl in H.
  - inversion H. constructor.
  - inversion H as [|? i ? ids' Hx Hrest]; subst.
    constructor; [exact Hx|]. now apply (IH (S s)).
Qed.

Lemma enumerate_length {A} (l : list A) :
  List.length (PredictionCollection.enumerate l) = List.length l.
Proof.
  unfold PredictionCollection.enumerate.
  rewrite length_combine, length_seq. lia.
Qed.

(** What [_append_prediction] leaves in the collection. *)
Lemma append_prediction_run (self : t) (stage : Stage)
    (cache : PredictionCollection.cache Id Tensor) (predictions : batch)
    (ps : list obj) (dl_idx : nat) (bi : option (list Id)) (auto : bool) :
  dict_get Stage_eqb stage (_predictions self) = Some cache ->
  items predictions = Some ps ->
  let samples :=
    match dict_get Nat.eqb dl_idx cache with
    | Some samples => samples
    | None => []
    end in
  let loop :=
    for_each (store_prediction auto bi) (PredictionCollection.enumerate ps)
      samples in
  _append_prediction (set_current_stage self stage) predictions dl_idx bi
    auto =
  (set_predictions (set_current_stage self stage)
     (dict_put Stage_eqb stage (dict_put Nat.eqb dl_idx (fst loop) cache)
        (_predictions self)),
   snd loop).
Proof.
  intros Hstage Hitems samples loop.
  unfold PredictionCollection._append_prediction,
    PredictionCollection.predictions.
  cbn [PredictionCollection.current_stage
         PredictionCollection.set_current_stage
         PredictionCollection._predictions].
  rewrite Hstage, Hitems. fold samples. fold loop.
  now destruct loop.
Qed.

Lemma stored_put (self : t) (stage : Stage)
    (cache : PredictionCollection.cache Id Tensor) (dl_idx : nat)
    (samples : list (Id * obj)) (stage' : Stage) (dl' : nat) (id : Id) :
  dict_get Stage_eqb stage (_predictions self) = Some cache ->
  stored
    (set_predictions (set_current_stage self stage)
       (dict_put Stage_eqb stage (dict_put Nat.eqb dl_idx samples cache)
          (_predictions self))) stage' dl' id =
  if Stage_eqb stage' stage && Nat.eqb dl' dl_idx
  then dict_get Id_eqb id samples
  else stored self stage' dl' id.
Proof.
  intros Hstage. unfold PredictionCollection.stored.
  cbn [PredictionCollection._predictions
         PredictionCollection.set_predictions].
  rewrite (dict_get_put Stage_eqb Stage_eqb_eq).
  destruct (Stage_eqb stage' stage) eqn:Es; [|reflexivity].
  apply Stage_eqb_eq in Es. subst stage'. rewrite Hstage.
  rewrite (dict_get_put Nat.eqb nat_eqb_eq).
  now destruct (Nat.eqb dl' dl_idx).
Qed.

Lemma stored_before (self : t) (stage : Stage)
    (cache : PredictionCollection.cache Id Tensor) (dl_idx : nat) (id : Id) :
  dict_get Stage_eqb stage (_predictions self) = Some cache ->
  stored self stage dl_idx id =
  dict_get Id_eqb id
    match dict_get Nat.eqb dl_idx cache with
    | Some samples => samples
    | None => []
    end.
Proof.
  intros Hstage. unfold PredictionCollection.stored. rewrite Hstage.
  now destruct (dict_get Nat.eqb dl_idx cache).
Qed.

Lemma stored_set_current_stage (self : t) (stage stage' : Stage) (dl : nat)
    (id : Id) :
  stored (set_current_stage self stage) stage' dl id =
  stored self stage' dl id.
Proof. reflexivity. Qed.

(** [_append_prediction] past the property [predictions], or stopped by
    it. *)
Lemma append_prediction_cases (self : t) (stage : Stage)
    (predictions : batch) (dl_idx : nat) (bi : option (list Id))
    (auto : bool) :
  items predictions <> None ->
  (exists cache ps,
      dict_get Stage_eqb stage (_predictions self) = Some cache /\
      items predictions = Some ps) \/
  (dict_get Stage_eqb stage (_predictions self) = None /\
   _append_prediction (set_current_stage self stage) predictions dl_idx bi
     auto = (set_current_stage self stage, Raises E_KeyError)).
Proof.
  intros Hitems.
  destruct (dict_get Stage_eqb stage (_predictions self)) as [cache|] eqn:Es.
  - left. destruct (items predictions) as [ps|] eqn:Ei; [|congruence].
    now exists cache, ps.
  - right. split; [reflexivity|].
    unfold PredictionCollection._append_prediction,
      PredictionCollection.predictions.
    cbn [PredictionCollection.current_stage
           PredictionCollection.set_current_stage
           PredictionCollection._predictions].
    now rewrite Es.
Qed.

(** [append] returns at once, or stops at one of its checks with nothing
    but [current_stage] changed, or goes on to [_append_prediction]. *)
Lemma append_cases (self : t) (predictions : batch) (dl_idx : nat)
    (bi : option (list Id)) (stage : Stage) (auto : bool) :
  append self predictions dl_idx bi stage auto = (self, Returns tt) \/
  (exists r,
     append self predictions dl_idx bi stage auto =
       (set_current_stage self stage, r)) \/
  (items predictions <> None /\
   (auto = true -> bi <> None) /\
   append self predictions dl_idx bi stage auto =
     _append_prediction (set_current_stage self stage) predictions dl_idx bi
       auto).
Proof.
  unfold PredictionCollection.append.
  destruct predictions as [|[|p l]|l|rows]; try (now left);
    (destruct auto;
     [destruct bi as [indices|]; [|right; left; now eexists];
      destruct (negb _); [right; left; now eexists|];
      right; right; repeat split; discriminate
     |destruct (negb (forallb _ _)); [right; left; now eexists|];
      destruct (negb (forallb _ _)); [right; left; now eexists|];
      right; right; repeat split; discriminate]).
Qed.

(** X15.  [append] takes nothing away: whatever it is given and whether it
    returns or raises, every prediction stored before the call is stored
    after it, with the same value; the predictions of the other stages and
    of the other dataloaders are as they were, and so is the legacy
    store. *)
Theorem append_keeps_predictions (self : t) (predictions : batch)
    (dl_idx : nat) (batch_indices : option (list Id)) (stage : Stage)
    (enable_predict_auto_id : bool) :
  let after :=
    fst (append self predictions dl_idx batch_indices stage
           enable_predict_auto_id) in
  (forall stage' dl' id v,
     stored self stage' dl' id = Some v ->
     stored after stage' dl' id = Some v) /\
  (forall stage' dl' id,
     stage' <> stage \/ dl' <> dl_idx ->
     stored after stage' dl' id = stored self stage' dl' id) /\
  _legacy_predictions after = _legacy_predictions self.
Proof.
  intros after. subst after.
  destruct (append_cases self predictions dl_idx batch_indices stage
              enable_predict_auto_id) as [H|[(r & H)|(Hitems & _ & H)]];
    rewrite H; clear H; cbn [fst]; auto.
  destruct (append_prediction_cases self stage predictions dl_idx
              batch_indices enable_predict_auto_id Hitems)
    as [(cache & ps & Hstage & Hps)|(_ & H)];
    [|rewrite H; cbn [fst]; auto].
  rewrite (append_prediction_run self stage cache predictions ps dl_idx
             batch_indices enable_predict_auto_id Hstage Hps).
  cbn [fst]. split; [|split; [|reflexivity]].
  - intros stage' dl' id v Hv.
    rewrite (stored_put _ _ _ _ _ _ _ _ Hstage).
    destruct (Stage_eqb stage' stage && Nat.eqb dl' dl_idx) eqn:Esame;
      [|exact Hv].
    apply andb_prop in Esame. destruct Esame as [E1 E2].
    apply Stage_eqb_eq in E1. apply Nat.eqb_eq in E2. subst stage' dl'.
    apply store_loop_keeps.
    now rewrite <- (stored_before self stage cache dl_idx id Hstage).
  - intros stage' dl' id Hother.
    rewrite (stored_put _ _ _ _ _ _ _ _ Hstage).
    destruct (Stage_eqb stage' stage && Nat.eqb dl' dl_idx) eqn:Esame;
      [|reflexivity].
    apply andb_prop in Esame. destruct Esame as [E1 E2].
    apply Stage_eqb_eq in E1. apply Nat.eqb_eq in E2. tauto.
Qed.

Lemma store_loop_outcome (auto : bool) (bi : option (list Id))
    (es : list (nat * obj)) (ids : list Id) :
  Forall2 (found auto bi) es ids ->
  forall samples,
  snd (for_each (store_prediction auto bi) es samples) = Returns tt \/
  snd (for_each (store_prediction auto bi) es samples) =
    Raises E_MisconfigurationException.
Proof.
  induction 1 as [|e i es ids Hid Hall IH]; intros samples; [now left|].
  cbn [for_each]. rewrite (store_step _ _ _ _ _ Hid).
  destruct (dict_get Id_eqb i samples); [now right|apply IH].
Qed.

Lemma Forall2_Forall_l {A B} (P : A -> Prop) (R : A -> B -> Prop)
    (l : list A) (l' : list B) :
  Forall P l -> Forall2 R l l' -> Forall2 (fun a b => P a /\ R a b) l l'.
Proof.
  intros HP HR. induction HR as [|a b l l' Hab HR IH]; [constructor|].
  inversion HP; subst. constructor; auto.
Qed.

Lemma Forall2_both {A B} (R1 R2 : A -> B -> Prop) (l : list A)
    (l' : list B) :
  Forall2 R1 l l' -> Forall2 R2 l l' ->
  Forall2 (fun a b => R1 a b /\ R2 a b) l l'.
Proof.
  intros H1. induction H1 as [|a b l l' Hab H1 IH]; intros H2;
    inversion H2; subst; constructor; auto.
Qed.

(** With auto ids and the lengths checked, [append] returns at once on an
    empty list or goes on to [_append_prediction]. *)
Lemma append_auto_run (self : t) (predictions : batch) (ps : list obj)
    (dl_idx : nat) (indices : list Id) (stage : Stage) :
  items predictions = Some ps ->
  List.length ps = List.length indices ->
  (predictions = @PredictionCollection.B_List Id Tensor [] /\ ps = [] /\
   append self predictions dl_idx (Some indices) stage true =
     (self, Returns tt)) \/
  append self predictions dl_idx (Some indices) stage true =
    _append_prediction (set_current_stage self stage) predictions dl_idx
      (Some indices) true.
Proof.
  intros Hitems Hlen. unfold PredictionCollection.append.
  assert (Hcheck : Nat.eqb (PredictionCollection.batch_len predictions)
                     (List.length indices) = true).
  { unfold PredictionCollection.batch_len. rewrite Hitems.
    now apply Nat.eqb_eq. }
  destruct predictions as [|[|p l]|l|rows]; try discriminate Hitems.
  - left. injection Hitems as <-. now repeat split.
  - right. now rewrite Hcheck.
  - right. now rewrite Hcheck.
  - right. now rewrite Hcheck.
Qed.

Lemma stored_after_loop (self : t) (stage : Stage)
    (cache : PredictionCollection.cache Id Tensor) (dl_idx : nat)
    (samples : list (Id * obj)) (id : Id) :
  dict_get Stage_eqb stage (_predictions self) = Some cache ->
  stored
    (set_predictions (set_current_stage self stage)
       (dict_put Stage_eqb stage (dict_put Nat.eqb dl_idx samples cache)
          (_predictions self))) stage dl_idx id =
  dict_get Id_eqb id samples.
Proof.
  intros Hstage. rewrite (stored_put _ _ _ _ _ _ _ _ Hstage).
  now rewrite (eqb_same Stage_eqb Stage_eqb_eq), Nat.eqb_refl.
Qed.

(** X16.  With auto ids, in a stage of the collection and with as many batch
    indices as predictions, [append] returns exactly when the batch
    indices are distinct and none of them has a prediction already; it
    then keeps every prediction under its batch index, as the dict of the
    id and the prediction with the tensors converted; and when it does
    not return it raises [MisconfigurationException]. *)
Theorem append_auto_id (self : t) (predictions : batch) (ps : list obj)
    (dl_idx : nat) (indices : list Id) (stage : Stage) :
  dict_get Stage_eqb stage (_predictions self) <> None ->
  items predictions = Some ps ->
  List.length ps = List.length indices ->
  let r := append self predictions dl_idx (Some indices) stage true in
  (snd r = Returns tt <->
   NoDup indices /\
   forall id, In id indices -> stored self stage dl_idx id = None) /\
  (snd r = Returns tt ->
   Forall2
     (fun pred id =>
        stored (fst r) stage dl_idx id =
          Some (convert (O_Dict [("id", O_Num id); ("predictions", pred)])))
     ps indices) /\
  (snd r <> Returns tt -> snd r = Raises E_MisconfigurationException).
Proof.
  intros Hknown Hitems Hlen r. subst r.
  destruct (dict_get Stage_eqb stage (_predictions self)) as [cache|]
    eqn:Hstage; [clear Hknown|congruence].
  destruct (append_auto_run self predictions ps dl_idx indices stage Hitems
              Hlen) as [(_ & -> & H)|H]; rewrite H; clear H.
  - destruct indices; [|discriminate Hlen]. cbn [fst snd].
    split; [|split].
    + split; [intros _; split; [constructor|intros id []]|reflexivity].
    + constructor.
    + congruence.
  - rewrite (append_prediction_run self stage cache predictions ps dl_idx
               (Some indices) true Hstage Hitems).
    cbn [fst snd].
    pose proof (auto_ids ps [] indices [] Hlen) as Hfound.
    cbn [app List.length] in Hfound. rewrite app_nil_r in Hfound.
    fold (PredictionCollection.enumerate ps) in Hfound.
    set (samples :=
           match dict_get Nat.eqb dl_idx cache with
           | Some samples => samples
           | None => []
           end) in *.
    assert (Hfresh : (forall id, In id indices ->
                                 stored self stage dl_idx id = None) <->
                     (forall id, In id indices ->
                                 dict_get Id_eqb id samples = None)).
    { split; intros Hf id Hin; specialize (Hf id Hin);
        now rewrite (stored_before self stage cache dl_idx id Hstage) in *. }
    assert (Hback : snd (for_each (store_prediction true (Some indices))
                           (PredictionCollection.enumerate ps) samples) =
                      Returns tt ->
                    NoDup indices /\
                    forall id, In id indices ->
                               dict_get Id_eqb id samples = None)
      by apply (store_loop_returns _ _ _ _ Hfound).
    split; [|split].
    + split.
      * intros Hret. destruct (Hback Hret) as [Hnd Hf].
        split; [exact Hnd|exact (proj2 Hfresh Hf)].
      * intros [Hnd Hf]. pose proof (proj1 Hfresh Hf) as Hf'.
        now destruct (store_loop_done _ _ _ _ Hfound samples Hnd Hf').
    + intros Hret. destruct (Hback Hret) as [Hnd Hf].
      destruct (store_loop_done _ _ _ _ Hfound samples Hnd Hf)
        as (_ & Hall & _).
      apply (Forall2_enumerate _ ps 0).
      eapply Forall2_impl; [|exact Hall].
      intros e id He. cbv beta in He.
      now rewrite (stored_after_loop _ _ _ _ _ _ Hstage).
    + intros Hnot.
      destruct (store_loop_outcome _ _ _ _ Hfound samples) as [Hr|Hr];
        [contradiction|exact Hr].
Qed.

(** X17.  With auto ids, [append] stops at the first batch index that has a
    prediction already or that stands earlier in the batch: it raises
    [MisconfigurationException], and the predictions before that one stay
    in the collection, each under its batch index; nothing else is
    stored. *)
Theorem append_stops_at_duplicate (self : t) (predictions : batch)
    (ps1 : list obj) (p : obj) (ps2 : list obj) (dl_idx : nat)
    (pre : list Id) (id : Id) (post : list Id) (stage : Stage) :
  dict_get Stage_eqb stage (_predictions self) <> None ->
  items predictions = Some (ps1 ++ p :: ps2) ->
  List.length ps1 = List.length pre ->
  List.length ps2 = List.length post ->
  NoDup pre ->
  (forall i, In i pre -> stored self stage dl_idx i = None) ->
  In id pre \/ stored self stage dl_idx id <> None ->
  let r :=
    append self predictions dl_idx (Some (pre ++ id :: post)) stage true in
  snd r = Raises E_MisconfigurationException /\
  Forall2
    (fun pred i =>
       stored (fst r) stage dl_idx i =
         Some (convert (O_Dict [("id", O_Num i); ("predictions", pred)])))
    ps1 pre /\
  (forall i, ~ In i pre ->
             stored (fst r) stage dl_idx i = stored self stage dl_idx i).
Proof.
  intros Hknown Hitems Hlen1 Hlen2 Hnd Hfresh Hseen r. subst r.
  destruct (dict_get Stage_eqb stage (_predictions self)) as [cache|]
    eqn:Hstage; [clear Hknown|congruence].
  assert (Hlen : List.length (ps1 ++ p :: ps2) =
                 List.length (pre ++ id :: post))
    by (rewrite !length_app; simpl; lia).
  destruct (append_auto_run self predictions _ dl_idx _ stage Hitems Hlen)
    as [(_ & Habs & _)|H]; [now destruct ps1|].
  rewrite H; clear H.
  rewrite (append_prediction_run self stage cache predictions _ dl_idx
             (Some (pre ++ id :: post)) true Hstage Hitems).
  cbn [fst snd].
  unfold PredictionCollection.enumerate.
  rewrite (enumerate_app ps1 (p :: ps2) 0).
  cbn [List.length seq combine Nat.add].
  set (samples :=
         match dict_get Nat.eqb dl_idx cache with
         | Some samples => samples
         | None => []
         end).
  pose proof (auto_ids ps1 [] pre (id :: post) Hlen1) as Hfound.
  cbn [app List.length] in Hfound.
  assert (He : found true (Some (pre ++ id :: post))
                 (List.length ps1, p) id).
  { unfold found. cbn [fst snd]. unfold PredictionCollection.sample_id_of.
    rewrite nth_error_app2 by lia. now rewrite Hlen1, Nat.sub_diag. }
  assert (Hf : forall i, In i pre -> dict_get Id_eqb i samples = None).
  { intros i Hin. specialize (Hfresh i Hin).
    now rewrite (stored_before self stage cache dl_idx i Hstage) in Hfresh. }
  assert (Hs : In id pre \/ dict_get Id_eqb id samples <> None).
  { destruct Hseen as [Hin|Hst]; [now left|right].
    now rewrite (stored_before self stage cache dl_idx id Hstage) in Hst. }
  destruct (store_loop_stopped true (Some (pre ++ id :: post)) _ pre _ id
              (combine (seq (S (List.length ps1)) (List.length ps2)) ps2)
              Hfound He samples Hnd Hf Hs) as (Hret & Hall & Hrest).
  split; [exact Hret|]. split.
  - apply (Forall2_enumerate _ ps1 0).
    eapply Forall2_impl; [|exact Hall].
    intros e i Hi. cbv beta in Hi.
    now rewrite (stored_after_loop _ _ _ _ _ _ Hstage).
  - intros i Hout.
    rewrite (stored_after_loop _ _ _ _ _ _ Hstage).
    rewrite (Hrest i Hout).
    now rewrite (stored_before self stage cache dl_idx i Hstage).
Qed.

Lemma found_own_id (bi : option (list Id)) (e : nat * obj) (i : Id) :
  found false bi e i ->
  exists d, snd e = O_Dict d /\ assoc "id" d = Some (O_Num i).
Proof.
  destruct e as [j p]. unfold found. cbn [fst snd].
  unfold PredictionCollection.sample_id_of, PredictionCollection.ID_KEY.
  destruct p as [n|x|l|d]; try discriminate.
  destruct (assoc "id" d) as [[n|x|l|d']|] eqn:Ed; try discriminate.
  intros H. injection H as <-. now exists d.
Qed.

(** X18.  Without auto ids, an [append] that returns has found every prediction
    to be a dict of more than one key whose [id] is a number; the ids are
    distinct and none had a prediction before; and each prediction is
    kept under its own id, with its tensors converted. *)
Theorem append_own_id (self after : t) (predictions : batch)
    (ps : list obj) (dl_idx : nat) (batch_indices : option (list Id))
    (stage : Stage) :
  append self predictions dl_idx batch_indices stage false =
    (after, Returns tt) ->
  items predictions = Some ps ->
  exists ids,
    Forall2
      (fun pred id =>
         (exists d, pred = O_Dict d /\ assoc "id" d = Some (O_Num id) /\
                    1 < List.length d) /\
         stored after stage dl_idx id = Some (convert pred)) ps ids /\
    NoDup ids /\
    (forall id, In id ids -> stored self stage dl_idx id = None).
Proof.
  intros Happ Hitems.
  assert (Hcases :
            ps = [] \/
            (forallb (@PredictionCollection.more_than_one Id Tensor E tolist)
               ps = true /\
             _append_prediction (set_current_stage self stage) predictions
               dl_idx batch_indices false = (after, Returns tt))).
  { unfold PredictionCollection.append in Happ.
    rewrite Hitems in Happ.
    destruct predictions as [|[|p l]|l|rows]; try discriminate Hitems;
      [left; now injection Hitems| | |];
      (destruct (forallb (@PredictionCollection.dict_with_id Id Tensor) ps);
       [|discriminate Happ]);
      (destruct (forallb
                   (@PredictionCollection.more_than_one Id Tensor E tolist)
                   ps); [|discriminate Happ]);
      right; now split. }
  destruct Hcases as [->|[Hmore Hrun]].
  { exists []. split; [constructor|]. split; [constructor|intros id []]. }
  destruct (append_prediction_cases self stage predictions dl_idx
              batch_indices false ltac:(congruence))
    as [(cache & ps' & Hstage & Hps)|(_ & H)];
    [|rewrite H in Hrun; discriminate Hrun].
  assert (ps' = ps) by congruence. subst ps'.
  rewrite (append_prediction_run self stage cache predictions ps dl_idx
             batch_indices false Hstage Hitems) in Hrun.
  injection Hrun as Hafter Hret.
  set (samples :=
         match dict_get Nat.eqb dl_idx cache with
         | Some samples => samples
         | None => []
         end) in *.
  destruct (store_loop_ids _ _ _ _ Hret) as (ids & Hfound).
  destruct (store_loop_returns _ _ _ _ Hfound samples Hret) as [Hnd Hf].
  destruct (store_loop_done _ _ _ _ Hfound samples Hnd Hf) as (_ & Hall & _).
  exists ids. split; [|split; [exact Hnd|]].
  - pose proof (proj1 (forallb_forall _ _) Hmore) as Hmore'.
    clear Hmore. pose proof (proj2 (Forall_forall _ _) Hmore') as Hmore.
    pose proof (Forall2_both _ _ _ _ Hfound Hall) as Hboth.
    assert (Hkept : Forall2
                    (fun pred id =>
                       (exists d, pred = O_Dict d /\
                                  assoc "id" d = Some (O_Num id)) /\
                       stored after stage dl_idx id = Some (convert pred))
                    ps ids).
    { apply (Forall2_enumerate _ ps 0).
      eapply Forall2_impl; [|exact Hboth].
      intros e id [Hid Hget]. cbv beta. split.
      * exact (found_own_id _ _ _ Hid).
      * rewrite <- Hafter.
        now rewrite (stored_after_loop _ _ _ _ _ _ Hstage). }
    pose proof (Forall2_Forall_l _ _ _ _ Hmore Hkept) as Hall3.
    eapply Forall2_impl; [|exact Hall3].
    intros pred id (Hm & (d & -> & Hd) & Hst). split; [|exact Hst].
    exists d. repeat split; auto. now apply Nat.ltb_lt.
  - intros id Hin.
    rewrite (stored_before self stage cache dl_idx id Hstage).
    now apply Hf.
Qed.

Variable LoggerStages : list Stage.

Lemma dict_get_fresh (stage : Stage) (l : list Stage) :
  dict_get Stage_eqb stage
    (map (fun s => (s, @nil (nat * list (Id * obj)))) l) =
  if existsb (Stage_eqb stage) l then Some [] else None.
Proof.
  induction l as [|s l IH]; simpl; [reflexivity|].
  destruct (Stage_eqb stage s); [reflexivity|exact IH].
Qed.

(** X19.  [should_finalize_predictions] on a new collection is false for a
    member of [LoggerStages] and raises [KeyError] for anything else; and
    it is true once an [append] for the stage has got past its checks and
    returned, whether or not that call had a prediction to store. *)
Theorem should_finalize_after_append (global_rank world_size : nat)
    (self after : t) (predictions : batch) (dl_idx : nat)
    (batch_indices : option (list Id)) (stage : Stage)
    (enable_predict_auto_id : bool) :
  (In stage LoggerStages ->
   snd (should_finalize_predictions
          (@PredictionCollection.__init__ Stage LoggerStages Id Tensor E
             global_rank world_size) stage) = Returns false) /\
  (~ In stage LoggerStages ->
   snd (should_finalize_predictions
          (@PredictionCollection.__init__ Stage LoggerStages Id Tensor E
             global_rank world_size) stage) = Raises E_KeyError) /\
  (append self predictions dl_idx batch_indices stage
     enable_predict_auto_id = (after, Returns tt) ->
   predictions <> @PredictionCollection.B_None Id Tensor ->
   predictions <> @PredictionCollection.B_List Id Tensor [] ->
   (enable_predict_auto_id = true -> batch_indices <> None) ->
   snd (should_finalize_predictions after stage) = Returns true).
Proof.
  split; [|split].
  - intros Hin.
    unfold PredictionCollection.should_finalize_predictions,
      PredictionCollection.predictions, PredictionCollection.__init__.
    cbn [PredictionCollection.current_stage
           PredictionCollection.set_current_stage
           PredictionCollection._predictions].
    rewrite dict_get_fresh.
    assert (H : existsb (Stage_eqb stage) LoggerStages = true).
    { apply existsb_exists. exists stage.
      split; [exact Hin|apply (eqb_same Stage_eqb Stage_eqb_eq)]. }
    now rewrite H.
  - intros Hout.
    unfold PredictionCollection.should_finalize_predictions,
      PredictionCollection.predictions, PredictionCollection.__init__.
    cbn [PredictionCollection.current_stage
           PredictionCollection.set_current_stage
           PredictionCollection._predictions].
    rewrite dict_get_fresh.
    destruct (existsb (Stage_eqb stage) LoggerStages) eqn:H;
      [|reflexivity].
    apply existsb_exists in H. destruct H as (s & Hs & E1).
    apply Stage_eqb_eq in E1. subst. contradiction.
  - intros Happ Hnone Hempty Hbi.
    assert (Hrun : _append_prediction (set_current_stage self stage)
                     predictions dl_idx batch_indices
                     enable_predict_auto_id = (after, Returns tt) /\
                   items predictions <> None).
    { unfold PredictionCollection.append in Happ.
      destruct predictions as [|[|p l]|l|rows]; try congruence;
        (split; [|discriminate]);
        (destruct enable_predict_auto_id;
         [destruct batch_indices as [indices|];
          [|now specialize (Hbi eq_refl)];
          destruct (negb (Nat.eqb _ _)); [discriminate Happ|exact Happ]
         |destruct (negb (forallb _ _)); [discriminate Happ|];
          destruct (negb (forallb _ _)); [discriminate Happ|exact Happ]]). }
    destruct Hrun as [Hrun Hitems].
    destruct (append_prediction_cases self stage predictions dl_idx
                batch_indices enable_predict_auto_id Hitems)
      as [(cache & ps & Hstage & Hps)|(_ & H)];
      [|rewrite H in Hrun; discriminate Hrun].
    rewrite (append_prediction_run self stage cache predictions ps dl_idx
               batch_indices enable_predict_auto_id Hstage Hps) in Hrun.
    injection Hrun as Hafter _. rewrite <- Hafter.
    unfold PredictionCollection.should_finalize_predictions,
      PredictionCollection.predictions.
    cbn [PredictionCollection.current_stage
           PredictionCollection.set_current_stage
           PredictionCollection.set_predictions
           PredictionCollection._predictions].
    rewrite (dict_get_put_same Stage_eqb Stage_eqb_eq). cbn [snd].
    f_equal. apply Nat.ltb_lt. apply dict_put_length.
Qed.

Lemma dict_put_new (samples : list (Id * obj)) (i : Id) (v : obj) :
  dict_get Id_eqb i samples = None ->
  dict_put Id_eqb i v samples = samples ++ [(i, v)].
Proof.
  induction samples as [|[k0 v0] samples IH]; simpl; [reflexivity|].
  destruct (Id_eqb i k0); [discriminate|].
  intros H. now rewrite IH.
Qed.

(** The loop keeps the predictions in the order it meets them, after the
    ones that were there. *)
Lemma store_loop_order (auto : bool) (bi : option (list Id))
    (es : list (nat * obj)) (ids : list Id) :
  Forall2 (found auto bi) es ids ->
  forall samples,
  NoDup ids ->
  (forall i, In i ids -> dict_get Id_eqb i samples = None) ->
  fst (for_each (store_prediction auto bi) es samples) =
  samples ++
  map (fun ei => (snd ei, convert (value auto (snd ei) (snd (fst ei)))))
    (combine es ids).
Proof.
  induction 1 as [|e i es ids Hid Hall IH]; intros samples Hnd Hfresh.
  - simpl. now rewrite app_nil_r.
  - cbn [for_each]. rewrite (store_step _ _ _ _ _ Hid).
    rewrite (Hfresh i (or_introl eq_refl)).
    inversion Hnd as [|? ? Hnot Hnd']; subst.
    rewrite IH.
    + rewrite (dict_put_new _ _ _ (Hfresh i (or_introl eq_refl))).
      now rewrite <- app_assoc.
    + exact Hnd'.
    + intros i' Hin.
      rewrite (dict_get_put_other Id_eqb Id_eqb_eq)
        by (intros ->; contradiction).
      apply Hfresh. now right.
Qed.

Lemma combine_enumerate {B C} (f : obj -> B -> C) (ps : list obj) :
  forall s (ids : list B),
  map (fun ei : nat * obj * B => f (snd (fst ei)) (snd ei))
    (combine (combine (seq s (List.length ps)) ps) ids) =
  map (fun pi => f (fst pi) (snd pi)) (combine ps ids).
Proof.
  induction ps as [|p ps IH]; intros s [|i ids]; simpl; try reflexivity.
  now rewrite IH.
Qed.

Lemma nth_error_enumerate {A} (l : list A) (i : nat) (x : A) :
  nth_error l i = Some x ->
  nth_error (PredictionCollection.enumerate l) i = Some (i, x).
Proof.
  unfold PredictionCollection.enumerate.
  assert (H : forall s l i, nth_error l i = Some x ->
                nth_error (combine (seq s (List.length l)) l) i =
                  Some (s + i, x)).
  { clear. intros s l. revert s.
    induction l as [|a l IH]; intros s [|i] H; try discriminate H.
    - injection H as ->. simpl. now rewrite Nat.add_0_r.
    - simpl in *. rewrite (IH (S s) i H). f_equal. f_equal. lia. }
  intros Hx. now rewrite (H 0 l i Hx).
Qed.

Variable distributed : bool.
Variable gathered : list (Id * obj) -> list (Id * obj).

Local Abbreviation finalize_predictions :=
  (@PredictionCollection.finalize_predictions Stage Stage_eqb Id Tensor E
     distributed gathered).

(** X20.  On a single process, what [append] has stored with auto ids is what
    [finalize_predictions] hands back.  For a dataloader that had no
    prediction yet and batch indices that are distinct, the result of the
    index of the dataloader gets under ["predictions"] the list of the
    predictions of the batch in their order, each as the dict of its
    batch index and the prediction with the tensors converted; the
    results keep their number. *)
Theorem finalize_round_trip (self : t)
    (cache : PredictionCollection.cache Id Tensor) (predictions : batch)
    (ps : list obj) (dl_idx : nat) (indices : list Id) (stage : Stage)
    (results : list (list (string * obj))) (result : list (string * obj)) :
  PredictionCollection.world_size self < 2 ->
  dict_get Stage_eqb stage (_predictions self) = Some cache ->
  dict_get Nat.eqb dl_idx cache = None ->
  items predictions = Some ps ->
  predictions <> @PredictionCollection.B_List Id Tensor [] ->
  List.length ps = List.length indices ->
  NoDup indices ->
  nth_error results dl_idx = Some result ->
  let after :=
    fst (append self predictions dl_idx (Some indices) stage true) in
  exists results',
    finalize_predictions after results = Returns results' /\
    List.length results' = List.length results /\
    nth_error results' dl_idx =
      Some
        (dict_set "predictions"
           (@PredictionCollection.O_List Id Tensor
              (map
                 (fun pi =>
                    convert
                      (O_Dict [("id", O_Num (snd pi));
                               ("predictions", fst pi)]))
                 (combine ps indices))) result).
Proof.
  intros Hws Hstage Hdl Hitems Hnot Hlen Hnd Hres after. subst after.
  destruct (append_auto_run self predictions ps dl_idx indices stage Hitems
              Hlen) as [(Hempty & _)|H]; [contradiction|].
  rewrite H; clear H.
  rewrite (append_prediction_run self stage cache predictions ps dl_idx
             (Some indices) true Hstage Hitems).
  cbn [fst]. rewrite Hdl.
  pose proof (auto_ids ps [] indices [] Hlen) as Hfound.
  cbn [app List.length] in Hfound. rewrite app_nil_r in Hfound.
  fold (PredictionCollection.enumerate ps) in Hfound.
  rewrite (store_loop_order _ _ _ _ Hfound [] Hnd (fun i _ => eq_refl)).
  cbn [app].
  unfold PredictionCollection.finalize_predictions,
    PredictionCollection.predictions.
  cbn [PredictionCollection.current_stage
         PredictionCollection.set_current_stage
         PredictionCollection.set_predictions
         PredictionCollection._predictions].
  rewrite (dict_get_put_same Stage_eqb Stage_eqb_eq).
  eexists. split; [reflexivity|].
  split; [now rewrite length_map, enumerate_length|].
  rewrite nth_error_map, (nth_error_enumerate _ _ _ Hres).
  cbn [option_map].
  rewrite (dict_get_put_same Nat.eqb nat_eqb_eq).
  unfold PredictionCollection.all_gather_predictions.
  cbn [PredictionCollection.world_size
         PredictionCollection.set_current_stage
         PredictionCollection.set_predictions].
  assert (Hsingle : Nat.leb 2 (PredictionCollection.world_size self) = false)
    by (apply Nat.leb_gt; exact Hws).
  rewrite Hsingle. cbn [andb negb].
  do 3 f_equal. rewrite map_map.
  unfold PredictionCollection.enumerate.
  apply (combine_enumerate
           (fun p i => convert (value true i p)) ps 0 indices).
Qed.

End CacheProperties.

Lemma append_keeps_predictions_witness :
  PredictionCollection.stored String.eqb Nat.eqb
    (fst (PredictionCollection.append String.eqb Nat.eqb (fun t => t)
            to_lists
            (fst (PredictionCollection.append String.eqb Nat.eqb
                    (fun t => t) to_lists new_collection two_tensors 0
                    (Some [7; 8]) "test" true))
            two_tensors 0 (Some [9; 7]) "test" true)) "test" 0 7 =
  Some
    (PredictionCollection.O_Dict
       [("id", PredictionCollection.O_Num (list nat) 7);
        ("predictions",
         PredictionCollection.O_List
           [PredictionCollection.O_Num (list nat) 1;
            PredictionCollection.O_Num (list nat) 2])]).
Proof.
  apply (proj1 (append_keeps_predictions String.eqb Nat.eqb (fun t => t)
                  to_lists String.eqb_eq Nat.eqb_eq
                  (fst (PredictionCollection.append String.eqb Nat.eqb
                          (fun t => t) to_lists new_collection two_tensors 0
                          (Some [7; 8]) "test" true))
                  two_tensors 0 (Some [9; 7]) "test" true)).
  reflexivity.
Defined.

Lemma append_auto_id_witness :
  snd (PredictionCollection.append String.eqb Nat.eqb (fun t => t) to_lists
         new_collection two_tensors 0 (Some [7; 8]) "test" true) =
  Returns tt.
Proof.
  apply (proj2 (proj1 (append_auto_id String.eqb Nat.eqb (fun t => t)
                         to_lists String.eqb_eq Nat.eqb_eq new_collection
                         two_tensors _ 0 [7; 8] "test"
                         ltac:(discriminate) eq_refl eq_refl))).
  split; [|reflexivity].
  repeat constructor; simpl; intuition discriminate.
Defined.

Lemma append_stops_at_duplicate_witness :
  snd (PredictionCollection.append String.eqb Nat.eqb (fun t => t) to_lists
         new_collection two_tensors 0 (Some [7; 7]) "test" true) =
  Raises E_MisconfigurationException /\
  PredictionCollection.stored String.eqb Nat.eqb
    (fst (PredictionCollection.append String.eqb Nat.eqb (fun t => t)
            to_lists new_collection two_tensors 0 (Some [7; 7]) "test"
            true)) "test" 0 7 <> None.
Proof.
  destruct (append_stops_at_duplicate String.eqb Nat.eqb (fun t => t)
              to_lists String.eqb_eq Nat.eqb_eq new_collection two_tensors
              [PredictionCollection.O_Tensor nat [1; 2]]
              (PredictionCollection.O_Tensor nat [3; 4]) [] 0 [7] 7 []
              "test" ltac:(discriminate) eq_refl eq_refl eq_refl
              ltac:(repeat constructor; simpl; tauto)
              ltac:(reflexivity) ltac:(left; simpl; tauto))
    as (Hraise & Hkept & _).
  split; [exact Hraise|].
  inversion Hkept as [|? ? ? ? H7 _]; subst.
  cbn [app] in H7. rewrite H7. discriminate.
Defined.

Lemma append_own_id_witness :
  exists ids,
    Forall2
      (fun pred id =>
         (exists d,
            pred = PredictionCollection.O_Dict d /\
            assoc "id" d = Some (PredictionCollection.O_Num (list nat) id) /\
            1 < List.length d) /\
         PredictionCollection.stored String.eqb Nat.eqb
           (fst (PredictionCollection.append String.eqb Nat.eqb
                   (fun t => t) to_lists new_collection with_own_ids 0 None
                   "test" false)) "test" 0 id = Some (to_lists pred))
      [PredictionCollection.O_Dict
         [("id", PredictionCollection.O_Num (list nat) 3);
          ("y", PredictionCollection.O_Tensor nat [1; 2])];
       PredictionCollection.O_Dict
         [("id", PredictionCollection.O_Num (list nat) 5);
          ("y", PredictionCollection.O_Tensor nat [3; 4])]] ids /\
    NoDup ids /\
    (forall id,
       In id ids ->
       PredictionCollection.stored String.eqb Nat.eqb new_collection "test"
         0 id = None).
Proof.
  apply (append_own_id String.eqb Nat.eqb (fun t => t) to_lists
           String.eqb_eq Nat.eqb_eq new_collection _ with_own_ids _ 0 None
           "test"); reflexivity.
Defined.

Lemma should_finalize_after_append_witness :
  snd (PredictionCollection.should_finalize_predictions String.eqb
         (fst (PredictionCollection.append String.eqb Nat.eqb (fun t => t)
                 to_lists new_collection
                 (PredictionCollection.B_Tuple []) 0 (Some []) "test" true))
         "test") = Returns true.
Proof.
  apply (proj2 (proj2 (should_finalize_after_append String.eqb Nat.eqb
                         (fun t => t) to_lists String.eqb_eq
                         stages 0 1 new_collection _
                         (PredictionCollection.B_Tuple []) 0 (Some [])
                         "test" true))).
  - reflexivity.
  - discriminate.
  - discriminate.
  - discriminate.
Defined.

Lemma finalize_round_trip_witness :
  exists results,
    PredictionCollection.finalize_predictions String.eqb true (fun l => l)
      (fst (PredictionCollection.append String.eqb Nat.eqb (fun t => t)
              to_lists new_collection two_tensors 0 (Some [7; 8]) "test"
              true))
      [[("loss", PredictionCollection.O_Num (list nat) 1)]] =
      Returns results /\
    List.length results = 1 /\
    nth_error results 0 =
      Some
        [("loss", PredictionCollection.O_Num (list nat) 1);
         ("predictions",
          PredictionCollection.O_List
            [to_lists
               (PredictionCollection.O_Dict
                  [("id", PredictionCollection.O_Num (list nat) 7);
                   ("predictions",
                    PredictionCollection.O_Tensor nat [1; 2])]);
             to_lists
               (PredictionCollection.O_Dict
                  [("id", PredictionCollection.O_Num (list nat) 8);
                   ("predictions",
                    PredictionCollection.O_Tensor nat [3; 4])])])].
Proof.
  destruct (finalize_round_trip String.eqb Nat.eqb (fun t => t) to_lists
              String.eqb_eq Nat.eqb_eq true (fun l => l) new_collection []
              two_tensors
              [PredictionCollection.O_Tensor nat [1; 2];
               PredictionCollection.O_Tensor nat [3; 4]] 0 [7; 8] "test"
              [[("loss", PredictionCollection.O_Num (list nat) 1)]]
              [("loss", PredictionCollection.O_Num (list nat) 1)]
              ltac:(simpl; lia) eq_refl eq_refl eq_refl ltac:(discriminate)
              eq_refl
              ltac:(repeat constructor; simpl; intuition discriminate)
              eq_refl) as (results & Hf & Hl & Hn).
  exists results. split; [exact Hf|]. split; [exact Hl|exact Hn].
Defined.

(** ** The legacy store *)

Lemma assoc_In {V} (k : string) (v : V) (d : list (string * V)) :
  assoc k d = Some v -> In (k, v) d.
Proof.
  induction d as [|[k0 v0] d IH]; simpl; [discriminate|].
  destruct (String.eqb k k0) eqn:Ek.
  - apply String.eqb_eq in Ek. subst. intros H. injection H as ->. now left.
  - intros H. right. now apply IH.
Qed.

Lemma In_assoc {V} (k : string) (v : V) (d : list (string * V)) :
  NoDup (map fst d) -> In (k, v) d -> assoc k d = Some v.
Proof.
  induction d as [|[k0 v0] d IH]; simpl; intros Hnd Hin; [destruct Hin|].
  inversion Hnd as [|? ? Hnot Hnd']; subst.
  destruct Hin as [Heq|Hin].
  - injection Heq as -> ->. now rewrite String.eqb_refl.
  - destruct (String.eqb k k0) eqn:Ek; [|now apply IH].
    apply String.eqb_eq in Ek. subst. exfalso. apply Hnot.
    now apply (in_map fst) in Hin.
Qed.

Lemma dict_set_Forall {V} (P : string * V -> Prop) (k : string) (v : V)
    (d : list (string * V)) :
  Forall P d -> P (k, v) -> Forall P (dict_set k v d).
Proof.
  intros Hd Hk. induction Hd as [|[k0 v0] d H0 Hd IH]; simpl.
  - now constructor.
  - destruct (String.eqb k k0); constructor; auto.
Qed.

Lemma dict_set_nonempty {V} (k : string) (v : V) (d : list (string * V)) :
  dict_set k v d <> [].
Proof.
  destruct d as [|[k0 v0] d]; simpl; [discriminate|].
  destruct (String.eqb k k0); discriminate.
Qed.

Lemma Forall2_chain {A B C} (R : A -> B -> Prop) (Q : B -> C -> Prop)
    (T : A -> C -> Prop) (a : list A) (b : list B) :
  (forall x y z, R x y -> Q y z -> T x z) ->
  Forall2 R a b -> forall c, Forall2 Q b c -> Forall2 T a c.
Proof.
  intros H HR. induction HR as [|x y a b Hxy HR IH]; intros c HQ;
    inversion HQ; subst; constructor; eauto.
Qed.

Lemma heads_uniform {A} (n : nat) (its : list (list A)) :
  Forall (fun it => List.length it = S n) its ->
  exists row rest,
    heads its = Some (row, rest) /\
    Forall2 (fun it x => nth_error it 0 = Some x) its row /\
    Forall (fun it => List.length it = n) rest /\
    Forall2 (fun it r => forall i, nth_error it (S i) = nth_error r i)
      its rest.
Proof.
  induction 1 as [|it its Hit Hall IH].
  - exists [], []. repeat split; constructor.
  - destruct IH as (row & rest & Hh & H0 & Hlen & Hs).
    destruct it as [|x it']; [discriminate Hit|].
    exists (x :: row), (it' :: rest). simpl. rewrite Hh.
    repeat split; constructor; auto.
Qed.

Lemma zip_rows_uniform {A} (n : nat) : forall (its : list (list A)),
  Forall (fun it => List.length it = n) its ->
  List.length (zip_rows n its) = n /\
  forall i row,
    nth_error (zip_rows n its) i = Some row ->
    Forall2 (fun it x => nth_error it i = Some x) its row.
Proof.
  induction n as [|n IH]; intros its Hall.
  - split; [reflexivity|]. intros [|i] row H; discriminate H.
  - destruct (heads_uniform n its Hall) as (row & rest & Hh & H0 & Hlen & Hs).
    simpl. rewrite Hh. destruct (IH rest Hlen) as [Hl Hrows].
    split; [simpl; now rewrite Hl|].
    intros [|i] row' H; simpl in H.
    + injection H as <-. exact H0.
    + specialize (Hrows i row' H).
      apply (Forall2_chain
               (fun it r : list A =>
                  forall i, nth_error it (S i) = nth_error r i)
               (fun (r : list A) (x : A) => nth_error r i = Some x) _ its
               rest); [|exact Hs|exact Hrows].
      intros it r x Hit Hr. now rewrite Hit.
Qed.

Lemma dict_set_new {V} (k : string) (v : V) (d : list (string * V)) :
  ~ In k (map fst d) -> dict_set k v d = d ++ [(k, v)].
Proof.
  induction d as [|[k0 v0] d IH]; simpl; intros H; [reflexivity|].
  destruct (String.eqb k k0) eqn:Ek.
  - apply String.eqb_eq in Ek. subst. tauto.
  - rewrite IH by tauto. reflexivity.
Qed.

Lemma dict_update_new {V} (l : list (string * V)) : forall d,
  NoDup (map fst (d ++ l)) -> dict_update d l = d ++ l.
Proof.
  unfold dict_update.
  induction l as [|[k v] l IH]; intros d H; simpl.
  - now rewrite app_nil_r.
  - rewrite map_app in H. simpl in H.
    pose proof (NoDup_remove_2 _ _ _ H) as Hk.
    rewrite dict_set_new by (intros Hin; apply Hk; apply in_or_app; now left).
    rewrite IH.
    + now rewrite <- app_assoc.
    + now rewrite <- app_assoc, map_app.
Qed.

Lemma map_fst_combine {A B} (a : list A) : forall (b : list B),
  List.length a = List.length b -> map fst (combine a b) = a.
Proof.
  induction a as [|x a IH]; intros [|y b] H; try discriminate H;
    [reflexivity|].
  simpl. f_equal. apply IH. simpl in H. lia.
Qed.

Lemma output_element_combine {V} (keys : list string) (values : list V) :
  NoDup keys -> List.length keys = List.length values ->
  dict_update [] (combine keys values) = combine keys values.
Proof.
  intros Hnd Hlen. apply (dict_update_new _ []). simpl.
  now rewrite map_fst_combine.
Qed.

Lemma cell_of_row {V} (i : nat) (columns : list (string * list V)) :
  forall row,
  NoDup (map fst columns) ->
  Forall2 (fun it x => nth_error it i = Some x) (map snd columns) row ->
  forall name l,
    In (name, l) columns ->
    assoc name (combine (map fst columns) row) = nth_error l i.
Proof.
  induction columns as [|[k0 l0] columns IH]; intros row Hnd Hrow name l Hin;
    [destruct Hin|].
  simpl in Hrow. inversion Hrow as [|? x0 ? row' Hx Hrest]; subst.
  simpl in Hnd. inversion Hnd as [|? ? Hnot Hnd']; subst.
  simpl. destruct (String.eqb name k0) eqn:Ek.
  - apply String.eqb_eq in Ek. subst k0.
    destruct Hin as [Heq|Hin].
    + injection Heq as <-. now rewrite Hx.
    + exfalso. apply Hnot. now apply (in_map fst) in Hin.
  - destruct Hin as [Heq|Hin].
    + injection Heq as -> _. rewrite String.eqb_refl in Ek. discriminate.
    + now apply IH.
Qed.

Lemma nodup_constant (n : nat) (l : list nat) :
  l <> [] -> Forall (fun x => x = n) l -> nodup Nat.eq_dec l = [n].
Proof.
  induction l as [|x l IH]; intros Hne Hall; [congruence|].
  inversion Hall as [|? ? Hx Hall']; subst. simpl.
  destruct l as [|y l]; [reflexivity|].
  destruct (in_dec Nat.eq_dec n (y :: l)) as [_|Hnot].
  - apply IH; [discriminate|exact Hall'].
  - exfalso. apply Hnot. inversion Hall'; subst. now left.
Qed.

Lemma nodup_one (l : list nat) (a b : nat) :
  In a l -> In b l -> List.length (nodup Nat.eq_dec l) = 1 -> a = b.
Proof.
  intros Ha Hb H.
  destruct (nodup Nat.eq_dec l) as [|x [|y r]] eqn:E; try discriminate H.
  apply (nodup_In Nat.eq_dec) in Ha, Hb. rewrite E in Ha, Hb.
  destruct Ha as [<-|[]]. now destruct Hb as [<-|[]].
Qed.

Lemma two_lengths (l : list nat) :
  l <> [] -> List.length (nodup Nat.eq_dec l) <> 1 ->
  exists a b, In a l /\ In b l /\ a <> b.
Proof.
  intros Hne Hlen. destruct l as [|x l]; [congruence|].
  destruct (Forall_Exists_dec (fun y => y = x)
              (fun y => Nat.eq_dec y x) l) as [Hall|Hex].
  - exfalso. apply Hlen.
    rewrite (nodup_constant x (x :: l)); [reflexivity|discriminate|].
    now constructor.
  - apply Exists_exists in Hex. destruct Hex as (y & Hy & Hneq).
    exists x, y. repeat split; [now left|now right|congruence].
Qed.


Section LegacyProperties.
Context {Stage Id Tensor E : Type}.
Variable LoggerStages : list Stage.
Variable tolist : Tensor -> list E.
Variable cat : Tensor -> Tensor -> option Tensor.
Variable protocol : string -> string.
Variable realpath : string -> string.
Variable splitext : string -> string * string.
Variable dirname : string -> string.

Local Abbreviation t := (@PredictionCollection.t Stage Id Tensor E).
Local Abbreviation column := (@PredictionCollection.column Tensor E).
Local Abbreviation memory := (@PredictionCollection.memory E).
Local Abbreviation C_Tensor := (@PredictionCollection.C_Tensor Tensor E).
Local Abbreviation C_List := (@PredictionCollection.C_List Tensor E).
Local Abbreviation _legacy_predictions :=
  (@PredictionCollection._legacy_predictions Stage Id Tensor E).
Local Abbreviation set_legacy :=
  (@PredictionCollection.set_legacy Stage Id Tensor E).
Local Abbreviation column_of :=
  (@PredictionCollection.column_of Stage Id Tensor E).
Local Abbreviation well_formed :=
  (@PredictionCollection.well_formed Stage Id Tensor E).
Local Abbreviation _add_prediction :=
  (@PredictionCollection._add_prediction Stage Id Tensor E cat).
Local Abbreviation add := (@PredictionCollection.add Stage Id Tensor E cat).
Local Abbreviation adds := (@PredictionCollection.adds Stage Id Tensor E cat).

Lemma column_of_set (self : t) (filename : string)
    (columns : list (string * column)) (f n : string) :
  column_of
    (set_legacy self (dict_set filename columns (_legacy_predictions self)))
    f n =
  if String.eqb f filename then assoc n columns else column_of self f n.
Proof.
  unfold PredictionCollection.column_of.
  cbn [PredictionCollection._legacy_predictions
         PredictionCollection.set_legacy].
  rewrite assoc_dict_set. now destruct (String.eqb f filename).
Qed.

(** The lists have grown and the columns are still there: a list column
    is the same list, a tuple or a number the same value. *)
Let grows (st st' : memory * t) : Prop :=
  (forall address,
     exists more, fst st' address = fst st address ++ more) /\
  (forall filename name c,
     column_of (snd st) filename name = Some c ->
     match c with
     | PredictionCollection.C_Tensor _ _ =>
         exists joined,
           column_of (snd st') filename name = Some (C_Tensor joined)
     | _ => column_of (snd st') filename name = Some c
     end).

Lemma grows_refl (st : memory * t) : grows st st.
Proof.
  split.
  - intros a. exists []. now rewrite app_nil_r.
  - intros f n c H. destruct c; eauto.
Qed.

Lemma grows_trans (st1 st2 st3 : memory * t) :
  grows st1 st2 -> grows st2 st3 -> grows st1 st3.
Proof.
  intros [Hm1 Hc1] [Hm2 Hc2]. split.
  - intros a. destruct (Hm1 a) as [more1 H1]. destruct (Hm2 a) as [more2 H2].
    exists (more1 ++ more2). now rewrite H2, H1, app_assoc.
  - intros f n c H. specialize (Hc1 f n c H).
    destruct c as [x|a|l|].
    + destruct Hc1 as [joined Hj]. exact (Hc2 f n _ Hj).
    + exact (Hc2 f n _ Hc1).
    + exact (Hc2 f n _ Hc1).
    + exact (Hc2 f n _ Hc1).
Qed.

Lemma grows_columns (m : memory) (self self' : t) :
  (forall f n c,
     column_of self f n = Some c ->
     match c with
     | PredictionCollection.C_Tensor _ _ =>
         exists joined, column_of self' f n = Some (C_Tensor joined)
     | _ => column_of self' f n = Some c
     end) ->
  grows (m, self) (m, self').
Proof.
  intros H. split; [|exact H].
  intros a. exists []. now rewrite app_nil_r.
Qed.

Lemma _add_prediction_grows (name : string) (values : column)
    (filename : string) (st : memory * t) :
  grows st (fst (_add_prediction name values filename st)).
Proof.
  destruct st as [m self]. unfold PredictionCollection._add_prediction.
  destruct (assoc filename (_legacy_predictions self)) as [columns|] eqn:Ef.
  - destruct (assoc name columns) as [kept|] eqn:En.
    + destruct values as [v|given|l|].
      * destruct kept as [s|a|l|]; try apply grows_refl.
        destruct (cat s v) as [joined|]; [|apply grows_refl].
        cbn [fst]. apply grows_columns. intros f n c Hc.
        rewrite column_of_set, assoc_dict_set.
        unfold PredictionCollection.column_of in Hc.
        destruct (String.eqb f filename) eqn:E1.
        -- apply String.eqb_eq in E1. subst f. rewrite Ef in Hc.
           destruct (String.eqb n name) eqn:E2.
           ++ apply String.eqb_eq in E2. subst n.
              assert (c = C_Tensor s) by congruence. subst c. eauto.
           ++ rewrite Hc. destruct c; eauto.
        -- unfold PredictionCollection.column_of. rewrite Hc.
           destruct c; eauto.
      * destruct kept as [s|a|l|]; try apply grows_refl.
        cbn [fst]. split.
        -- intros address. cbn [fst].
           unfold PredictionCollection.extend.
           destruct (Nat.eqb address a); [eauto|].
           exists []. now rewrite app_nil_r.
        -- intros f n c Hc. cbn [snd] in *. rewrite Hc. destruct c; eauto.
      * apply grows_refl.
      * apply grows_refl.
    + cbn [fst]. apply grows_columns. intros f n c Hc.
      rewrite column_of_set, assoc_dict_set.
      unfold PredictionCollection.column_of in Hc.
      destruct (String.eqb f filename) eqn:E1.
      * apply String.eqb_eq in E1. subst f. rewrite Ef in Hc.
        destruct (String.eqb n name) eqn:E2.
        -- apply String.eqb_eq in E2. subst n. congruence.
        -- rewrite Hc. destruct c; eauto.
      * unfold PredictionCollection.column_of. rewrite Hc.
        destruct c; eauto.
  - cbn [fst]. apply grows_columns. intros f n c Hc.
    rewrite column_of_set.
    unfold PredictionCollection.column_of in Hc.
    destruct (String.eqb f filename) eqn:E1.
    + apply String.eqb_eq in E1. subst f. rewrite Ef in Hc. discriminate.
    + unfold PredictionCollection.column_of. rewrite Hc.
      destruct c; eauto.
Qed.

(** X21.  [add] only adds.  Whatever it is given and whether it returns or
    raises, every list of the caller's that it has touched has its old
    elements in front, and every column of the legacy store is still
    there: a list column is still the very list that was given first for
    it, a tuple or a number is what it was, since a later value for such
    a column is dropped or makes the call raise, and a tensor is still a
    tensor. *)
Theorem add_only_grows
    (predictions : option (list (string * list (string * column))))
    (m : memory) (self : t) :
  let after := fst (add predictions (m, self)) in
  (forall address, exists more, fst after address = m address ++ more) /\
  (forall filename name c,
     column_of self filename name = Some c ->
     match c with
     | PredictionCollection.C_Tensor _ _ =>
         exists joined,
           column_of (snd after) filename name = Some (C_Tensor joined)
     | _ => column_of (snd after) filename name = Some c
     end).
Proof.
  intros after. subst after.
  change (grows (m, self) (fst (add predictions (m, self)))).
  unfold PredictionCollection.add.
  destruct predictions as [files|]; [|apply grows_refl].
  apply (for_each_invariant grows); [apply grows_refl|apply grows_trans|].
  intros file s.
  apply (for_each_invariant grows); [apply grows_refl|apply grows_trans|].
  intros feature s'. apply _add_prediction_grows.
Qed.

Lemma _add_prediction_well_formed (name : string) (values : column)
    (filename : string) (st : memory * t) :
  well_formed (snd st) ->
  well_formed (snd (fst (_add_prediction name values filename st))).
Proof.
  destruct st as [m self]. cbn [snd]. intros [Hfiles Hall].
  assert (Hset : forall columns,
            columns <> [] -> NoDup (map fst columns) ->
            well_formed
              (set_legacy self
                 (dict_set filename columns (_legacy_predictions self)))).
  { intros columns Hne Hnd. split;
      cbn [PredictionCollection._legacy_predictions
             PredictionCollection.set_legacy].
    - now apply dict_set_keys.
    - apply dict_set_Forall; [exact Hall|]. now split. }
  unfold PredictionCollection._add_prediction.
  destruct (assoc filename (_legacy_predictions self)) as [columns|] eqn:Ef.
  - assert (Hcol : NoDup (map fst columns)).
    { apply assoc_In in Ef.
      pose proof (proj1 (Forall_forall _ _) Hall _ Ef) as [_ H]. exact H. }
    destruct (assoc name columns) as [kept|] eqn:En.
    + destruct values as [v|given|l|].
      * destruct kept as [s|a|l|]; try (now split).
        destruct (cat s v) as [joined|]; [|now split].
        cbn [fst snd]. apply Hset;
          [apply dict_set_nonempty|now apply dict_set_keys].
      * destruct kept as [s|a|l|]; now split.
      * now split.
      * now split.
    + cbn [fst snd]. apply Hset;
        [apply dict_set_nonempty|now apply dict_set_keys].
  - cbn [fst snd]. apply Hset; [discriminate|].
    repeat constructor. intros [].
Qed.

Lemma add_well_formed
    (predictions : option (list (string * list (string * column))))
    (st : memory * t) :
  well_formed (snd st) -> well_formed (snd (fst (add predictions st))).
Proof.
  unfold PredictionCollection.add.
  destruct predictions as [files|]; [|auto].
  apply (for_each_invariant
           (fun s s' : memory * t =>
              well_formed (snd s) -> well_formed (snd s'))); auto.
  intros file s.
  apply (for_each_invariant
           (fun s s' : memory * t =>
              well_formed (snd s) -> well_formed (snd s'))); auto.
  intros feature s'. apply _add_prediction_well_formed.
Qed.

Lemma adds_well_formed
    (calls : list (option (list (string * list (string * column))))) :
  forall st, well_formed (snd st) -> well_formed (snd (adds calls st)).
Proof.
  unfold PredictionCollection.adds.
  induction calls as [|p calls IH]; intros st H; [exact H|].
  simpl. apply IH. now apply add_well_formed.
Qed.

Local Abbreviation io := (@PredictionCollection.io E).
Local Abbreviation Mkdirs := (@PredictionCollection.Mkdirs E).
Local Abbreviation Torch_save := (@PredictionCollection.Torch_save E).
Local Abbreviation sized := (@PredictionCollection.sized Tensor E tolist).
Local Abbreviation uniform :=
  (@PredictionCollection.uniform Tensor E tolist).
Local Abbreviation table_of :=
  (@PredictionCollection.table_of Tensor E tolist).
Local Abbreviation target :=
  (@PredictionCollection.target Stage Id Tensor E protocol realpath splitext).
Local Abbreviation write_file :=
  (@PredictionCollection.write_file Stage Id Tensor E tolist protocol
     realpath splitext dirname).
Local Abbreviation write_files :=
  (@PredictionCollection.write_files Stage Id Tensor E tolist protocol
     realpath splitext dirname).
Local Abbreviation to_disk :=
  (@PredictionCollection.to_disk Stage Id Tensor E tolist protocol realpath
     splitext dirname).

Lemma sized_keys (m : memory) (cols : list (string * column)) :
  forall columns,
  sized m cols = Some columns -> map fst columns = map fst cols.
Proof.
  induction cols as [|[k v] cols IH]; intros columns H; simpl in H.
  - now injection H as <-.
  - destruct (PredictionCollection.rows tolist m v); [|discriminate H].
    destruct (sized m cols) as [r|]; [|discriminate H].
    injection H as <-. simpl. f_equal. now apply IH.
Qed.

(** What [to_disk] writes for a file. *)
Let written (self : t) (file : string * list (string * column))
    (outputs : list (list (string * E))) : list io :=
  [Mkdirs (dirname (target self (fst file)));
   Torch_save (target self (fst file)) outputs].

Lemma write_file_good (m : memory) (self : t)
    (file : string * list (string * column)) (n : nat) :
  snd file <> [] -> NoDup (map fst (snd file)) ->
  uniform m file n ->
  exists outputs,
    write_file m self file = (written self file outputs, Returns tt) /\
    table_of m file outputs.
Proof.
  intros Hne Hnd (columns & Hsized & Hlen).
  pose proof (sized_keys m _ _ Hsized) as Hkeys.
  assert (Hcne : columns <> []).
  { intros ->. destruct (snd file); [congruence|discriminate Hkeys]. }
  assert (Hits : Forall (fun it : list E => List.length it = n)
                   (map snd columns)).
  { apply Forall_map. exact Hlen. }
  destruct (zip_rows_uniform n (map snd columns) Hits) as [Hrows Hcells].
  assert (Hzip : zip_star (map snd columns) = zip_rows n (map snd columns)).
  { unfold zip_star. destruct columns as [|[k c] columns]; [congruence|].
    inversion Hlen; subst. reflexivity. }
  exists (map (PredictionCollection.output_element (map fst columns))
            (zip_star (map snd columns))).
  split.
  - unfold PredictionCollection.write_file. rewrite Hsized.
    rewrite (nodup_constant n).
    + reflexivity.
    + destruct columns; [congruence|discriminate].
    + apply Forall_map. exact Hlen.
  - exists columns. split; [exact Hsized|].
    rewrite length_map, Hzip, Hrows. split; [exact Hlen|].
    intros i out Hout. rewrite nth_error_map in Hout.
    destruct (nth_error (zip_rows n (map snd columns)) i) as [row|] eqn:Erow;
      [|discriminate Hout].
    injection Hout as <-.
    specialize (Hcells i row Erow).
    assert (Hrl : List.length (map fst columns) = List.length row).
    { apply Forall2_length in Hcells. now rewrite !length_map in *. }
    assert (Hck : NoDup (map fst columns)) by now rewrite Hkeys.
    unfold PredictionCollection.output_element.
    rewrite (output_element_combine _ _ Hck Hrl).
    split; [now apply map_fst_combine|].
    now apply cell_of_row.
Qed.

Lemma write_files_app (m : memory) (self : t)
    (a b : list (string * list (string * column))) :
  write_files m self (a ++ b) =
  match write_files m self a with
  | (done, Returns _) =>
      (done ++ fst (write_files m self b), snd (write_files m self b))
  | (done, Raises e) => (done, Raises e)
  end.
Proof.
  induction a as [|file a IH]; simpl.
  - now destruct (write_files m self b).
  - destruct (write_file m self file) as [done [[]|e]]; [|reflexivity].
    rewrite IH.
    destruct (write_files m self a) as [more [[]|e]]; simpl.
    + now rewrite app_assoc.
    + reflexivity.
Qed.

Lemma write_files_set_legacy (m : memory) (self : t)
    (legacy files : list (string * list (string * column))) :
  write_files m (set_legacy self legacy) files = write_files m self files.
Proof.
  induction files as [|file files IH]; [reflexivity|].
  cbn [PredictionCollection.write_files]. rewrite IH. reflexivity.
Qed.

Lemma write_files_good (m : memory) (self : t)
    (files : list (string * list (string * column))) :
  Forall (fun file => snd file <> [] /\ NoDup (map fst (snd file))) files ->
  (forall file, In file files -> exists n, uniform m file n) ->
  exists tables,
    write_files m self files =
      (flat_map (fun ft => written self (fst ft) (snd ft))
         (combine files tables), Returns tt) /\
    Forall2 (table_of m) files tables.
Proof.
  induction 1 as [|file files [Hne Hnd] Hall IH]; intros Hgood.
  - exists []. split; [reflexivity|constructor].
  - destruct (Hgood file (or_introl eq_refl)) as [n Hn].
    destruct (write_file_good m self file n Hne Hnd Hn)
      as (outputs & Hw & Htable).
    destruct (IH (fun f Hf => Hgood f (or_intror Hf)))
      as (tables & Hws & Htables).
    exists (outputs :: tables). split; [|now constructor].
    cbn [PredictionCollection.write_files]. rewrite Hw, Hws. reflexivity.
Qed.

(** X22.  [to_disk] on a store in which the columns of every file have one
    length: it returns, and for each file in turn it has made the
    directory of the path it writes to and saved the table of the file,
    which has a dict for each row with the element of every column under
    the name of the column. *)
Theorem to_disk_rows (m : memory) (self : t) :
  well_formed self ->
  (forall file,
     In file (_legacy_predictions self) -> exists n, uniform m file n) ->
  exists tables,
    to_disk m self =
      (flat_map
         (fun ft =>
            [Mkdirs (dirname (target self (fst (fst ft))));
             Torch_save (target self (fst (fst ft))) (snd ft)])
         (combine (_legacy_predictions self) tables), Returns tt) /\
    Forall2 (table_of m) (_legacy_predictions self) tables.
Proof.
  intros [_ Hall] Hgood.
  exact (write_files_good m self _ Hall Hgood).
Qed.

(** X23.  [to_disk] stops at the first file that has two columns of different
    lengths: it raises [ValueError] after it has written the files before
    that one, as it would have without the others, and made the directory
    for that one; the files after it are not written. *)
Theorem to_disk_stops_at_mismatch (m : memory) (self : t)
    (pre : list (string * list (string * column)))
    (bad : string * list (string * column))
    (post : list (string * list (string * column)))
    (columns : list (string * list E)) (k1 k2 : string) (l1 l2 : list E) :
  _legacy_predictions self = pre ++ bad :: post ->
  well_formed self ->
  (forall file, In file pre -> exists n, uniform m file n) ->
  sized m (snd bad) = Some columns ->
  In (k1, l1) columns -> In (k2, l2) columns ->
  List.length l1 <> List.length l2 ->
  snd (to_disk m (set_legacy self pre)) = Returns tt /\
  to_disk m self =
    (fst (to_disk m (set_legacy self pre)) ++
     [Mkdirs (dirname (target self (fst bad)))], Raises E_ValueError).
Proof.
  intros Hlegacy [_ Hall] Hgood Hsized H1 H2 Hneq.
  rewrite Hlegacy in Hall. apply Forall_app in Hall.
  destruct Hall as [Hpre _].
  destruct (write_files_good m self pre Hpre Hgood) as (tables & Hw & _).
  assert (Hsame : to_disk m (set_legacy self pre) = write_files m self pre)
    by apply write_files_set_legacy.
  rewrite Hsame, Hw. cbn [fst snd]. split; [reflexivity|].
  unfold PredictionCollection.to_disk. rewrite Hlegacy.
  rewrite write_files_app, Hw.
  cbn [PredictionCollection.write_files].
  assert (Hbad : write_file m self bad =
                 ([Mkdirs (dirname (target self (fst bad)))],
                  Raises E_ValueError)).
  { unfold PredictionCollection.write_file. rewrite Hsized.
    destruct (Nat.eqb (List.length
                         (nodup Nat.eq_dec
                            (map (fun kv : string * list E =>
                                    List.length (snd kv)) columns))) 1)
      eqn:Eone; [|reflexivity].
    apply Nat.eqb_eq in Eone. exfalso. apply Hneq.
    apply (nodup_one _ _ _) with (3 := Eone).
    - now apply (in_map (fun kv : string * list E => List.length (snd kv)))
        in H1.
    - now apply (in_map (fun kv : string * list E => List.length (snd kv)))
        in H2. }
  rewrite Hbad. reflexivity.
Qed.

Lemma write_files_value_error (m : memory) (self : t)
    (files : list (string * list (string * column))) :
  snd (write_files m self files) = Raises E_ValueError ->
  exists file,
    In file files /\ snd (write_file m self file) = Raises E_ValueError.
Proof.
  induction files as [|file files IH]; simpl; [discriminate|].
  destruct (write_file m self file) as [done [[]|e]] eqn:Ew.
  - destruct (write_files m self files) as [more r]. cbn [snd] in *.
    intros H. destruct (IH H) as (f & Hf & Hr). exists f. auto.
  - cbn [snd]. intros H. exists file. rewrite Ew. auto.
Qed.

(** X24.  After any calls of [add] on a new collection, a [ValueError] of
    [to_disk] means what its message says: some file has two columns of
    different lengths.  [add] leaves no file without a column, for which
    [to_disk] would raise it as well. *)
Theorem value_error_is_mismatch
    (calls : list (option (list (string * list (string * column)))))
    (m0 : memory) (global_rank world_size : nat) :
  let st :=
    adds calls
      (m0, @PredictionCollection.__init__ Stage LoggerStages Id Tensor E
             global_rank world_size) in
  snd (to_disk (fst st) (snd st)) = Raises E_ValueError ->
  exists file columns k1 l1 k2 l2,
    In file (_legacy_predictions (snd st)) /\
    sized (fst st) (snd file) = Some columns /\
    In (k1, l1) columns /\ In (k2, l2) columns /\
    List.length l1 <> List.length l2.
Proof.
  intros st Hraise.
  assert (Hwf : well_formed (snd st)).
  { apply adds_well_formed. split; constructor. }
  destruct (write_files_value_error _ _ _ Hraise) as (file & Hin & Hfile).
  exists file.
  unfold PredictionCollection.write_file in Hfile.
  destruct (sized (fst st) (snd file)) as [columns|] eqn:Hsized;
    [|discriminate Hfile].
  exists columns.
  destruct (Nat.eqb (List.length
                       (nodup Nat.eq_dec
                          (map (fun kv : string * list E =>
                                  List.length (snd kv)) columns))) 1)
    eqn:Eone; [discriminate Hfile|].
  apply Nat.eqb_neq in Eone.
  destruct Hwf as [_ Hall].
  pose proof (proj1 (Forall_forall _ _) Hall file Hin) as [Hne _].
  assert (Hcne : map (fun kv : string * list E => List.length (snd kv))
                   columns <> []).
  { pose proof (sized_keys _ _ _ Hsized) as Hkeys.
    destruct columns; [|discriminate].
    destruct (snd file); [congruence|discriminate Hkeys]. }
  destruct (two_lengths _ Hcne Eone) as (a & b & Ha & Hb & Hab).
  apply in_map_iff in Ha, Hb.
  destruct Ha as ([k1 l1] & <- & H1). destruct Hb as ([k2 l2] & <- & H2).
  exists k1, l1, k2, l2. auto.
Qed.

End LegacyProperties.

Lemma to_disk_rows_witness :
  exists tables,
    PredictionCollection.to_disk (fun t => t) local_file as_it_is
      no_extension here no_lists
      (PredictionCollection.set_legacy new_collection [matching_file]) =
    (flat_map
       (fun ft =>
          [PredictionCollection.Mkdirs nat
             (here
                (PredictionCollection.target local_file as_it_is
                   no_extension
                   (PredictionCollection.set_legacy new_collection
                      [matching_file]) (fst (fst ft))));
           PredictionCollection.Torch_save
             (PredictionCollection.target local_file as_it_is no_extension
                (PredictionCollection.set_legacy new_collection
                   [matching_file]) (fst (fst ft)))
             (snd ft)])
       (combine [matching_file] tables), Returns tt) /\
    Forall2 (PredictionCollection.table_of (fun t => t) no_lists)
      [matching_file] tables.
Proof.
  apply (to_disk_rows (fun t => t) local_file as_it_is no_extension here
           no_lists
           (PredictionCollection.set_legacy new_collection [matching_file])).
  - split; simpl.
    + repeat constructor. intros [].
    + repeat constructor; simpl; try discriminate; intuition discriminate.
  - intros file [<-|[]]. exists 2. eexists. split; [reflexivity|].
    repeat constructor.
Defined.

Lemma to_disk_stops_at_mismatch_witness :
  PredictionCollection.to_disk (fun t => t) local_file as_it_is no_extension
    here no_lists
    (PredictionCollection.set_legacy new_collection
       [matching_file; mismatching_file; later_file]) =
  (fst (PredictionCollection.to_disk (fun t => t) local_file as_it_is
          no_extension here no_lists
          (PredictionCollection.set_legacy new_collection [matching_file]))
   ++ [PredictionCollection.Mkdirs nat "."], Raises E_ValueError).
Proof.
  apply (to_disk_stops_at_mismatch (fun t => t) local_file as_it_is
           no_extension here no_lists
           (PredictionCollection.set_legacy new_collection
              [matching_file; mismatching_file; later_file])
           [matching_file] mismatching_file [later_file]
           [("x", [1; 2]); ("y", [3])] "x" "y" [1; 2] [3]).
  - reflexivity.
  - split; simpl.
    + repeat constructor; simpl; intuition discriminate.
    + repeat constructor; simpl; try discriminate; intuition discriminate.
  - intros file [<-|[]]. exists 2. eexists. split; [reflexivity|].
    repeat constructor.
  - reflexivity.
  - simpl. tauto.
  - simpl. tauto.
  - simpl. lia.
Defined.

Lemma value_error_is_mismatch_witness :
  exists file columns k1 l1 k2 l2,
    In file
      (PredictionCollection._legacy_predictions
         (snd (PredictionCollection.adds joined
                 [Some [matching_file]; Some [mismatching_file]]
                 (no_lists, new_collection)))) /\
    PredictionCollection.sized (fun t => t)
      (fst (PredictionCollection.adds joined
              [Some [matching_file]; Some [mismatching_file]]
              (no_lists, new_collection))) (snd file) = Some columns /\
    In (k1, l1) columns /\ In (k2, l2) columns /\
    List.length l1 <> List.length l2.
Proof.
  apply (value_error_is_mismatch stages (fun t => t) joined local_file
           as_it_is no_extension here
           [Some [matching_file]; Some [mismatching_file]] no_lists 0 1).
  reflexivity.
Defined.
